(** * RigModule: the module life cycle of the rigging framework

    A shallow embedding of [core/module.py].  The host scene graph (the
    [cmds] API) is an explicit store threaded through an error monad; the
    module instance is a small record holding what the Python object holds
    ([node_name], [rig] and its class).  Fields are attributes persisted on
    the backing node, read and written through the store. *)

From Stdlib Require Import String Ascii List Bool Arith Lia Reals Lra.
From Stdlib Require Import DecimalString.
Import ListNotations.
Open Scope string_scope.

Set Implicit Arguments.

(** ** Numbers, vectors and 4x4 matrices

    Matrix entries are the host's doubles, idealised as real numbers.  A
    matrix is row-major and acts on row vectors, as [om2.MMatrix] does. *)

Definition V3 : Type := (R * R * R)%type.
Definition Row : Type := (R * R * R * R)%type.
Definition Mat4 : Type := (Row * Row * Row * Row)%type.

Inductive Axis := aX | aY | aZ.

Definition v3_get (v : V3) (a : Axis) : R :=
  match v, a with
  | (x, _, _), aX => x
  | (_, y, _), aY => y
  | (_, _, z), aZ => z
  end.

Definition v3_set (v : V3) (a : Axis) (r : R) : V3 :=
  match v, a with
  | (_, y, z), aX => (r, y, z)
  | (x, _, z), aY => (x, r, z)
  | (x, y, _), aZ => (x, y, r)
  end.

Definition row_dot_col (r : Row) (m : Mat4) (j : nat) : R :=
  let '(a, b, c, d) := r in
  let '(r0, r1, r2, r3) := m in
  let pick (q : Row) := let '(q0, q1, q2, q3) := q in
                        match j with 0 => q0 | 1 => q1 | 2 => q2 | _ => q3 end in
  (a * pick r0 + b * pick r1 + c * pick r2 + d * pick r3)%R.

Definition row_mul (r : Row) (m : Mat4) : Row :=
  (row_dot_col r m 0, row_dot_col r m 1, row_dot_col r m 2, row_dot_col r m 3).

(** [a * b] of [om2.MMatrix]. *)
Definition mmul (a b : Mat4) : Mat4 :=
  let '(a0, a1, a2, a3) := a in
  (row_mul a0 b, row_mul a1 b, row_mul a2 b, row_mul a3 b).

Definition diag (a b c d : R) : Mat4 :=
  ((a, 0, 0, 0), (0, b, 0, 0), (0, 0, c, 0), (0, 0, 0, d))%R.

Definition identity_mat : Mat4 := diag 1 1 1 1.

(** The translation of a world matrix is its last row. *)
Definition position (m : Mat4) : V3 :=
  let '(_, _, _, (x, y, z, _)) := m in (x, y, z).

Definition set_position (m : Mat4) (p : V3) : Mat4 :=
  let '(r0, r1, r2, (_, _, _, w)) := m in
  let '(x, y, z) := p in (r0, r1, r2, (x, y, z, w)).

(** ** The scene store *)

Definition NodeId := nat.

Inductive AttrVal :=
| ABool (b : bool)
| AString (v : option string)        (* a string or enum attribute; [None] while never set *)
| AMessage (src : option NodeId)     (* a message attribute and the node connected to it *)
| AMessageList (srcs : list NodeId). (* a multi message attribute *)

Record Attr := mkAttr {
  a_name : string;
  a_category : option string;
  a_val : AttrVal
}.

(** An incoming dependency-graph connection [src.src_attr -> node.dst_attr]. *)
Record Conn := mkConn {
  c_dst_attr : string;
  c_src : NodeId;
  c_src_attr : string
}.

Record ShapeData := mkShape {
  enable_overrides : bool;
  use_rgb : bool;
  color_rgb : option V3;
  geometry : string
}.

Record Transform := mkTransform {
  t_matrix : Mat4;     (* worldMatrix *)
  t_rotate : V3;       (* rotation, degrees *)
  t_scale : V3;
  t_jointOrient : V3
}.

Record Node := mkNode {
  n_id : NodeId;
  n_name : string;
  n_type : string;
  n_parent : option NodeId;
  n_attrs : list Attr;
  n_inputs : list Conn;
  n_xform : Transform;
  n_shapes : list ShapeData
}.

Record Store := mkStore {
  nodes : list Node;
  next_id : NodeId
}.

Definition with_name (n : Node) (x : string) : Node :=
  mkNode (n_id n) x (n_type n) (n_parent n) (n_attrs n) (n_inputs n) (n_xform n) (n_shapes n).
Definition with_parent (n : Node) (p : option NodeId) : Node :=
  mkNode (n_id n) (n_name n) (n_type n) p (n_attrs n) (n_inputs n) (n_xform n) (n_shapes n).
Definition with_attrs (n : Node) (l : list Attr) : Node :=
  mkNode (n_id n) (n_name n) (n_type n) (n_parent n) l (n_inputs n) (n_xform n) (n_shapes n).
Definition with_inputs (n : Node) (l : list Conn) : Node :=
  mkNode (n_id n) (n_name n) (n_type n) (n_parent n) (n_attrs n) l (n_xform n) (n_shapes n).
Definition with_xform (n : Node) (t : Transform) : Node :=
  mkNode (n_id n) (n_name n) (n_type n) (n_parent n) (n_attrs n) (n_inputs n) t (n_shapes n).
Definition with_shapes (n : Node) (l : list ShapeData) : Node :=
  mkNode (n_id n) (n_name n) (n_type n) (n_parent n) (n_attrs n) (n_inputs n) (n_xform n) l.

Definition find_node (name : string) (s : Store) : option Node :=
  find (fun n => n_name n =? name) (nodes s).

Definition node_by_id (i : NodeId) (s : Store) : option Node :=
  find (fun n => Nat.eqb (n_id n) i) (nodes s).

Definition update_node (i : NodeId) (f : Node -> Node) (s : Store) : Store :=
  mkStore (map (fun n => if Nat.eqb (n_id n) i then f n else n) (nodes s)) (next_id s).

Definition find_attr (a : string) (n : Node) : option Attr :=
  find (fun x => a_name x =? a) (n_attrs n).

Definition set_attr_val (a : string) (v : AttrVal) (n : Node) : Node :=
  with_attrs n (map (fun x => if a_name x =? a then mkAttr (a_name x) (a_category x) v else x)
                    (n_attrs n)).

(** ** Exceptions and the store monad

    A raised exception keeps the store it was raised in: nothing is rolled
    back. *)

Inductive Exc :=
| ValueError (msg : string)
| TypeError
| AttributeError
| KeyError
| NotImplementedError
| RuntimeError (msg : string)
| DecodeError.

Inductive Res (A : Type) :=
| Ok (a : A) (s : Store)
| Raise (e : Exc) (s : Store).
Arguments Raise {A} e s.

Definition M (A : Type) : Type := Store -> Res A.

Definition ret {A} (a : A) : M A := fun s => Ok a s.
Definition raise {A} (e : Exc) : M A := fun s => Raise e s.
Definition bind {A B} (c : M A) (k : A -> M B) : M B :=
  fun s => match c s with
           | Ok a s' => k a s'
           | Raise e s' => Raise e s'
           end.
Definition get_store : M Store := fun s => Ok s s.
Definition put_store (s' : Store) : M unit := fun _ => Ok tt s'.

Notation "x <- c ;; k" := (bind c (fun x => k))
  (at level 61, c at next level, right associativity).
Notation "c ;;; k" := (bind c (fun _ => k))
  (at level 61, right associativity).

Definition of_option {A} (e : Exc) (o : option A) : M A :=
  match o with Some a => ret a | None => raise e end.

(** [for x in l: body x] *)
Fixpoint for_each {A} (l : list A) (body : A -> M unit) : M unit :=
  match l with
  | [] => ret tt
  | x :: l' => body x ;;; for_each l' body
  end.

(** [for i, x in enumerate(l): body i x] *)
Fixpoint for_each_from {A} (i : nat) (l : list A) (body : nat -> A -> M unit) : M unit :=
  match l with
  | [] => ret tt
  | x :: l' => body i x ;;; for_each_from (S i) l' body
  end.

Definition state_of {A} (r : Res A) : Store :=
  match r with Ok _ s => s | Raise _ s => s end.

(** ** Python values read from and written to fields *)

Inductive PyVal :=
| PNone
| PBool (b : bool)
| PStr (s : string)
| PList (l : list (option string)).

(** Python truthiness, as used by [if value:]. *)
Definition truthy (v : PyVal) : bool :=
  match v with
  | PNone => false
  | PBool b => b
  | PStr s => negb (s =? "")
  | PList l => match l with [] => false | _ => true end
  end.

Definition truthy_opt (o : option string) : bool :=
  match o with Some s => negb (s =? "") | None => false end.

Definition string_of_nat (n : nat) : string :=
  NilEmpty.string_of_uint (Nat.to_uint n).

(** ** The host commands ([maya.cmds])

    Nodes are addressed by name.  Connections and message references hold
    node identities, so they follow a node through a rename. *)

Module cmds.

Definition objExists (name : string) (s : Store) : bool :=
  match find_node name s with Some _ => true | None => false end.

Definition no_object {A} : M A := raise (RuntimeError "No object matches name").

Definition node (name : string) : M Node :=
  fun s => match find_node name s with
           | Some n => Ok n s
           | None => Raise (RuntimeError "No object matches name") s
           end.

Definition modify (name : string) (f : Node -> Node) : M unit :=
  n <- node name ;;
  fun s => Ok tt (update_node (n_id n) f s).

(** The host numbers a clashing name until it is free. *)
Fixpoint unique_name_from (fuel k : nat) (base : string) (s : Store) : string :=
  match fuel with
  | O => base ++ string_of_nat k
  | S fuel' =>
      if objExists (base ++ string_of_nat k) s
      then unique_name_from fuel' (S k) base s
      else base ++ string_of_nat k
  end.

Definition unique_name (base : string) (s : Store) : string :=
  if objExists base s then unique_name_from (length (nodes s)) 1 base s else base.

Definition default_attrs : list Attr :=
  [ mkAttr "visibility" None (ABool true);
    mkAttr "inheritsTransform" None (ABool true) ].

Definition default_xform : Transform :=
  mkTransform identity_mat (0, 0, 0)%R (1, 1, 1)%R (0, 0, 0)%R.

Definition new_node (node_type : string) (name : option string)
    (parent : option string) : M string :=
  p <- match parent with
       | None => ret None
       | Some pn => n <- node pn ;; ret (Some (n_id n))
       end ;;
  fun s =>
    let nm := match name with
              | Some x => unique_name x s
              | None => unique_name_from (length (nodes s)) 1 node_type s
              end in
    Ok nm (mkStore (nodes s ++ [mkNode (next_id s) nm node_type p default_attrs []
                                       default_xform []])
                   (S (next_id s))).

(** [cmds.createNode(node_type, name=name, parent=parent)] *)
Definition createNode (node_type : string) (name : option string)
    (parent : option string) : M string :=
  new_node node_type name parent.

(** [cmds.spaceLocator(name=name)[0]]; the locator and its shape are one
    node of the store. *)
Definition spaceLocator (name : string) : M string :=
  new_node "locator" (Some name) None.

(** [cmds.rename(node, new_name)]; a name held by another node is refused. *)
Definition rename (old new : string) : M string :=
  n <- node old ;;
  fun s =>
    if old =? new then Ok new s
    else if objExists new s
    then Raise (RuntimeError "name is not unique") s
    else Ok new (update_node (n_id n) (fun x => with_name x new) s).

(** [cmds.listRelatives(node, parent=True)] *)
Definition listRelatives_parent (name : string) : M (option string) :=
  n <- node name ;;
  fun s => Ok match n_parent n with
              | None => None
              | Some p => option_map n_name (node_by_id p s)
              end s.

(** [cmds.parent(child, parent)] *)
Definition parent (child : string) (par : option string) : M unit :=
  pn <- of_option TypeError par ;;
  p <- node pn ;;
  modify child (fun x => with_parent x (Some (n_id p))).

Inductive AttrType := TMessage | TMessageMulti | TString | TBool.

Definition default_val (t : AttrType) : AttrVal :=
  match t with
  | TMessage => AMessage None
  | TMessageMulti => AMessageList []
  | TString => AString None
  | TBool => ABool false
  end.

(** [cmds.addAttr(node, longName=.., attributeType=.., category=..)] *)
Definition addAttr (name longName : string) (t : AttrType)
    (category : option string) : M unit :=
  n <- node name ;;
  match find_attr longName n with
  | Some _ => raise (RuntimeError "attribute already exists")
  | None =>
      modify name (fun x => with_attrs x (n_attrs x ++ [mkAttr longName category (default_val t)]))
  end.

Definition attributeQuery_exists (name attr : string) : M bool :=
  n <- node name ;;
  ret (match find_attr attr n with Some _ => true | None => false end).

Definition names_of (ids : list NodeId) (s : Store) : list string :=
  flat_map (fun i => match node_by_id i s with Some n => [n_name n] | None => [] end) ids.

Definition py_of_attr (v : AttrVal) (s : Store) : PyVal :=
  match v with
  | ABool b => PBool b
  | AString None => PNone
  | AString (Some x) => PStr x
  | AMessage None => PNone
  | AMessage (Some i) =>
      match node_by_id i s with Some n => PStr (n_name n) | None => PNone end
  | AMessageList l => PList (map Some (names_of l s))
  end.

Definition attr (name a : string) : M Attr :=
  n <- node name ;;
  of_option (RuntimeError "No attribute matches name") (find_attr a n).

(** [cmds.getAttr(node + '.' + attr)] (and [listConnections] on a message
    attribute, which the field layer reads). *)
Definition getAttr (name a : string) : M PyVal :=
  x <- attr name a ;;
  fun s => Ok (py_of_attr (a_val x) s) s.

(** [cmds.setAttr(node + '.' + attr, value)] for booleans and strings. *)
Definition setAttr (name a : string) (v : PyVal) : M unit :=
  x <- attr name a ;;
  match a_val x, v with
  | ABool _, PBool b => modify name (set_attr_val a (ABool b))
  | AString _, PStr t => modify name (set_attr_val a (AString (Some t)))
  | _, _ => raise (RuntimeError "setAttr: wrong data type")
  end.

(** [cmds.connectAttr(src + '.' + src_attr, dst + '.' + dst_attr)] *)
Definition connectAttr (src src_attr dst dst_attr : string) : M unit :=
  sn <- node src ;;
  dn <- node dst ;;
  match find_attr dst_attr dn with
  | Some (mkAttr _ _ (AMessage _)) =>
      modify dst (set_attr_val dst_attr (AMessage (Some (n_id sn))))
  | Some (mkAttr _ _ (AMessageList l)) =>
      modify dst (set_attr_val dst_attr (AMessageList (l ++ [n_id sn])))
  | _ =>
      modify dst (fun x => with_inputs x (n_inputs x ++ [mkConn dst_attr (n_id sn) src_attr]))
  end.

(** [cmds.listConnections(node + '.' + attr, source=True) or []] *)
Definition listConnections_source (name a : string) : M (list string) :=
  n <- node name ;;
  fun s =>
    Ok (names_of (map c_src (filter (fun c => c_dst_attr c =? a) (n_inputs n))) s) s.

(** [cmds.listAttr(node, category=category)] *)
Definition listAttr_category (name category : string) : M (list string) :=
  n <- node name ;;
  ret (map a_name
           (filter (fun x => match a_category x with
                             | Some c => c =? category
                             | None => false
                             end) (n_attrs n))).

(** [cmds.renameAttr(node + '.' + attr, new_name)] *)
Definition renameAttr (name a new : string) : M unit :=
  n <- node name ;;
  match find_attr a n, find_attr new n with
  | None, _ => raise (RuntimeError "No attribute matches name")
  | Some _, Some _ => raise (RuntimeError "attribute name is not unique")
  | Some _, None =>
      modify name (fun x =>
        with_attrs x (map (fun y => if a_name y =? a
                                    then mkAttr new (a_category y) (a_val y) else y)
                          (n_attrs x)))
  end.

Definition mem_id (i : NodeId) (l : list NodeId) : bool := existsb (Nat.eqb i) l.

(** The nodes deleted with [ids]: the DAG descendants go with their parent. *)
Fixpoint doomed (fuel : nat) (ids : list NodeId) (ns : list Node) : list NodeId :=
  match fuel with
  | O => ids
  | S fuel' =>
      doomed fuel'
        (ids ++ map n_id
           (filter (fun n => match n_parent n with
                             | Some p => mem_id p ids && negb (mem_id (n_id n) ids)
                             | None => false
                             end) ns)) ns
  end.

Definition purge_attr (dead : list NodeId) (x : Attr) : Attr :=
  match a_val x with
  | AMessage (Some i) =>
      if mem_id i dead then mkAttr (a_name x) (a_category x) (AMessage None) else x
  | AMessageList l =>
      mkAttr (a_name x) (a_category x) (AMessageList (filter (fun i => negb (mem_id i dead)) l))
  | _ => x
  end.

Definition purge (dead : list NodeId) (n : Node) : Node :=
  with_inputs (with_attrs n (map (purge_attr dead) (n_attrs n)))
              (filter (fun c => negb (mem_id (c_src c) dead)) (n_inputs n)).

(** [cmds.delete(names)] *)
Definition delete (names : list string) : M unit :=
  fun s =>
    if forallb (fun x => objExists x s) names then
      let ids := flat_map (fun x => match find_node x s with
                                    | Some n => [n_id n] | None => [] end) names in
      let dead := doomed (length (nodes s)) ids (nodes s) in
      Ok tt (mkStore (map (purge dead)
                          (filter (fun n => negb (mem_id (n_id n) dead)) (nodes s)))
                     (next_id s))
    else Raise (RuntimeError "No object matches name") s.

End cmds.

(** ** String helpers of the Python runtime *)

Fixpoint split_aux (sep : string) (skip : nat) (cur : string) (s : string) : list string :=
  match s with
  | EmptyString => [cur]
  | String c s' =>
      match skip with
      | S k => split_aux sep k cur s'
      | O =>
          if String.prefix sep s
          then cur :: split_aux sep (String.length sep - 1) "" s'
          else split_aux sep 0 (cur ++ String c "") s'
      end
  end.

(** [s.split(sep)] for a non-empty separator. *)
Definition split (sep s : string) : list string := split_aux sep 0 "" s.

Definition lower_ascii (c : ascii) : ascii :=
  let n := nat_of_ascii c in
  if Nat.leb 65 n && Nat.leb n 90 then ascii_of_nat (n + 32) else c.

(** [s.lower()] *)
Fixpoint lower (s : string) : string :=
  match s with
  | EmptyString => EmptyString
  | String c s' => String (lower_ascii c) (lower s')
  end.

Definition opt_eqb (a b : option string) : bool :=
  match a, b with
  | Some x, Some y => x =? y
  | None, None => true
  | _, _ => false
  end.

Fixpoint map_m {A B} (f : A -> M B) (l : list A) : M (list B) :=
  match l with
  | [] => ret []
  | x :: l' => y <- f x ;; ys <- map_m f l' ;; ret (y :: ys)
  end.

(** ** Identity metadata (the dictionaries handled by [mop.metadata]) *)

Record Metadata := mkMetadata {
  md_base_name : option string;
  md_side : option string;
  md_role : string;
  md_description : option string;
  md_id : option nat
}.

(** [metadata['base_name'] = name; metadata['side'] = side] *)
Definition rebase (name side : option string) (md : Metadata) : Metadata :=
  mkMetadata name side (md_role md) (md_description md) (md_id md).

(** ** Fields

    Modelled from the spec: [mop.core.fields] and [mop.core.mopNode] are not
    part of the sources at hand.  A field is a typed accessor to an
    attribute of the backing node; object fields hold node references. *)

Inductive FieldKind :=
| StringField
| EnumField (choices : list string)
| ObjectField
| ObjectListField
| BoolField.

Record Field := mkField {
  f_name : string;
  f_kind : FieldKind;
  f_editable : bool
}.

Record Rig := mkRig {
  modules_group : option string;   (* rig.modules_group.get() *)
  skeleton_group : option string   (* rig.skeleton_group.get() *)
}.

(** The Python instance: [self.node_name], [self.rig], [self.__class__.__name__]. *)
Record Module := mkModule {
  node_name : string;
  rig : option Rig;
  class_name : string
}.

Definition with_node_name (self : Module) (x : string) : Module :=
  mkModule x (rig self) (class_name self).

(** A concrete module class: its fields and the methods subclasses override. *)
Record ModuleClass := mkClass {
  c_name : string;
  c_fields : list Field;
  c_initialize : Module -> M unit;
  c_build : Module -> M unit
}.

Module fields.

Definition attr_type (k : FieldKind) : cmds.AttrType :=
  match k with
  | StringField => cmds.TString
  | EnumField _ => cmds.TString
  | ObjectField => cmds.TMessage
  | ObjectListField => cmds.TMessageMulti
  | BoolField => cmds.TBool
  end.

(** [field.get()] *)
Definition get (self : Module) (f : Field) : M PyVal :=
  cmds.getAttr (node_name self) (f_name f).

Definition get_string (self : Module) (f : Field) : M (option string) :=
  v <- get self f ;;
  match v with
  | PNone => ret None
  | PStr x => ret (Some x)
  | _ => raise TypeError
  end.

Definition get_list (self : Module) (f : Field) : M (list string) :=
  v <- get self f ;;
  match v with
  | PList l => ret (flat_map (fun o => match o with Some x => [x] | None => [] end) l)
  | _ => raise TypeError
  end.

Definition ids_of (names : list (option string)) : M (list NodeId) :=
  map_m (fun o => x <- of_option TypeError o ;; n <- cmds.node x ;; ret (n_id n)) names.

(** [field.set(value)] *)
Definition set (self : Module) (f : Field) (v : PyVal) : M unit :=
  match f_kind f, v with
  | StringField, PStr _ => cmds.setAttr (node_name self) (f_name f) v
  | EnumField choices, PStr x =>
      if existsb (String.eqb x) choices
      then cmds.setAttr (node_name self) (f_name f) v
      else raise (ValueError "not a valid choice")
  | BoolField, PBool _ => cmds.setAttr (node_name self) (f_name f) v
  | ObjectField, PStr x =>
      cmds.attr (node_name self) (f_name f) ;;;
      n <- cmds.node x ;;
      cmds.modify (node_name self) (set_attr_val (f_name f) (AMessage (Some (n_id n))))
  | ObjectField, PNone =>
      cmds.attr (node_name self) (f_name f) ;;;
      cmds.modify (node_name self) (set_attr_val (f_name f) (AMessage None))
  | ObjectListField, PList l =>
      cmds.attr (node_name self) (f_name f) ;;;
      ids <- ids_of l ;;
      cmds.modify (node_name self) (set_attr_val (f_name f) (AMessageList ids))
  | _, _ => raise TypeError
  end.

(** [field.append(node)] of an object list field *)
Definition append (self : Module) (f : Field) (x : string) : M unit :=
  a <- cmds.attr (node_name self) (f_name f) ;;
  n <- cmds.node x ;;
  match a_val a with
  | AMessageList l =>
      cmds.modify (node_name self) (set_attr_val (f_name f) (AMessageList (l ++ [n_id n])))
  | _ => raise TypeError
  end.

Definition is_initialized : Field := mkField "is_initialized" BoolField false.
Definition is_built : Field := mkField "is_built" BoolField false.

(** A fresh enum attribute holds its first choice. *)
Definition new_attr (f : Field) : Attr :=
  mkAttr (f_name f) None
         match f_kind f with
         | EnumField choices => AString (hd_error choices)
         | k => cmds.default_val (attr_type k)
         end.

(** [MopNode.__init__(node_name)]: an existing node is taken as it is, a
    missing one is created with the attributes of the class fields. *)
Definition MopNode_init (C : ModuleClass) (name : string) : M unit :=
  s <- get_store ;;
  if cmds.objExists name s then ret tt
  else
    node <- cmds.createNode "transform" (Some name) None ;;
    cmds.modify node (fun x => with_attrs x (n_attrs x ++ map new_attr (c_fields C))).

End fields.

(** ** The collaborators of RigModule

    The naming codec [mop.metadata] ([None] is a decoding failure). *)
Class Codec := {
  name_from_metadata : Metadata -> string;
  metadata_from_name : string -> option Metadata
}.

(** What the host and the configuration supply:
    [mop.utils.dg.find_mirror_node];
    what the host derives when a transform is written (the matrix composed
    from rotation, joint orientation and scale, and the rotation and scale
    decomposed from a matrix);
    [mop.config.default_module_placement[class][key]] and
    [mop.config.side_color];
    the shape library (the shapes of a controller type, and the shape data
    read back from its JSON text). *)
Class Host := {
  find_mirror_node : option string -> option string;
  host_compose : V3 -> V3 -> V3 -> Mat4;
  host_euler : Mat4 -> V3;
  host_scale : Mat4 -> V3;
  default_module_placement : string -> string -> option (list Mat4);
  side_color : string -> option V3;
  controller_shapes : string -> list ShapeData;
  json_loads : string -> option (list ShapeData)
}.

(** [mop.modules.all_rig_modules] *)
Class Registry := {
  all_rig_modules : string -> option ModuleClass
}.

(** ** RigModule *)

Section RigModule.

Context {codec : Codec} {host : Host} {registry : Registry}.

(** *** Transform commands of the host *)

Definition tf_of_matrix (m : Mat4) (t : Transform) : Transform :=
  mkTransform m (host_euler m) (host_scale m) (t_jointOrient t).

Definition recompose (t : Transform) (r jo sc : V3) : Mat4 :=
  set_position (host_compose r jo sc) (position (t_matrix t)).

Definition tf_set_scale (sc : V3) (t : Transform) : Transform :=
  mkTransform (recompose t (t_rotate t) (t_jointOrient t) sc)
              (t_rotate t) sc (t_jointOrient t).

Definition tf_set_rotate (r : V3) (t : Transform) : Transform :=
  mkTransform (recompose t r (t_jointOrient t) (t_scale t))
              r (t_scale t) (t_jointOrient t).

Definition tf_set_jointOrient (jo : V3) (t : Transform) : Transform :=
  mkTransform (recompose t (t_rotate t) jo (t_scale t))
              (t_rotate t) (t_scale t) jo.

Definition tf_set_translate (p : V3) (t : Transform) : Transform :=
  mkTransform (set_position (t_matrix t) p) (t_rotate t) (t_scale t) (t_jointOrient t).

Inductive Channel := translate | rotate | scale | jointOrient.

(** [cmds.setAttr(node + '.' + transform + axis, value)] *)
Definition setAttr_channel (name : string) (c : Channel) (a : Axis) (v : R) : M unit :=
  cmds.modify name (fun x =>
    let t := n_xform x in
    with_xform x
      match c with
      | translate => tf_set_translate (v3_set (position (t_matrix t)) a v) t
      | rotate => tf_set_rotate (v3_set (t_rotate t) a v) t
      | scale => tf_set_scale (v3_set (t_scale t) a v) t
      | jointOrient => tf_set_jointOrient (v3_set (t_jointOrient t) a v) t
      end).

(** [cmds.setAttr(node + '.scale', x, y, z)] *)
Definition setAttr_scale (name : string) (sc : V3) : M unit :=
  cmds.modify name (fun x => with_xform x (tf_set_scale sc (n_xform x))).

(** [cmds.xform(node, matrix=m, worldSpace=True)] *)
Definition xform_matrix_ws (name : string) (m : Mat4) : M unit :=
  cmds.modify name (fun x => with_xform x (tf_of_matrix m (n_xform x))).

(** [cmds.xform(node, rotation=r, ws=True)] *)
Definition xform_rotation_ws (name : string) (r : V3) : M unit :=
  cmds.modify name (fun x => with_xform x (tf_set_rotate r (n_xform x))).

(** [cmds.xform(node, q=True, rotation=True, ws=True)] *)
Definition xform_query_rotation_ws (name : string) : M V3 :=
  n <- cmds.node name ;; ret (t_rotate (n_xform n)).

(** [om2.MMatrix(cmds.getAttr(node + '.worldMatrix'))] *)
Definition getAttr_worldMatrix (name : string) : M Mat4 :=
  n <- cmds.node name ;; ret (t_matrix (n_xform n)).

(** *** Helpers of [mop.dag], [mop.attributes] and [shapeshifter]

    Modelled from the spec: these modules are not part of the sources at
    hand. *)

(** [mop.dag.matrix_constraint(parent, child)]: the constraint is a pair of
    utility nodes driving the transform channels of the child. *)
Definition matrix_constraint (par child : string) : M unit :=
  mult <- cmds.createNode "multMatrix" None None ;;
  decomp <- cmds.createNode "decomposeMatrix" None None ;;
  cmds.connectAttr par "worldMatrix" mult "matrixIn" ;;;
  cmds.connectAttr mult "matrixSum" decomp "inputMatrix" ;;;
  cmds.connectAttr decomp "outputTranslate" child "translate" ;;;
  cmds.connectAttr decomp "outputRotate" child "rotate" ;;;
  cmds.connectAttr decomp "outputScale" child "scale".

(** [mop.dag.snap_first_to_last(first, last)] *)
Definition snap_first_to_last (first last : string) : M unit :=
  m <- getAttr_worldMatrix last ;;
  xform_matrix_ws first m.

(** [mop.dag.add_parent_group(node, suffix)] *)
Definition add_parent_group (name suffix : string) : M string :=
  par <- cmds.listRelatives_parent name ;;
  grp <- cmds.createNode "transform" (Some (name ++ "_" ++ suffix)) par ;;
  snap_first_to_last grp name ;;;
  cmds.parent name (Some grp) ;;;
  ret grp.

Definition persistent_attribute_backup : string := "persistent_attribute_backup".

(** [mop.attributes.create_persistent_attribute(node, backup_node,
    longName=.., dataType='string')]: the attribute is created on [node]
    and backed up on [backup_node] under the name [node__longName]; an
    existing backup gives its value back. *)
Definition create_persistent_attribute (name backup_node longName : string) : M unit :=
  cmds.addAttr name longName cmds.TString None ;;;
  let backup := name ++ "__" ++ longName in
  known <- cmds.attributeQuery_exists backup_node backup ;;
  (if known : bool
   then v <- cmds.getAttr backup_node backup ;;
        if truthy v then cmds.setAttr name longName v else ret tt
   else cmds.addAttr backup_node backup cmds.TString (Some persistent_attribute_backup)) ;;;
  cmds.connectAttr name longName backup_node backup.

(** [shapeshifter.create_controller_from_name(shape_type)] *)
Definition create_controller_from_name (shape_type : string) : M string :=
  ctl <- cmds.createNode "transform" (Some shape_type) None ;;
  cmds.modify ctl (fun x => with_shapes x (controller_shapes shape_type)) ;;;
  ret ctl.

(** [shapeshifter.get_shape_data(ctl)] *)
Definition get_shape_data (ctl : string) : M (list ShapeData) :=
  n <- cmds.node ctl ;; ret (n_shapes n).

(** [shapeshifter.change_controller_shape(ctl, data)] *)
Definition change_controller_shape (ctl : string) (data : list ShapeData) : M unit :=
  cmds.modify ctl (fun x => with_shapes x data).

(** *** The fields of [RigModule] *)

Definition name : Field := mkField "name" StringField true.
Definition side : Field := mkField "side" (EnumField ["M"; "L"; "R"]) true.
Definition mirror_type : Field :=
  mkField "mirror_type" (EnumField ["Behavior"; "Orientation"]) true.
Definition _module_mirror : Field := mkField "_module_mirror" ObjectField false.
Definition owned_nodes : Field := mkField "owned_nodes" ObjectListField false.
Definition parent_joint : Field := mkField "parent_joint" ObjectField false.
Definition module_type : Field := mkField "module_type" StringField false.
Definition placement_group : Field := mkField "placement_group" ObjectField false.
Definition controls_group : Field := mkField "controls_group" ObjectField false.
Definition extras_group : Field := mkField "extras_group" ObjectField false.
Definition deform_joints : Field := mkField "deform_joints" ObjectListField false.
Definition placement_locators : Field := mkField "placement_locators" ObjectListField false.
Definition controllers : Field := mkField "controllers" ObjectListField false.

Definition RigModule_fields : list Field :=
  [ fields.is_initialized; fields.is_built;
    name; side; mirror_type; _module_mirror; owned_nodes; parent_joint;
    module_type; placement_group; controls_group; extras_group;
    deform_joints; placement_locators; controllers ].

(** *** Methods *)

(** [RigModule.update_parent_joint] *)
Definition update_parent_joint (self : Module) : M unit :=
  first_level_nodes <- cmds.listConnections_source (node_name self) "translate" ;;
  second_level_nodes <-
    map_m (fun node => cmds.listConnections_source node "inputMatrix") first_level_nodes ;;
  let old_constraint_nodes := (first_level_nodes ++ concat second_level_nodes)%list in
  (match old_constraint_nodes with
   | [] => ret tt
   | _ => cmds.delete old_constraint_nodes
   end) ;;;
  par <- fields.get_string self parent_joint ;;
  match par with
  | Some p => if truthy_opt par then matrix_constraint p (node_name self) else ret tt
  | None => ret tt
  end.

(** [RigModule._update_node_name] *)
Definition _update_node_name (self : Module) (node : string) : M string :=
  metadata <- of_option DecodeError (metadata_from_name node) ;;
  base_name <- fields.get_string self name ;;
  sd <- fields.get_string self side ;;
  let new_name := name_from_metadata (rebase base_name sd metadata) in
  cmds.rename node new_name ;;;
  ret new_name.

(** One round of the loop over the persistent attributes in [update]. *)
Definition rename_persistent_attr (self : Module) (attr : string) : M unit :=
  match split "__" attr with
  | [old_node; attr_name] =>
      metadata <- of_option DecodeError (metadata_from_name old_node) ;;
      base_name <- fields.get_string self name ;;
      sd <- fields.get_string self side ;;
      let new_node := name_from_metadata (rebase base_name sd metadata) in
      cmds.renameAttr (node_name self) attr (new_node ++ "__" ++ attr_name)
  | _ => raise (ValueError "wrong number of values to unpack")
  end.

(** [RigModule.update]; the result is [self] with its [node_name] as the
    method leaves it. *)
Definition update (self : Module) : M Module :=
  built <- fields.get self fields.is_built ;;
  if truthy built then ret self
  else
    update_parent_joint self ;;;
    scene_metadata <- of_option DecodeError (metadata_from_name (node_name self)) ;;
    nm <- fields.get_string self name ;;
    let name_changed := negb (opt_eqb nm (md_base_name scene_metadata)) in
    sd <- fields.get_string self side ;;
    let side_changed := negb (opt_eqb sd (md_side scene_metadata)) in
    if name_changed || side_changed then
      new_name <- _update_node_name self (node_name self) ;;
      let self := with_node_name self new_name in
      owned <- fields.get_list self owned_nodes ;;
      for_each owned (fun node => _update_node_name self node ;;; ret tt) ;;;
      persistent_attrs <-
        cmds.listAttr_category (node_name self) persistent_attribute_backup ;;
      for_each persistent_attrs (rename_persistent_attr self) ;;;
      ret self
    else ret self.

(** [RigModule.add_node]; [parent] is the keyword argument handed on to
    [cmds.createNode]. *)
Definition add_node (self : Module) (node_type : string) (role : option string)
    (object_id : option nat) (description : option string)
    (parent : option string) : M string :=
  let role := match role with
              | Some r => if truthy_opt role then r else node_type
              | None => node_type
              end in
  base_name <- fields.get_string self name ;;
  sd <- fields.get_string self side ;;
  let metadata := mkMetadata base_name sd role description object_id in
  let nm := name_from_metadata metadata in
  s <- get_store ;;
  if cmds.objExists nm s
  then raise (ValueError ("A node with the name `" ++ nm ++ "` already exists"))
  else
    node <- (if node_type =? "locator"
             then cmds.spaceLocator nm
             else cmds.createNode node_type (Some nm) parent) ;;
    cmds.addAttr node "module" cmds.TMessage None ;;;
    cmds.connectAttr (node_name self) "message" node "module" ;;;
    fields.append self owned_nodes node ;;;
    ret node.

(** [RigModule.initialize] *)
Definition initialize (self : Module) : M unit :=
  g <- add_node self "transform" (Some "grp") None (Some "placement")
                (Some (node_name self)) ;;
  fields.set self placement_group (PStr g) ;;;
  pg <- fields.get_string self placement_group ;;
  pg <- of_option TypeError pg ;;
  cmds.setAttr pg "inheritsTransform" (PBool false) ;;;
  g <- add_node self "transform" (Some "grp") None (Some "controls")
                (Some (node_name self)) ;;
  fields.set self controls_group (PStr g) ;;;
  g <- add_node self "transform" (Some "grp") None (Some "extras")
                (Some (node_name self)) ;;
  fields.set self extras_group (PStr g) ;;;
  eg <- fields.get_string self extras_group ;;
  eg <- of_option TypeError eg ;;
  cmds.setAttr eg "visibility" (PBool false).

(** One half of [place_placement_nodes]: the loop over one node list. *)
Definition place_nodes (self : Module) (f : Field) (key : string) : M unit :=
  let matrices := default_module_placement (class_name self) key in
  nodes <- fields.get_list self f ;;
  for_each_from 0 nodes (fun i joint =>
    match match matrices with Some l => nth_error l i | None => None end with
    | None => ret tt                      (* logged, not raised *)
    | Some matrix => xform_matrix_ws joint matrix
    end).

(** [RigModule.place_placement_nodes] *)
Definition place_placement_nodes (self : Module) : M unit :=
  place_nodes self deform_joints "deform_joints" ;;;
  place_nodes self placement_locators "placement_locators".

(** [RigModule.build] *)
Definition build (self : Module) : M unit := raise NotImplementedError.

(** [RigModule._build] *)
Definition _build (C : ModuleClass) (self : Module) : M unit :=
  c_build C self ;;;
  fields.set self fields.is_built (PBool true).

(** [RigModule.publish] *)
Definition publish (self : Module) : M unit :=
  eg <- fields.get_string self extras_group ;;
  eg <- of_option TypeError eg ;;
  cmds.setAttr eg "visibility" (PBool false).

Definition zero_channels (node : string) (channels : list Channel) : M unit :=
  for_each channels (fun transform =>
    let value := match transform with scale => 1%R | _ => 0%R end in
    for_each [aX; aY; aZ] (fun axis => setAttr_channel node transform axis value)).

Definition rig_of (self : Module) : M Rig := of_option AttributeError (rig self).

(** [RigModule._add_deform_joint] *)
Definition _add_deform_joint (self : Module) (parent : option string)
    (object_id : option nat) (description : option string) : M string :=
  object_id <- match object_id with
               | None => l <- fields.get_list self deform_joints ;; ret (Some (length l))
               | Some _ => ret object_id
               end ;;
  new_joint <- add_node self "joint" (Some "deform") object_id description None ;;
  parent <- (if truthy_opt parent then ret parent
             else fields.get_string self parent_joint) ;;
  parent <- (if truthy_opt parent then ret parent
             else r <- rig_of self ;; ret (skeleton_group r)) ;;
  cmds.parent new_joint parent ;;;
  zero_channels new_joint [translate; rotate; scale; jointOrient] ;;;
  fields.append self deform_joints new_joint ;;;
  ret new_joint.

(** [RigModule._add_placement_locator] *)
Definition _add_placement_locator (self : Module) (description : option string)
    (object_id : option nat) (parent : option string) : M string :=
  locator <- add_node self "locator" (Some "placement") object_id description None ;;
  parent <- (if truthy_opt parent then ret parent
             else fields.get_string self placement_group) ;;
  cmds.parent locator parent ;;;
  zero_channels locator [translate; rotate; scale] ;;;
  fields.append self placement_locators locator ;;;
  ret locator.

(** [RigModule.add_control] *)
Definition add_control (self : Module) (dag_node : string) (object_id : option nat)
    (description : option string) (shape_type : string) : M (string * string) :=
  metadata <- of_option DecodeError (metadata_from_name dag_node) ;;
  let metadata := match object_id with
                  | Some _ => mkMetadata (md_base_name metadata) (md_side metadata)
                                (md_role metadata) (md_description metadata) object_id
                  | None => metadata
                  end in
  let metadata := match description with
                  | Some _ => mkMetadata (md_base_name metadata) (md_side metadata)
                                (md_role metadata) description (md_id metadata)
                  | None => metadata
                  end in
  let metadata := mkMetadata (md_base_name metadata) (md_side metadata) "ctl"
                    (md_description metadata) (md_id metadata) in
  let ctl_name := name_from_metadata metadata in
  ctl <- create_controller_from_name shape_type ;;
  ctl <- cmds.rename ctl ctl_name ;;
  (* update the controller color based on its side *)
  current_data <- get_shape_data ctl ;;
  sd <- fields.get_string self side ;;
  color <- of_option KeyError match sd with Some x => side_color x | None => None end ;;
  let new_data := map (fun shape_data => mkShape true true (Some color) (geometry shape_data))
                      current_data in
  change_controller_shape ctl new_data ;;;
  (* get the existing shape data if it exists *)
  create_persistent_attribute ctl (node_name self) "shape_data" ;;;
  ctl_data <- cmds.getAttr ctl "shape_data" ;;
  (match ctl_data with
   | PStr text =>
       if truthy ctl_data
       then data <- of_option (ValueError "No JSON object could be decoded")
                              (json_loads text) ;;
            change_controller_shape ctl data
       else ret tt
   | _ => ret tt
   end) ;;;
  create_persistent_attribute ctl (node_name self) "attributes_state" ;;;
  create_persistent_attribute ctl (node_name self) "parent_space_data" ;;;
  psd <- cmds.getAttr ctl "parent_space_data" ;;
  (if truthy psd then ret tt
   else cmds.setAttr ctl "parent_space_data" (PStr "{}")) ;;;
  snap_first_to_last ctl dag_node ;;;
  parent_group <- add_parent_group ctl "buffer" ;;
  fields.append self controllers ctl ;;;
  ret (ctl, parent_group).

(** [RigModule.__init__] of class [C]: the constructed instance. *)
Definition init (C : ModuleClass) (nm : string) (sd : string)
    (pj : option string) (rg : option Rig) : M Module :=
  s <- get_store ;;
  let node_name :=
    if cmds.objExists nm s then nm
    else name_from_metadata (mkMetadata (Some nm) (Some sd) "mod" None None) in
  fields.MopNode_init C node_name ;;;
  let self := mkModule node_name rg (c_name C) in
  initialized <- fields.get self fields.is_initialized ;;
  if truthy initialized then ret self
  else
    fields.set self name (PStr nm) ;;;
    fields.set self side (PStr sd) ;;;
    fields.set self module_type (PStr (c_name C)) ;;;
    par <- cmds.listRelatives_parent node_name ;;
    r <- rig_of self ;;
    (if match par with
        | None => true
        | Some _ => negb (opt_eqb par (modules_group r))
        end
     then cmds.parent node_name (modules_group r)
     else ret tt) ;;;
    (match pj with
     | Some p =>
         if truthy_opt pj
         then fields.set self parent_joint (PStr p) ;;;
              matrix_constraint p node_name
         else ret tt
     | None => ret tt
     end) ;;;
    c_initialize C self ;;;
    place_placement_nodes self ;;;
    self <- update self ;;
    fields.set self fields.is_initialized (PBool true) ;;;
    ret self.

(** The class [RigModule] itself. *)
Definition RigModule : ModuleClass := mkClass "RigModule" RigModule_fields initialize build.

(** The property [RigModule.module_mirror]: the mirror module is
    instantiated afresh at every access. *)
Definition module_mirror (self : Module) : M (option (ModuleClass * Module)) :=
  mirror_node <- fields.get_string self _module_mirror ;;
  match mirror_node with
  | Some x =>
      if truthy_opt mirror_node then
        mt <- fields.get_string self module_type ;;
        C <- of_option KeyError match mt with Some t => all_rig_modules t | None => None end ;;
        m <- init C x "M" None (rig self) ;;
        ret (Some (C, m))
      else ret None
  | None => ret None
  end.

(** [self.module_mirror.<attribute>]: an absent mirror has no attributes. *)
Definition the_module_mirror (self : Module) : M (ModuleClass * Module) :=
  o <- module_mirror self ;; of_option AttributeError o.

(** The property [RigModule.is_mirrored] *)
Definition is_mirrored (self : Module) : M bool :=
  o <- module_mirror self ;; ret (match o with Some _ => true | None => false end).

(** The value a field takes from the mirror module in [update_mirror]. *)
Definition mirrored_value (self : Module) (field : Field) : M PyVal :=
  match f_kind field with
  | ObjectField =>
      mm <- the_module_mirror self ;;
      orig_value <- fields.get_string (snd mm) field ;;
      ret match find_mirror_node orig_value with
          | Some x => PStr x
          | None => PNone
          end
  | ObjectListField =>
      mm <- the_module_mirror self ;;
      orig_value <- fields.get_list (snd mm) field ;;
      ret (PList (map (fun v => find_mirror_node (Some v)) orig_value))
  | _ =>
      mm <- the_module_mirror self ;;
      fields.get (snd mm) field
  end.

(** One round of the loop over the fields in [update_mirror]. *)
Definition sync_field (self : Module) (field : Field) : M unit :=
  if existsb (String.eqb (f_name field)) ["name"; "side"] then ret tt
  else if f_editable field then
    value <- mirrored_value self field ;;
    if truthy value then fields.set self field value else ret tt
  else ret tt.

Definition world_reflexion_mat : Mat4 :=
  ((-1, -0, -0, 0),
   ( 0,  1,  0, 0),
   ( 0,  0,  1, 0),
   ( 0,  0,  0, 1))%R.

Definition local_reflexion_mat : Mat4 :=
  ((-1,  0,  0, 0),
   ( 0, -1,  0, 0),
   ( 0,  0, -1, 0),
   ( 0,  0,  0, 1))%R.

(** One round of the loop over the node pairs in [update_mirror]. *)
Definition mirror_node_pair (mt : option string) (orig_node new_node : string) : M unit :=
  mt <- of_option AttributeError mt ;;
  (if lower mt =? "behavior" then
     orig_node_mat <- getAttr_worldMatrix orig_node ;;
     let new_mat := mmul (mmul local_reflexion_mat orig_node_mat) world_reflexion_mat in
     xform_matrix_ws new_node new_mat ;;;
     setAttr_scale new_node (1, 1, 1)%R
   else ret tt) ;;;
  (if lower mt =? "orientation" then
     orig_node_mat <- getAttr_worldMatrix orig_node ;;
     let new_mat := mmul orig_node_mat world_reflexion_mat in
     xform_matrix_ws new_node new_mat ;;;
     setAttr_scale new_node (1, 1, 1)%R ;;;
     orig_orient <- xform_query_rotation_ws orig_node ;;
     xform_rotation_ws new_node orig_orient
   else ret tt).

(** The second phase of [update_mirror]: mirror the nodes. *)
Definition mirror_nodes (self : Module) : M unit :=
  mm <- the_module_mirror self ;;
  orig_joints <- fields.get_list (snd mm) deform_joints ;;
  mm <- the_module_mirror self ;;
  orig_locators <- fields.get_list (snd mm) placement_locators ;;
  let orig_nodes := (orig_joints ++ orig_locators)%list in
  new_joints <- fields.get_list self deform_joints ;;
  new_locators <- fields.get_list self placement_locators ;;
  let new_nodes := (new_joints ++ new_locators)%list in
  mt <- fields.get_string self mirror_type ;;
  for_each (combine orig_nodes new_nodes)
           (fun p => mirror_node_pair mt (fst p) (snd p)).

(** [RigModule.update_mirror] *)
Definition update_mirror (self : Module) : M Module :=
  mm <- the_module_mirror self ;;
  for_each (c_fields (fst mm)) (sync_field self) ;;;
  self <- update self ;;
  mirror_nodes self ;;;
  ret self.

(** The setter of the property [RigModule.module_mirror] *)
Definition set_module_mirror (self : Module) (value : PyVal) : M unit :=
  fields.set self _module_mirror value.

(** [cmds.listConnections(node + '.' + attr, source=True)[0]] on a message
    attribute: without a connection the host returns [None], which has no
    first element. *)
Definition first_source (node a : string) : M string :=
  sources <- cmds.getAttr node a ;;
  match sources with
  | PStr x => ret x
  | _ => raise TypeError
  end.

(** The property [RigModule.parent_module]: the module owning the parent
    joint, instantiated afresh at every access. *)
Definition parent_module (self : Module) : M (option (ModuleClass * Module)) :=
  pj <- fields.get_string self parent_joint ;;
  match pj with
  | Some j =>
      if truthy_opt pj then
        owner <- first_source j "module" ;;
        mt <- cmds.getAttr owner "module_type" ;;
        C <- of_option KeyError match mt with PStr t => all_rig_modules t | _ => None end ;;
        m <- init C owner "M" None (rig self) ;;
        ret (Some (C, m))
      else ret None
  | None => ret None
  end.

(** [RigModule.find_non_mirrored_parents]; [depth] is the room left on the
    call stack of the interpreter.  The list handed to the recursive call is
    the one the caller goes on with. *)
Fixpoint find_non_mirrored_parents (depth : nat) (self : Module)
    (non_mirrored_parents : option (list (ModuleClass * Module)))
    : M (list (ModuleClass * Module)) :=
  match depth with
  | O => raise (RuntimeError "maximum recursion depth exceeded")
  | S depth' =>
      let non_mirrored_parents :=
        match non_mirrored_parents with Some l => l | None => [] end in
      par <- parent_module self ;;
      par <- of_option AttributeError par ;;
      mirror <- module_mirror (snd par) ;;
      unmirrored_side <-
        match mirror with
        | Some _ => ret false
        | None => sd <- fields.get_string (snd par) side ;;
                  ret (negb (opt_eqb sd (Some "M")))
        end ;;
      if unmirrored_side : bool
      then find_non_mirrored_parents depth' (snd par)
             (Some (non_mirrored_parents ++ [par])%list)
      else ret non_mirrored_parents
  end.

End RigModule.

(** ** A concrete environment

    Modelled from the spec: the naming codec [mop.metadata] joins the
    components of the identity record with underscores, in the order base
    name, side, description, id, role; the components themselves hold no
    underscore. *)

Module std.

Definition component (o : option string) : list string :=
  match o with Some x => [x] | None => [] end.

Fixpoint join (sep : string) (l : list string) : string :=
  match l with
  | [] => ""
  | [x] => x
  | x :: l' => x ++ sep ++ join sep l'
  end.

Definition encode (md : Metadata) : string :=
  join "_" (component (md_base_name md) ++ component (md_side md)
            ++ component (md_description md)
            ++ component (option_map string_of_nat (md_id md))
            ++ [md_role md])%list.

Definition nat_of_string (x : string) : option nat :=
  if x =? "" then None else option_map Nat.of_uint (NilEmpty.uint_of_string x).

Definition decode (nm : string) : option Metadata :=
  match split "_" nm with
  | [b; s; r] => Some (mkMetadata (Some b) (Some s) r None None)
  | [b; s; x; r] =>
      match nat_of_string x with
      | Some i => Some (mkMetadata (Some b) (Some s) r None (Some i))
      | None => Some (mkMetadata (Some b) (Some s) r (Some x) None)
      end
  | [b; s; d; x; r] =>
      match nat_of_string x with
      | Some i => Some (mkMetadata (Some b) (Some s) r (Some d) (Some i))
      | None => None
      end
  | _ => None
  end.

#[export] Instance codec : Codec := {|
  name_from_metadata := encode;
  metadata_from_name := decode
|}.

#[export] Instance host : Host := {|
  find_mirror_node := fun o => o;
  host_compose := fun _ _ _ => identity_mat;
  host_euler := fun _ => (0, 0, 0)%R;
  host_scale := fun _ => (1, 1, 1)%R;
  default_module_placement := fun _ _ => None;
  side_color := fun _ => Some (0, 0, 1)%R;
  controller_shapes := fun shape_type => [mkShape false false None shape_type];
  json_loads := fun _ => None
|}.

#[export] Instance registry : Registry := {|
  all_rig_modules := fun t => if t =? "RigModule" then Some RigModule else None
|}.

(** A scene holding the two groups of the rig aggregate. *)
Definition group (i : NodeId) (nm : string) : Node :=
  mkNode i nm "transform" None cmds.default_attrs [] cmds.default_xform [].

Definition rig_scene : Store := mkStore [group 0 "modules"; group 1 "skeleton"] 2.
Definition the_rig : Rig := mkRig (Some "modules") (Some "skeleton").

End std.

Unset Implicit Arguments.

(** * Specification

    The predicates and functions the statements are written with. *)

Section Specification.

Context {codec : Codec} {host : Host} {registry : Registry}.

(** ** Frame lemmas of the store *)
Definition touch (i : NodeId) (f : Node -> Node) (n : Node) : Node :=
  if Nat.eqb (n_id n) i then f n else n.

(** A node transformer that leaves the identity and the name alone. *)
Definition keeps_name (f : Node -> Node) : Prop :=
  forall n, n_id (f n) = n_id n /\ n_name (f n) = n_name n.

(** Commands that only read the store. *)
Definition reads {A} (c : M A) : Prop := forall s, state_of (c s) = s.

(** The reflexions named by the mirroring rules. *)
Definition WorldReflect : Mat4 := diag (-1) 1 1 1.

Definition LocalReflect : Mat4 := diag (-1) (-1) (-1) 1.

(** What a round of the mirroring loop does to the transform of the target,
    given the transform of the source. *)
Definition behavior_mirrored (src tgt : Transform) : Transform :=
  tf_set_scale (1, 1, 1)%R
    (tf_of_matrix (mmul (mmul LocalReflect (t_matrix src)) WorldReflect) tgt).

Definition orientation_mirrored (src tgt : Transform) : Transform :=
  tf_set_rotate (t_rotate src)
    (tf_set_scale (1, 1, 1)%R
       (tf_of_matrix (mmul (t_matrix src) WorldReflect) tgt)).

Definition set_xform_by (g : Transform -> Transform) (x : Node) : Node :=
  with_xform x (g (n_xform x)).

(** A store whose nodes have distinct identities. *)
Definition distinct_ids (s : Store) : Prop := NoDup (map n_id (nodes s)).

(** Identities are handed out in increasing order. *)
Definition ids_below (s : Store) : Prop :=
  forall n, In n (nodes s) -> n_id n < next_id s.

(** The list of node identities held by a multi message attribute. *)
Definition attr_ids (a : string) (n : Node) : option (list NodeId) :=
  match find_attr a n with
  | Some x => match a_val x with AMessageList l => Some l | _ => None end
  | None => None
  end.

(** The node [add_node] creates. *)
Definition added_node (s : Store) (nm node_type : string) (par : option NodeId)
    (backing : NodeId) : Node :=
  mkNode (next_id s) nm node_type par
         (cmds.default_attrs ++ [mkAttr "module" None (AMessage (Some backing))])
         [] cmds.default_xform [].

(** The store [add_node] leaves: the new node at the end, and its identity
    appended to [owned_nodes] of the backing node. *)
Definition store_with_added (s : Store) (new : Node) (backing : NodeId)
    (owned : list NodeId) : Store :=
  mkStore (map (touch backing
                  (set_attr_val "owned_nodes" (AMessageList (owned ++ [n_id new]))))
               (nodes s) ++ [new])
          (S (next_id s)).

Definition role_or_type (role : option string) (node_type : string) : string :=
  match role with
  | Some r => if truthy_opt role then r else node_type
  | None => node_type
  end.

(** The parent [add_node] hands to the host: locators are created at the
    root. *)
Definition creation_parent (node_type : string) (parent : option string) : option string :=
  if node_type =? "locator" then None else parent.

Definition parent_id (parent : option string) (s : Store) : option (option NodeId) :=
  match parent with
  | None => Some None
  | Some p => option_map (fun n => Some (n_id n)) (find_node p s)
  end.

(** The elementary commands on a store where their nodes are found. *)
Definition add_attr (a : Attr) (x : Node) : Node := with_attrs x (n_attrs x ++ [a]).

(** The name [add_node] gives to the node it creates. *)
Definition added_name (base sd : option string) (node_type : string)
    (role : option string) (object_id : option nat) (description : option string) : string :=
  name_from_metadata (mkMetadata base sd (role_or_type role node_type) description object_id).

(** A command that only rewrites the transform of the node [nm]. *)
Definition xform_only (nm : string) (c : M unit) : Prop :=
  exists G, forall s n,
    find_node nm s = Some n -> c s = Ok tt (update_node (n_id n) (set_xform_by G) s).

(** ** Renaming *)
Definition rename_node (i : NodeId) (new : string) (s : Store) : Store :=
  update_node i (fun x => with_name x new) s.

(** The value of a string attribute. *)
Definition attr_str (a : string) (n : Node) : option (option string) :=
  match find_attr a n with
  | Some x => match a_val x with AString v => Some v | _ => None end
  | None => None
  end.

Definition rename_attr_in (a new : string) (x : Node) : Node :=
  with_attrs x (map (fun y => if a_name y =? a
                              then mkAttr new (a_category y) (a_val y) else y)
                    (n_attrs x)).

(** The names of the persistent attribute backups of a node. *)
Definition persistent_attrs (n : Node) : list string :=
  map a_name (filter (fun x => match a_category x with
                               | Some c => c =? persistent_attribute_backup
                               | None => false
                               end) (n_attrs n)).

(** The name a node takes when the base name and the side change. *)
Definition renamed (nm sd : option string) (x : string) : string :=
  match metadata_from_name x with
  | Some md => name_from_metadata (rebase nm sd md)
  | None => x
  end.

(** The name a persistent attribute backup takes. *)
Definition renamed_attr (nm sd : option string) (a : string) : string :=
  match split "__" a with
  | [old_node; attr_name] =>
      match metadata_from_name old_node with
      | Some md => name_from_metadata (rebase nm sd md) ++ "__" ++ attr_name
      | None => a
      end
  | _ => a
  end.

(** All the persistent attributes renamed, as a function on the backing node. *)
Definition rename_persistent (nm sd : option string) (attrs : list string) (n : Node) : Node :=
  fold_left (fun x a => rename_attr_in a (renamed_attr nm sd a) x) attrs n.

(** An attribute name that splits in two at the double underscore. *)
Definition splits (a : string) : Prop :=
  exists old_node attr_name md,
    split "__" a = [old_node; attr_name] /\ metadata_from_name old_node = Some md.

(** On one backing node: the placement nodes it lists are owned. *)
Definition node_owns (n : Node) : Prop :=
  forall f l,
    f = "deform_joints" \/ f = "placement_locators" ->
    attr_ids f n = Some l ->
    exists ow, attr_ids "owned_nodes" n = Some ow /\ incl l ow.

Definition placement_owned (s : Store) : Prop :=
  forall n, In n (nodes s) -> node_owns n.

(** A well-formed store on which the invariant holds. *)
Definition owning (s : Store) : Prop :=
  distinct_ids s /\ ids_below s /\ placement_owned s.

(** [triple P c Q]: from a store satisfying [P], [c] returns in a store
    satisfying [Q], or raises in a store on which the invariant holds. *)
Definition triple {A} (P : Store -> Prop) (c : M A) (Q : A -> Store -> Prop) : Prop :=
  forall s, P s -> match c s with
                   | Ok a s' => Q a s'
                   | Raise _ s' => owning s'
                   end.

Definition preserves {A} (c : M A) : Prop := triple owning c (fun _ => owning).

(** The attributes the invariant speaks of. *)
Definition protected : list string := ["owned_nodes"; "deform_joints"; "placement_locators"].

Fixpoint has_dunder (s : string) : bool :=
  match s with
  | EmptyString => false
  | String c r =>
      (Ascii.eqb c "_" && match r with
                          | String d _ => Ascii.eqb d "_"
                          | EmptyString => false
                          end)
      || has_dunder r
  end.

(** Transformers that leave the attributes alone. *)
Definition keeps_attrs (f : Node -> Node) : Prop :=
  forall n, n_id (f n) = n_id n /\ n_attrs (f n) = n_attrs n.

(** A class whose fresh backing node satisfies the invariant. *)
Definition class_ok (C : ModuleClass) : Prop :=
  forall i nm t p,
    node_owns (mkNode i nm t p (cmds.default_attrs ++ map fields.new_attr (c_fields C))
                      [] cmds.default_xform []).

(** The node [x] is owned by the module [self]. *)
Definition owns_node (self : Module) (x : string) (s : Store) : Prop :=
  owning s
  /\ exists nb nx ow,
       find_node (node_name self) s = Some nb /\ find_node x s = Some nx
       /\ attr_ids "owned_nodes" nb = Some ow /\ In (n_id nx) ow.

(** A registry that only knows the class [RigModule]. *)
Definition registry_of_RigModule : Prop :=
  forall t C, all_rig_modules t = Some C -> C = RigModule.

(** ** Mirroring, geometrically *)

(** The mirror image of a point through the YZ plane. *)
Definition reflect_x (p : V3) : V3 :=
  let '(x, y, z) := p in ((- x)%R, y, z).

(** The determinant of the rotation block of a matrix: positive for a right
    handed frame, negative for a left handed one. *)
Definition det3 (m : Mat4) : R :=
  let '((a, b, c, _), (d, e, f, _), (g, h, i, _), _) := m in
  (a * (e * i - f * h) - b * (d * i - f * g) + c * (d * h - e * g))%R.

(** The matrix each mirror type computes for a target from the world matrix
    of its source. *)
Definition behavior_mat (orig_node_mat : Mat4) : Mat4 :=
  mmul (mmul local_reflexion_mat orig_node_mat) world_reflexion_mat.

Definition orientation_mat (orig_node_mat : Mat4) : Mat4 :=
  mmul orig_node_mat world_reflexion_mat.

(** The transform a round of the mirroring loop leaves on the target. *)
Definition mirrored (mt : string) (src tgt : Transform) : Transform :=
  if lower mt =? "behavior" then behavior_mirrored src tgt
  else orientation_mirrored src tgt.

(** ** The walk of [find_non_mirrored_parents]

    The statements are written on a store in which the modules met are
    initialized, so that instantiating them reads the store only. *)

(** The parent module of [m] is [p]. *)
Definition parent_is (s : Store) (m : Module) (p : ModuleClass * Module) : Prop :=
  parent_module m s = Ok (Some p) s.

(** A module without a mirror module, on the left or on the right. *)
Definition unmirrored_side (s : Store) (p : ModuleClass * Module) : Prop :=
  module_mirror (snd p) s = Ok None s
  /\ exists sd, fields.get_string (snd p) side s = Ok sd s /\ sd <> Some "M".

(** A module that has a mirror module, or is in the middle. *)
Definition walk_stops (s : Store) (p : ModuleClass * Module) : Prop :=
  (exists mm, module_mirror (snd p) s = Ok (Some mm) s)
  \/ (module_mirror (snd p) s = Ok None s
      /\ fields.get_string (snd p) side s = Ok (Some "M") s).

(** [ps] are the successive parent modules of [m], each unmirrored and on a
    side; [finish] holds of the last of them (of [m] when there is none). *)
Fixpoint walk (s : Store) (m : Module) (ps : list (ModuleClass * Module))
    (finish : Module -> Prop) : Prop :=
  match ps with
  | [] => finish m
  | p :: ps' => parent_is s m p /\ unmirrored_side s p /\ walk s (snd p) ps' finish
  end.

(** The parent module of [m] ends the walk. *)
Definition reaches_stop (s : Store) (m : Module) : Prop :=
  exists q, parent_is s m q /\ walk_stops s q.

(** A module without a parent joint. *)
Definition is_root (s : Store) (m : Module) : Prop :=
  fields.get_string m parent_joint s = Ok None s.

(** ** Running the operations on a well-formed store *)

(** A store with distinct identities, all of them handed out by the store. *)
Definition wf (s : Store) : Prop := distinct_ids s /\ ids_below s.

(** [s'] has under every name outside [l] the node [s] has. *)
Definition agree_except (l : list string) (s s' : Store) : Prop :=
  forall y, ~ In y l -> find_node y s' = find_node y s.

(** The node a message attribute refers to, and the value of a boolean
    attribute. *)
Definition attr_msg (a : string) (n : Node) : option (option NodeId) :=
  match find_attr a n with
  | Some x => match a_val x with AMessage o => Some o | _ => None end
  | None => None
  end.

Definition attr_bool (a : string) (n : Node) : option bool :=
  match find_attr a n with
  | Some x => match a_val x with ABool v => Some v | _ => None end
  | None => None
  end.

(** The name of the group [d] of a module named [base] on the side [sd]. *)
Definition group_name (base sd : option string) (d : string) : string :=
  name_from_metadata (mkMetadata base sd "grp" (Some d) None).

(** The group [initialize] creates under the backing node [backing]. *)
Definition group_node (i : NodeId) (nm : string) (backing : NodeId)
    (visibility inheritsTransform : bool) : Node :=
  mkNode i nm "transform" (Some backing)
         [ mkAttr "visibility" None (ABool visibility);
           mkAttr "inheritsTransform" None (ABool inheritsTransform);
           mkAttr "module" None (AMessage (Some backing)) ]
         [] cmds.default_xform [].

(** The backing node once [initialize] has recorded its three groups, created
    with the identities [k], [k + 1] and [k + 2]. *)
Definition initialized_backing (owned : list NodeId) (k : NodeId) (b : Node) : Node :=
  set_attr_val "extras_group" (AMessage (Some (S (S k))))
    (set_attr_val "controls_group" (AMessage (Some (S k)))
       (set_attr_val "placement_group" (AMessage (Some k))
          (set_attr_val "owned_nodes" (AMessageList (owned ++ [k; S k; S (S k)])%list) b))).

(** The node under which [_add_deform_joint] parents the new joint: the
    argument [parent], else the parent joint of the module, else the
    skeleton group of the rig. *)
Definition joint_parent_is (self : Module) (parent : option string) (b : Node)
    (s : Store) (pn : string) : Prop :=
  (truthy_opt parent = true /\ parent = Some pn)
  \/ (truthy_opt parent = false
      /\ exists p, attr_msg "parent_joint" b = Some (Some (n_id p))
                   /\ find_node pn s = Some p /\ pn <> "")
  \/ (truthy_opt parent = false /\ attr_msg "parent_joint" b = Some None
      /\ exists r, rig self = Some r /\ skeleton_group r = Some pn).

(** The node under which [_add_placement_locator] parents the new locator:
    the argument [parent], else the placement group of the module. *)
Definition locator_parent_is (self : Module) (parent : option string) (b : Node)
    (s : Store) (pn : string) : Prop :=
  (truthy_opt parent = true /\ parent = Some pn)
  \/ (truthy_opt parent = false
      /\ exists p, attr_msg "placement_group" b = Some (Some (n_id p))
                   /\ find_node pn s = Some p /\ pn <> "").

(** The id [_add_deform_joint] encodes in the name of the joint. *)
Definition joint_id (object_id : option nat) (deform_joints : list string) : nat :=
  match object_id with Some i => i | None => length deform_joints end.

(** ** Default placement *)

(** The matrix the configuration holds for the node at position [i] of the
    list [key] of a module class, if any. *)
Definition placement_matrix (cls key : string) (i : nat) : option Mat4 :=
  match default_module_placement cls key with
  | Some l => nth_error l i
  | None => None
  end.

(** The node once the matrix, if any, is applied to it. *)
Definition placed (o : option Mat4) (n : Node) : Node :=
  match o with
  | Some m => set_xform_by (tf_of_matrix m) n
  | None => n
  end.

(** ** The first construction of a module *)

(** The backing node [MopNode.__init__] creates for a class with the fields
    of [RigModule]. *)
Definition fresh_backing (k : NodeId) (nm : string) : Node :=
  mkNode k nm "transform" None
         (cmds.default_attrs ++ map fields.new_attr RigModule_fields)
         [] cmds.default_xform [].

(** ** [update_mirror] as a whole *)





End Specification.

(** ** Concrete scenes *)

Module scenes.

Import std.

Definition arm : Module := mkModule "arm_L_mod" (Some the_rig) "RigModule".

Definition arm_scene : Store :=
  Eval vm_compute in state_of (init RigModule "arm" "L" None (Some the_rig) rig_scene).

Definition built_scene : Store :=
  Eval vm_compute in state_of (fields.set arm fields.is_built (PBool true) arm_scene).

(** A scene where the construction of the module "arm" was aborted: the
    name of its placement group was taken. *)
Definition clash_scene : Store :=
  mkStore [group 0 "modules"; group 1 "skeleton"; group 2 "arm_L_placement_grp"] 3.

Definition aborted_scene : Store :=
  Eval vm_compute in state_of (init RigModule "arm" "L" None (Some the_rig) clash_scene).

(** Two modules with a deform joint each; the right arm mirrors the left. *)
Definition armL : Module := mkModule "arm_L_mod" (Some the_rig) "RigModule".

Definition armR : Module := mkModule "arm_R_mod" (Some the_rig) "RigModule".

Definition mirror_script : M unit :=
  l <- init RigModule "arm" "L" None (Some the_rig) ;;
  j <- _add_deform_joint l None None None ;;
  setAttr_channel j translate aX 5 ;;;
  xform_rotation_ws j (0, 30, 0)%R ;;;
  r <- init RigModule "arm" "R" None (Some the_rig) ;;
  _add_deform_joint r None None None ;;;
  fields.set r _module_mirror (PStr (node_name l)).

Definition mirror_scene : Store := Eval vm_compute in state_of (mirror_script rig_scene).


(** The module "arm" with a joint, a locator and a controller. *)
Definition placed_script : M string :=
  l <- init RigModule "arm" "L" None (Some the_rig) ;;
  j <- _add_deform_joint l None None None ;;
  _add_placement_locator l (Some "pv") None None ;;;
  ret j.

Definition placed_scene : Store := Eval vm_compute in state_of (placed_script rig_scene).

Definition controlled_scene : Store :=
  Eval vm_compute in state_of (add_control arm "arm_L_0_deform" None None "circle" placed_scene).

(** The same, once the rigger has changed the name to "leg". *)
Definition renaming_scene : Store :=
  Eval vm_compute in state_of (fields.set arm name (PStr "leg") controlled_scene).

(** A class that overrides [build] with a rig of nothing. *)
Definition Leaf : ModuleClass :=
  mkClass "Leaf" RigModule_fields initialize (fun _ => ret tt).

(** The backing node of the module "arm", before [initialize]. *)
Definition bare_script : M unit :=
  fields.MopNode_init RigModule "arm_L_mod" ;;;
  fields.set arm name (PStr "arm") ;;;
  fields.set arm side (PStr "L").

Definition bare_scene : Store := Eval vm_compute in state_of (bare_script rig_scene).

(** The module "arm" re-attached without its rig. *)
Definition stray_arm : Module := mkModule "arm_L_mod" None "RigModule".

(** The two arms, each with a joint, before one is made the mirror of the
    other. *)
Definition pair_script : M unit :=
  l <- init RigModule "arm" "L" None (Some the_rig) ;;
  j <- _add_deform_joint l None None None ;;
  setAttr_channel j translate aX 5 ;;;
  xform_rotation_ws j (0, 30, 0)%R ;;;
  r <- init RigModule "arm" "R" None (Some the_rig) ;;
  _add_deform_joint r None None None ;;;
  ret tt.

Definition pair_scene : Store := Eval vm_compute in state_of (pair_script rig_scene).

(** The right arm has a second joint, without a counterpart on the left. *)
Definition uneven_scene : Store :=
  Eval vm_compute in state_of (_add_deform_joint armR None None None mirror_scene).

(** A spine in the middle, a left arm on a joint of the spine and a left hand
    on a joint of the arm. *)
Definition spine : Module := mkModule "spine_M_mod" (Some the_rig) "RigModule".

Definition hand : Module := mkModule "hand_L_mod" (Some the_rig) "RigModule".

Definition limb_script : M unit :=
  sp <- init RigModule "spine" "M" None (Some the_rig) ;;
  j0 <- _add_deform_joint sp None None None ;;
  a <- init RigModule "arm" "L" (Some j0) (Some the_rig) ;;
  j1 <- _add_deform_joint a None None None ;;
  init RigModule "hand" "L" (Some j1) (Some the_rig) ;;;
  ret tt.

Definition limb_scene : Store := Eval vm_compute in state_of (limb_script rig_scene).

(** The same without the spine: the arm has no parent joint. *)
Definition orphan_script : M unit :=
  a <- init RigModule "arm" "L" None (Some the_rig) ;;
  j1 <- _add_deform_joint a None None None ;;
  init RigModule "hand" "L" (Some j1) (Some the_rig) ;;;
  ret tt.

Definition orphan_scene : Store := Eval vm_compute in state_of (orphan_script rig_scene).

(** A configuration with a default matrix for the first deform joint of a
    module. *)
Definition raised_mat : Mat4 :=
  ((1, 0, 0, 0), (0, 1, 0, 0), (0, 0, 1, 0), (0, 2, 0, 1))%R.

Definition placing_host : Host := {|
  find_mirror_node := fun o => o;
  host_compose := fun _ _ _ => identity_mat;
  host_euler := fun _ => (0, 0, 0)%R;
  host_scale := fun _ => (1, 1, 1)%R;
  default_module_placement :=
    fun cls key => if (cls =? "RigModule") && (key =? "deform_joints")
                   then Some [raised_mat] else None;
  side_color := fun _ => Some (0, 0, 1)%R;
  controller_shapes := fun shape_type => [mkShape false false None shape_type];
  json_loads := fun _ => None
|}.


End scenes.

(** * Proofs *)

Lemma find_map_compat {A} (p : A -> bool) (g : A -> A) (l : list A) :
  (forall x, p (g x) = p x) -> find p (map g l) = option_map g (find p l).
Proof.
  intros Hp. induction l as [|x l IH]; simpl; auto.
  rewrite Hp. destruct (p x); auto.
Qed.

Lemma touch_keeps i f : keeps_name f -> keeps_name (touch i f).
Proof.
  intros Hf n. unfold touch. destruct (Nat.eqb (n_id n) i); auto.
Qed.

Lemma find_node_update_node nm i f s :
  keeps_name f ->
  find_node nm (update_node i f s) = option_map (touch i f) (find_node nm s).
Proof.
  intros Hf. unfold find_node, update_node; simpl.
  apply (find_map_compat (fun n => n_name n =? nm) (touch i f)).
  intros x. destruct (touch_keeps i f Hf x) as [_ ->]. reflexivity.
Qed.

Lemma node_by_id_update_node j i f s :
  keeps_name f ->
  node_by_id j (update_node i f s) = option_map (touch i f) (node_by_id j s).
Proof.
  intros Hf. unfold node_by_id, update_node; simpl.
  apply (find_map_compat (fun n => Nat.eqb (n_id n) j) (touch i f)).
  intros x. destruct (touch_keeps i f Hf x) as [-> _]. reflexivity.
Qed.

Lemma names_of_update_node l i f s :
  keeps_name f -> cmds.names_of l (update_node i f s) = cmds.names_of l s.
Proof.
  intros Hf. unfold cmds.names_of. induction l as [|j l IH]; simpl; auto.
  rewrite IH, node_by_id_update_node by assumption.
  destruct (node_by_id j s) as [n|]; simpl; auto.
  destruct (touch_keeps i f Hf n) as [_ ->]. reflexivity.
Qed.

Lemma py_of_attr_update_node v i f s :
  keeps_name f -> cmds.py_of_attr v (update_node i f s) = cmds.py_of_attr v s.
Proof.
  intros Hf. destruct v as [b|[x|]|[j|]|l]; simpl; auto.
  - rewrite node_by_id_update_node by assumption.
    destruct (node_by_id j s) as [n|]; simpl; auto.
    destruct (touch_keeps i f Hf n) as [_ ->]. reflexivity.
  - rewrite names_of_update_node by assumption. reflexivity.
Qed.

Lemma find_node_name nm s n : find_node nm s = Some n -> n_name n = nm.
Proof.
  unfold find_node. intros H. apply find_some in H. destruct H as [_ H].
  now apply String.eqb_eq.
Qed.

Lemma find_node_In nm s n : find_node nm s = Some n -> In n (nodes s).
Proof. unfold find_node. intros H. now apply find_some in H. Qed.

Lemma find_attr_name a n x : find_attr a n = Some x -> a_name x = a.
Proof.
  unfold find_attr. intros H. apply find_some in H. destruct H as [_ H].
  now apply String.eqb_eq.
Qed.

Lemma set_attr_val_keeps a v : keeps_name (set_attr_val a v).
Proof. intros n. split; reflexivity. Qed.

Lemma find_attr_set_attr_val_other a a' v n :
  a <> a' -> find_attr a (set_attr_val a' v n) = find_attr a n.
Proof.
  intros Hne. unfold find_attr, set_attr_val; simpl.
  induction (n_attrs n) as [|x l IH]; simpl; auto.
  destruct (a_name x =? a') eqn:E; simpl.
  - apply String.eqb_eq in E.
    destruct (a_name x =? a) eqn:E'.
    + apply String.eqb_eq in E'. congruence.
    + exact IH.
  - destruct (a_name x =? a); auto.
Qed.

Lemma find_attr_set_attr_val_same a v n x :
  find_attr a n = Some x ->
  find_attr a (set_attr_val a v n) = Some (mkAttr a (a_category x) v).
Proof.
  unfold find_attr, set_attr_val; simpl.
  induction (n_attrs n) as [|y l IH]; simpl; [discriminate|].
  destruct (a_name y =? a) eqn:E; simpl.
  - intros [= <-]. rewrite E. apply String.eqb_eq in E. now rewrite E.
  - rewrite E. exact IH.
Qed.

Lemma update_node_idem i f s :
  keeps_name f -> (forall n, f (f n) = f n) ->
  update_node i f (update_node i f s) = update_node i f s.
Proof.
  intros Hf Hidem. unfold update_node; simpl. f_equal.
  rewrite map_map. apply map_ext. intros n.
  destruct (Nat.eqb (n_id n) i) eqn:E.
  - destruct (Hf n) as [-> _]. rewrite E. apply Hidem.
  - rewrite E. reflexivity.
Qed.

Lemma set_attr_val_idem a v n : set_attr_val a v (set_attr_val a v n) = set_attr_val a v n.
Proof.
  unfold set_attr_val, with_attrs; simpl. f_equal.
  rewrite map_map. apply map_ext. intros x.
  destruct (a_name x =? a) eqn:E; simpl; rewrite E; reflexivity.
Qed.

(** The elementary commands, run on a store where the node is found. *)
Lemma node_ok nm s n : find_node nm s = Some n -> cmds.node nm s = Ok n s.
Proof. unfold cmds.node. now intros ->. Qed.

Lemma node_inv nm s n s' : cmds.node nm s = Ok n s' -> find_node nm s = Some n /\ s' = s.
Proof.
  unfold cmds.node. destruct (find_node nm s); intros H; inversion H; auto.
Qed.

Lemma modify_ok nm f s n :
  find_node nm s = Some n -> cmds.modify nm f s = Ok tt (update_node (n_id n) f s).
Proof. intros H. unfold cmds.modify, bind. now rewrite (node_ok nm s n H). Qed.

Lemma reads_ret {A} (a : A) : reads (ret a).
Proof. intros s; reflexivity. Qed.

Lemma reads_raise {A} e : reads (@raise A e).
Proof. intros s; reflexivity. Qed.

Lemma reads_bind {A B} (c : M A) (k : A -> M B) :
  reads c -> (forall a, reads (k a)) -> reads (bind c k).
Proof.
  intros Hc Hk s. unfold bind. specialize (Hc s).
  destruct (c s) as [a s'|e s']; simpl in *; subst; auto. apply Hk.
Qed.

Lemma reads_of_option {A} e (o : option A) : reads (of_option e o).
Proof. destruct o; [apply reads_ret | apply reads_raise]. Qed.

Lemma reads_node nm : reads (cmds.node nm).
Proof. intros s. unfold cmds.node. destruct (find_node nm s); reflexivity. Qed.

Lemma reads_attr nm a : reads (cmds.attr nm a).
Proof.
  apply reads_bind; [apply reads_node | intros; apply reads_of_option].
Qed.

Lemma reads_getAttr nm a : reads (cmds.getAttr nm a).
Proof.
  apply reads_bind; [apply reads_attr | intros x s; reflexivity].
Qed.

Lemma reads_get self f : reads (fields.get self f).
Proof. apply reads_getAttr. Qed.

Lemma reads_get_string self f : reads (fields.get_string self f).
Proof.
  apply reads_bind; [apply reads_get|].
  intros []; try apply reads_raise; apply reads_ret.
Qed.

Lemma reads_get_list self f : reads (fields.get_list self f).
Proof.
  apply reads_bind; [apply reads_get|].
  intros []; try apply reads_raise; apply reads_ret.
Qed.

Lemma reads_ok {A} (c : M A) s a s' : reads c -> c s = Ok a s' -> s' = s.
Proof. intros Hc H. specialize (Hc s). rewrite H in Hc. exact Hc. Qed.

Lemma reads_raised {A} (c : M A) s e s' : reads c -> c s = Raise e s' -> s' = s.
Proof. intros Hc H. specialize (Hc s). rewrite H in Hc. exact Hc. Qed.

(** Case analysis of a sequence. *)
Lemma bind_ok {A B} (c : M A) (k : A -> M B) s b s2 :
  bind c k s = Ok b s2 -> exists a s1, c s = Ok a s1 /\ k a s1 = Ok b s2.
Proof.
  unfold bind. destruct (c s) as [a s1|e s1]; [eauto | discriminate].
Qed.

Lemma bind_raised {A B} (c : M A) (k : A -> M B) s e s2 :
  bind c k s = Raise e s2 ->
  c s = Raise e s2 \/ exists a s1, c s = Ok a s1 /\ k a s1 = Raise e s2.
Proof.
  unfold bind. destruct (c s) as [a s1|e' s1]; [eauto | intros [= <- <-]; auto].
Qed.

Lemma bind_step {A B} (c : M A) (k : A -> M B) s a s1 :
  c s = Ok a s1 -> bind c k s = k a s1.
Proof. unfold bind. now intros ->. Qed.

Lemma of_option_ok {A} e (o : option A) s a s' :
  of_option e o s = Ok a s' -> o = Some a /\ s' = s.
Proof. destruct o; simpl; unfold ret, raise; intros H; inversion H; auto. Qed.

(** Reading an attribute is not disturbed by an update that keeps names and
    that attribute. *)
Lemma getAttr_update_node nm a i f s :
  keeps_name f -> (forall n, find_attr a (f n) = find_attr a n) ->
  cmds.getAttr nm a (update_node i f s)
  = match cmds.getAttr nm a s with
    | Ok v _ => Ok v (update_node i f s)
    | Raise e _ => Raise e (update_node i f s)
    end.
Proof.
  intros Hf Ha. unfold cmds.getAttr, cmds.attr, cmds.node, bind.
  rewrite find_node_update_node by assumption.
  destruct (find_node nm s) as [n|]; simpl; auto.
  assert (E : find_attr a (touch i f n) = find_attr a n).
  { unfold touch. destruct (Nat.eqb (n_id n) i); auto. }
  rewrite E. destruct (find_attr a n) as [x|]; simpl; auto.
  unfold ret. now rewrite py_of_attr_update_node.
Qed.

Section Publish.

(** What a successful [publish] did. *)
Lemma publish_ok_inv (self : Module) (s s1 : Store) :
  publish self s = Ok tt s1 ->
  exists g n x,
    fields.get_string self extras_group s = Ok (Some g) s
    /\ find_node g s = Some n
    /\ find_attr "visibility" n = Some x
    /\ s1 = update_node (n_id n) (set_attr_val "visibility" (ABool false)) s.
Proof.
  unfold publish. intros H.
  apply bind_ok in H. destruct H as (eg & s' & Hg & H).
  pose proof (reads_ok _ _ _ _ (reads_get_string self extras_group) Hg). subst s'.
  apply bind_ok in H. destruct H as (g & s' & Ho & H).
  apply of_option_ok in Ho. destruct Ho as [-> ->].
  unfold cmds.setAttr in H.
  apply bind_ok in H. destruct H as (x & s' & Hx & H).
  pose proof (reads_ok _ _ _ _ (reads_attr g "visibility") Hx). subst s'.
  unfold cmds.attr in Hx. apply bind_ok in Hx. destruct Hx as (n & s' & Hn & Hx).
  apply node_inv in Hn. destruct Hn as [Hn ->].
  apply of_option_ok in Hx. destruct Hx as [Hx _].
  exists g, n, x. repeat split; auto.
  destruct (a_val x); try discriminate.
  rewrite (modify_ok _ _ _ _ Hn) in H. now inversion H.
Qed.

Lemma publish_raised_inv (self : Module) (s s1 : Store) e :
  publish self s = Raise e s1 -> s1 = s.
Proof.
  unfold publish. intros H.
  apply bind_raised in H. destruct H as [H | (eg & s' & Hg & H)].
  { exact (reads_raised _ _ _ _ (reads_get_string self extras_group) H). }
  pose proof (reads_ok _ _ _ _ (reads_get_string self extras_group) Hg). subst s'.
  apply bind_raised in H. destruct H as [H | (g & s' & Ho & H)].
  { exact (reads_raised _ _ _ _ (reads_of_option _ _) H). }
  apply of_option_ok in Ho. destruct Ho as [-> ->].
  unfold cmds.setAttr in H.
  apply bind_raised in H. destruct H as [H | (x & s' & Hx & H)].
  { exact (reads_raised _ _ _ _ (reads_attr g "visibility") H). }
  pose proof (reads_ok _ _ _ _ (reads_attr g "visibility") Hx). subst s'.
  unfold cmds.attr in Hx. apply bind_ok in Hx. destruct Hx as (n & s' & Hn & Hx).
  apply node_inv in Hn. destruct Hn as [Hn ->].
  destruct (a_val x); try (inversion H; reflexivity).
  rewrite (modify_ok _ _ _ _ Hn) in H. discriminate.
Qed.

Lemma publish_again (self : Module) (s s1 : Store) :
  publish self s = Ok tt s1 -> publish self s1 = Ok tt s1.
Proof.
  intros H. destruct (publish_ok_inv _ _ _ H) as (g & n & x & Hg & Hn & Hx & ->).
  set (f := set_attr_val "visibility" (ABool false)).
  assert (Hf : keeps_name f) by apply set_attr_val_keeps.
  unfold publish.
  assert (Hg' : fields.get_string self extras_group (update_node (n_id n) f s)
                = Ok (Some g) (update_node (n_id n) f s)).
  { unfold fields.get_string, fields.get in *. unfold bind in *.
    rewrite getAttr_update_node; auto.
    - destruct (cmds.getAttr (node_name self) (f_name extras_group) s) as [v s'|e s'];
        [|discriminate].
      destruct v; inversion Hg; reflexivity.
    - intros m. apply find_attr_set_attr_val_other. discriminate. }
  rewrite (bind_step _ _ _ _ _ Hg'). simpl.
  unfold bind at 1. simpl. unfold cmds.setAttr, cmds.attr.
  assert (Hn' : find_node g (update_node (n_id n) f s) = Some (f n)).
  { rewrite find_node_update_node, Hn by assumption. simpl.
    unfold touch. now rewrite Nat.eqb_refl. }
  unfold bind. rewrite (node_ok _ _ _ Hn'). simpl.
  unfold f at 1. rewrite (find_attr_set_attr_val_same _ _ _ _ Hx). simpl.
  rewrite (modify_ok _ _ _ _ Hn').
  destruct (Hf n) as [-> _].
  rewrite update_node_idem; auto. apply set_attr_val_idem.
Qed.

End Publish.

Section Mirror.

Context {host : Host}.

Lemma world_reflexion_mat_diag : world_reflexion_mat = WorldReflect.
Proof.
  unfold world_reflexion_mat, WorldReflect, diag.
  replace (-0)%R with 0%R by lra. reflexivity.
Qed.

Lemma local_reflexion_mat_diag : local_reflexion_mat = LocalReflect.
Proof. reflexivity. Qed.

Lemma set_xform_by_keeps g : keeps_name (set_xform_by g).
Proof. intros n; split; reflexivity. Qed.

Lemma update_node_compose i f g s :
  keeps_name f ->
  update_node i g (update_node i f s) = update_node i (fun x => g (f x)) s.
Proof.
  intros Hf. unfold update_node; simpl. f_equal. rewrite map_map.
  apply map_ext. intros n. destruct (Nat.eqb (n_id n) i) eqn:E.
  - destruct (Hf n) as [-> _]. now rewrite E.
  - now rewrite E.
Qed.

Lemma find_node_touched nm i f s n :
  keeps_name f -> find_node nm s = Some n -> n_id n = i ->
  find_node nm (update_node i f s) = Some (f n).
Proof.
  intros Hf Hn Hi. rewrite find_node_update_node, Hn by assumption. simpl.
  unfold touch. now rewrite Hi, Nat.eqb_refl.
Qed.

Lemma find_node_untouched nm i f s n :
  keeps_name f -> find_node nm s = Some n -> n_id n <> i ->
  find_node nm (update_node i f s) = Some n.
Proof.
  intros Hf Hn Hi. rewrite find_node_update_node, Hn by assumption. simpl.
  unfold touch. apply Nat.eqb_neq in Hi. now rewrite Hi.
Qed.

Lemma getAttr_worldMatrix_ok nm s n :
  find_node nm s = Some n -> getAttr_worldMatrix nm s = Ok (t_matrix (n_xform n)) s.
Proof.
  intros H. unfold getAttr_worldMatrix. now rewrite (bind_step _ _ _ _ _ (node_ok _ _ _ H)).
Qed.

Lemma xform_query_rotation_ws_ok nm s n :
  find_node nm s = Some n -> xform_query_rotation_ws nm s = Ok (t_rotate (n_xform n)) s.
Proof.
  intros H. unfold xform_query_rotation_ws.
  now rewrite (bind_step _ _ _ _ _ (node_ok _ _ _ H)).
Qed.

Lemma update_node_ext i f g s :
  (forall n, f n = g n) -> update_node i f s = update_node i g s.
Proof.
  intros H. unfold update_node. f_equal. apply map_ext. intros n.
  destruct (Nat.eqb (n_id n) i); auto.
Qed.

Lemma set_xform_ok (nm : string) (g : Transform -> Transform) (s : Store) (n : Node) :
  find_node nm s = Some n ->
  cmds.modify nm (fun x => with_xform x (g (n_xform x))) s
  = Ok tt (update_node (n_id n) (set_xform_by g) s).
Proof. intros H. now rewrite (modify_ok _ _ _ _ H). Qed.

Lemma set_xform_twice i g1 g2 s :
  update_node i (set_xform_by g2) (update_node i (set_xform_by g1) s)
  = update_node i (set_xform_by (fun t => g2 (g1 t))) s.
Proof.
  rewrite update_node_compose by apply set_xform_by_keeps.
  apply update_node_ext. reflexivity.
Qed.

Lemma find_node_set_xform nm g s n :
  find_node nm s = Some n ->
  find_node nm (update_node (n_id n) (set_xform_by g) s) = Some (set_xform_by g n).
Proof.
  intros H. exact (find_node_touched _ _ _ _ _ (set_xform_by_keeps g) H eq_refl).
Qed.

Lemma mirror_pair_behavior (mt src tgt : string) (s : Store) (ns nt : Node) :
  lower mt = "behavior" ->
  find_node src s = Some ns -> find_node tgt s = Some nt ->
  mirror_node_pair (Some mt) src tgt s
  = Ok tt (update_node (n_id nt) (set_xform_by (behavior_mirrored (n_xform ns))) s).
Proof.
  intros Hmt Hs Ht. unfold mirror_node_pair. simpl of_option.
  rewrite (bind_step _ _ _ mt s (eq_refl : ret mt s = Ok mt s)).
  rewrite Hmt. simpl.
  assert (E : (orig_node_mat <- getAttr_worldMatrix src;;
               xform_matrix_ws tgt
                 (mmul (mmul local_reflexion_mat orig_node_mat) world_reflexion_mat);;;
               setAttr_scale tgt (1, 1, 1)%R) s
              = Ok tt (update_node (n_id nt)
                         (set_xform_by (behavior_mirrored (n_xform ns))) s)).
  { rewrite (bind_step _ _ _ _ _ (getAttr_worldMatrix_ok _ _ _ Hs)).
    unfold xform_matrix_ws, setAttr_scale.
    rewrite (bind_step _ _ _ _ _ (set_xform_ok _ _ _ _ Ht)).
    rewrite (set_xform_ok _ _ _ _ (find_node_set_xform _ _ _ _ Ht)). simpl n_id.
    rewrite set_xform_twice.
    now rewrite world_reflexion_mat_diag, local_reflexion_mat_diag. }
  now rewrite (bind_step _ _ _ _ _ E).
Qed.

Lemma mirror_pair_orientation (mt src tgt : string) (s : Store) (ns nt : Node) :
  lower mt = "orientation" ->
  find_node src s = Some ns -> find_node tgt s = Some nt ->
  n_id ns <> n_id nt ->
  mirror_node_pair (Some mt) src tgt s
  = Ok tt (update_node (n_id nt) (set_xform_by (orientation_mirrored (n_xform ns))) s).
Proof.
  intros Hmt Hs Ht Hne. unfold mirror_node_pair. simpl of_option.
  rewrite (bind_step _ _ _ mt s (eq_refl : ret mt s = Ok mt s)).
  rewrite Hmt. simpl.
  rewrite (bind_step _ _ _ tt s (eq_refl : ret tt s = Ok tt s)).
  rewrite (bind_step _ _ _ _ _ (getAttr_worldMatrix_ok _ _ _ Hs)).
  unfold xform_matrix_ws, setAttr_scale, xform_rotation_ws.
  rewrite (bind_step _ _ _ _ _ (set_xform_ok _ _ _ _ Ht)).
  rewrite (bind_step _ _ _ _ _ (set_xform_ok _ _ _ _ (find_node_set_xform _ _ _ _ Ht))).
  simpl n_id. rewrite set_xform_twice.
  assert (Hs' : find_node src
                  (update_node (n_id nt)
                     (set_xform_by (fun t => tf_set_scale (1, 1, 1)%R
                        (tf_of_matrix (mmul (t_matrix (n_xform ns)) world_reflexion_mat) t)))
                     s) = Some ns).
  { apply find_node_untouched; auto. apply set_xform_by_keeps. }
  rewrite (bind_step _ _ _ _ _ (xform_query_rotation_ws_ok _ _ _ Hs')).
  rewrite (set_xform_ok _ _ _ _ (find_node_set_xform _ _ _ _ Ht)). simpl n_id.
  rewrite set_xform_twice.
  now rewrite world_reflexion_mat_diag.
Qed.

End Mirror.

Lemma NoDup_map_inj {A B} (f : A -> B) (l : list A) x y :
  NoDup (map f l) -> In x l -> In y l -> f x = f y -> x = y.
Proof.
  induction l as [|a l IH]; simpl; [tauto|].
  intros Hnd Hx Hy E. inversion Hnd as [|? ? Hna Hnd']; subst.
  destruct Hx as [<-|Hx], Hy as [<-|Hy]; auto.
  - exfalso. apply Hna. rewrite E. now apply in_map.
  - exfalso. apply Hna. rewrite <- E. now apply in_map.
Qed.

Lemma distinct_ids_names s a b na nb :
  distinct_ids s -> find_node a s = Some na -> find_node b s = Some nb ->
  a <> b -> n_id na <> n_id nb.
Proof.
  intros Hd Ha Hb Hne E. apply Hne.
  rewrite <- (find_node_name _ _ _ Ha), <- (find_node_name _ _ _ Hb).
  f_equal. apply (NoDup_map_inj n_id (nodes s)); auto; eapply find_node_In; eauto.
Qed.

Lemma distinct_ids_update_node i f s :
  keeps_name f -> distinct_ids s -> distinct_ids (update_node i f s).
Proof.
  intros Hf. unfold distinct_ids, update_node; simpl. rewrite map_map.
  erewrite map_ext; [intros H; exact H|].
  intros n. simpl. destruct (Nat.eqb (n_id n) i); auto. now destruct (Hf n).
Qed.

Section Loop.

Variable step : string -> string -> M unit.

Variable G : Transform -> Transform -> Transform.

Hypothesis step_spec : forall src tgt s ns nt,
  find_node src s = Some ns -> find_node tgt s = Some nt -> n_id ns <> n_id nt ->
  step src tgt s = Ok tt (update_node (n_id nt) (set_xform_by (G (n_xform ns))) s).

Lemma mirror_loop (pairs : list (string * string)) : forall s,
  distinct_ids s ->
  NoDup (map snd pairs) ->
  (forall p q, In p pairs -> In q pairs -> fst p <> snd q) ->
  (forall p, In p pairs -> find_node (fst p) s <> None /\ find_node (snd p) s <> None) ->
  exists s',
    for_each pairs (fun p => step (fst p) (snd p)) s = Ok tt s'
    /\ (forall src tgt ns nt,
          In (src, tgt) pairs -> find_node src s = Some ns -> find_node tgt s = Some nt ->
          find_node tgt s' = Some (set_xform_by (G (n_xform ns)) nt))
    /\ (forall y n, ~ In y (map snd pairs) -> find_node y s = Some n ->
          find_node y s' = Some n).
Proof.
  induction pairs as [|[a b] rest IH]; intros s Hd Hnd Hdisj Hex.
  - exists s. simpl. repeat split; auto. intros ? ? ? ? [].
  - destruct (Hex (a, b) (or_introl eq_refl)) as [Ha Hb]. simpl in Ha, Hb.
    destruct (find_node a s) as [na|] eqn:Ea; [|congruence].
    destruct (find_node b s) as [nb|] eqn:Eb; [|congruence].
    assert (Hab : a <> b) by exact (Hdisj (a, b) (a, b) (or_introl eq_refl) (or_introl eq_refl)).
    pose proof (distinct_ids_names _ _ _ _ _ Hd Ea Eb Hab) as Hid.
    pose proof (step_spec a b s na nb Ea Eb Hid) as Hstep.
    set (s1 := update_node (n_id nb) (set_xform_by (G (n_xform na))) s) in *.
    assert (Hkeep : forall y n, y <> b -> find_node y s = Some n -> find_node y s1 = Some n).
    { intros y n Hy Hn. apply find_node_untouched; auto using set_xform_by_keeps.
      exact (distinct_ids_names _ _ _ _ _ Hd Hn Eb Hy). }
    inversion Hnd as [|? ? Hnb Hnd']; subst.
    assert (Hrest_b : forall p, In p rest -> fst p <> b /\ snd p <> b).
    { intros p Hp. split.
      - exact (Hdisj p (a, b) (or_intror Hp) (or_introl eq_refl)).
      - intros E. apply Hnb. rewrite <- E. now apply in_map. }
    destruct (IH s1) as (s' & Hrun & Hpost & Hframe).
    + apply distinct_ids_update_node; auto using set_xform_by_keeps.
    + assumption.
    + intros p q Hp Hq. apply Hdisj; now right.
    + intros p Hp. destruct (Hex p (or_intror Hp)) as [H1 H2].
      destruct (Hrest_b p Hp) as [N1 N2].
      destruct (find_node (fst p) s) eqn:E1; [|congruence].
      destruct (find_node (snd p) s) eqn:E2; [|congruence].
      rewrite (Hkeep _ _ N1 E1), (Hkeep _ _ N2 E2). split; congruence.
    + exists s'. split; [|split].
      * simpl. now rewrite (bind_step _ _ _ _ _ Hstep).
      * intros src tgt ns nt [E|Hin] Hs Ht.
        -- inversion E; subst. rewrite Ea in Hs. rewrite Eb in Ht.
           inversion Hs; inversion Ht; subst.
           apply Hframe; auto.
           exact (find_node_set_xform _ _ _ _ Eb).
        -- destruct (Hrest_b _ Hin) as [N1 N2]. simpl in N1, N2.
           apply (Hpost src tgt ns nt Hin); auto.
      * intros y n Hy Hn. simpl in Hy. apply Hframe; [tauto|].
        apply Hkeep; auto.
Qed.

End Loop.

Lemma find_node_of_In n s : In n (nodes s) -> find_node (n_name n) s <> None.
Proof.
  intros Hin Hnone. unfold find_node in Hnone.
  pose proof (find_none _ _ Hnone n Hin) as H. simpl in H.
  now rewrite String.eqb_refl in H.
Qed.

Lemma node_by_id_In i s n : node_by_id i s = Some n -> In n (nodes s).
Proof. unfold node_by_id. intros H. now apply find_some in H. Qed.

Lemma names_of_exist ids s x : In x (cmds.names_of ids s) -> find_node x s <> None.
Proof.
  unfold cmds.names_of. rewrite in_flat_map. intros (i & _ & Hx).
  destruct (node_by_id i s) as [n|] eqn:E; simpl in Hx; [|tauto].
  destruct Hx as [<-|[]]. apply find_node_of_In. eapply node_by_id_In; eauto.
Qed.

Lemma flat_map_some {A} (l : list A) :
  flat_map (fun o : option A => match o with Some x => [x] | None => [] end) (map Some l) = l.
Proof. induction l; simpl; congruence. Qed.

(** What [get_list] returns, in terms of the attribute it reads. *)
Lemma get_list_inv self f s l s' :
  fields.get_list self f s = Ok l s' ->
  exists b x ids,
    find_node (node_name self) s = Some b /\ find_attr (f_name f) b = Some x
    /\ a_val x = AMessageList ids /\ l = cmds.names_of ids s /\ s' = s.
Proof.
  unfold fields.get_list, fields.get, cmds.getAttr, cmds.attr. intros H.
  apply bind_ok in H. destruct H as (v & s1 & H & Hv).
  apply bind_ok in H. destruct H as (x & s2 & H & Hpy).
  apply bind_ok in H. destruct H as (b & s3 & Hb & Hx).
  apply node_inv in Hb. destruct Hb as [Hb ->].
  apply of_option_ok in Hx. destruct Hx as [Hx ->].
  inversion Hpy; subst. clear Hpy.
  exists b, x. destruct (a_val x) as [?|[?|]|[i|]|ids]; simpl in Hv;
    try discriminate.
  - destruct (node_by_id i s1); discriminate.
  - exists ids. inversion Hv. subst. rewrite flat_map_some. auto.
Qed.

Lemma get_list_exist self f s l s' x :
  fields.get_list self f s = Ok l s' -> In x l -> find_node x s <> None.
Proof.
  intros H Hin. destruct (get_list_inv _ _ _ _ _ H) as (b & a & ids & _ & _ & _ & -> & _).
  eapply names_of_exist; eauto.
Qed.

Lemma nth_error_combine {A B} (l1 : list A) (l2 : list B) i a b :
  nth_error l1 i = Some a -> nth_error l2 i = Some b -> In (a, b) (combine l1 l2).
Proof.
  revert l2 i. induction l1 as [|x l1 IH]; intros [|y l2] [|i]; simpl; try discriminate.
  - intros [= ->] [= ->]. now left.
  - intros H1 H2. right. eauto.
Qed.

Lemma position_set_position m p : position (set_position m p) = p.
Proof.
  destruct m as [[[r0 r1] r2] [[[x y] z] w]], p as [[a b] c]. reflexivity.
Qed.


Lemma find_app {A} (p : A -> bool) (l l' : list A) :
  find p (l ++ l') = match find p l with Some x => Some x | None => find p l' end.
Proof. induction l as [|x l IH]; simpl; auto. destruct (p x); auto. Qed.

Lemma find_node_app_old nm s new k n :
  find_node nm s = Some n ->
  find_node nm (mkStore (nodes s ++ [new]) k) = Some n.
Proof. unfold find_node; simpl. rewrite find_app. now intros ->. Qed.

Lemma find_node_app_new s new k :
  find_node (n_name new) s = None ->
  find_node (n_name new) (mkStore (nodes s ++ [new]) k) = Some new.
Proof.
  unfold find_node; simpl. rewrite find_app. intros ->. simpl.
  now rewrite String.eqb_refl.
Qed.

Lemma map_touch_fresh i f (l : list Node) :
  (forall n, In n l -> n_id n <> i) -> map (touch i f) l = l.
Proof.
  intros H. rewrite <- (map_id l) at 2. apply map_ext_in. intros n Hn.
  unfold touch. specialize (H n Hn). apply Nat.eqb_neq in H. now rewrite H.
Qed.

Lemma update_node_last i f l new k :
  (forall n, In n l -> n_id n <> i) -> n_id new = i ->
  update_node i f (mkStore (l ++ [new]) k) = mkStore (l ++ [f new]) k.
Proof.
  intros Hl Hn. unfold update_node; simpl. f_equal. rewrite map_app. simpl.
  fold (touch i f). rewrite (map_touch_fresh i f l Hl). unfold touch.
  now rewrite Hn, Nat.eqb_refl.
Qed.

Lemma update_node_front i f l new k :
  n_id new <> i ->
  update_node i f (mkStore (l ++ [new]) k) = mkStore (map (touch i f) l ++ [new]) k.
Proof.
  intros Hn. unfold update_node; simpl. f_equal. rewrite map_app. simpl.
  apply Nat.eqb_neq in Hn. now rewrite Hn.
Qed.

Lemma objExists_false nm s : cmds.objExists nm s = false -> find_node nm s = None.
Proof. unfold cmds.objExists. destruct (find_node nm s); [discriminate | auto]. Qed.

Lemma objExists_true nm s n : find_node nm s = Some n -> cmds.objExists nm s = true.
Proof. unfold cmds.objExists. now intros ->. Qed.

Lemma store_eta s : mkStore (nodes s) (next_id s) = s.
Proof. now destruct s. Qed.

Lemma addAttr_ok nm a t c s n :
  find_node nm s = Some n -> find_attr a n = None ->
  cmds.addAttr nm a t c s
  = Ok tt (update_node (n_id n) (add_attr (mkAttr a c (cmds.default_val t))) s).
Proof.
  intros Hn Ha. unfold cmds.addAttr.
  rewrite (bind_step _ _ _ _ _ (node_ok _ _ _ Hn)), Ha.
  now rewrite (modify_ok _ _ _ _ Hn).
Qed.

Lemma attr_ok nm a s n x :
  find_node nm s = Some n -> find_attr a n = Some x -> cmds.attr nm a s = Ok x s.
Proof.
  intros Hn Ha. unfold cmds.attr.
  now rewrite (bind_step _ _ _ _ _ (node_ok _ _ _ Hn)), Ha.
Qed.

Lemma connectAttr_message_ok src src_attr dst dst_attr s sn dn x o :
  find_node src s = Some sn -> find_node dst s = Some dn ->
  find_attr dst_attr dn = Some x -> a_val x = AMessage o ->
  cmds.connectAttr src src_attr dst dst_attr s
  = Ok tt (update_node (n_id dn) (set_attr_val dst_attr (AMessage (Some (n_id sn)))) s).
Proof.
  intros Hs Hd Hx Hv. unfold cmds.connectAttr.
  rewrite (bind_step _ _ _ _ _ (node_ok _ _ _ Hs)).
  rewrite (bind_step _ _ _ _ _ (node_ok _ _ _ Hd)), Hx.
  destruct x as [xn xc xv]. simpl in Hv. subst xv.
  now rewrite (modify_ok _ _ _ _ Hd).
Qed.

Lemma append_ok self f x s b n l :
  find_node (node_name self) s = Some b -> attr_ids (f_name f) b = Some l ->
  find_node x s = Some n ->
  fields.append self f x s
  = Ok tt (update_node (n_id b) (set_attr_val (f_name f) (AMessageList (l ++ [n_id n]))) s).
Proof.
  intros Hb Hl Hn. unfold fields.append. unfold attr_ids in Hl.
  destruct (find_attr (f_name f) b) as [a|] eqn:Ea; [|discriminate].
  rewrite (bind_step _ _ _ _ _ (attr_ok _ _ _ _ _ Hb Ea)).
  rewrite (bind_step _ _ _ _ _ (node_ok _ _ _ Hn)).
  destruct (a_val a); try discriminate. inversion Hl; subst.
  now rewrite (modify_ok _ _ _ _ Hb).
Qed.

Section AddNode.

Context {codec : Codec}.

Lemma new_node_ok node_type nm parent par s :
  cmds.objExists nm s = false ->
  parent_id parent s = Some par ->
  cmds.new_node node_type (Some nm) parent s
  = Ok nm (mkStore (nodes s ++ [mkNode (next_id s) nm node_type par cmds.default_attrs []
                                       cmds.default_xform []])
                   (S (next_id s))).
Proof.
  intros Hfree Hpar. unfold cmds.new_node.
  assert (E : match parent with
              | Some pn => n <- cmds.node pn;; ret (Some (n_id n))
              | None => ret None
              end s = Ok par s).
  { destruct parent as [p|]; simpl in Hpar.
    - destruct (find_node p s) as [n|] eqn:En; [|discriminate]. inversion Hpar.
      now rewrite (bind_step _ _ _ _ _ (node_ok _ _ _ En)).
    - now inversion Hpar. }
  rewrite (bind_step _ _ _ _ _ E). unfold cmds.unique_name. now rewrite Hfree.
Qed.

Lemma add_node_raises (self : Module) (node_type : string) (role : option string)
    (object_id : option nat) (description parent : option string)
    (s : Store) (base sd : option string) :
  fields.get_string self name s = Ok base s ->
  fields.get_string self side s = Ok sd s ->
  cmds.objExists (added_name base sd node_type role object_id description) s = true ->
  add_node self node_type role object_id description parent s
  = Raise (ValueError ("A node with the name `"
                       ++ added_name base sd node_type role object_id description
                       ++ "` already exists")) s.
Proof.
  intros Hn Hs Hex. unfold add_node.
  rewrite (bind_step _ _ _ _ _ Hn), (bind_step _ _ _ _ _ Hs).
  rewrite (bind_step _ _ _ s s (eq_refl : get_store s = Ok s s)).
  fold (role_or_type role node_type).
  unfold added_name in Hex. now rewrite Hex.
Qed.

Lemma add_node_creates (self : Module) (node_type : string) (role : option string)
    (object_id : option nat) (description parent : option string)
    (s : Store) (base sd : option string) (b : Node) (owned : list NodeId)
    (par : option NodeId) :
  let nm := added_name base sd node_type role object_id description in
  fields.get_string self name s = Ok base s ->
  fields.get_string self side s = Ok sd s ->
  cmds.objExists nm s = false ->
  find_node (node_name self) s = Some b ->
  attr_ids "owned_nodes" b = Some owned ->
  parent_id (creation_parent node_type parent) s = Some par ->
  ids_below s ->
  add_node self node_type role object_id description parent s
  = Ok nm (store_with_added s (added_node s nm node_type par (n_id b)) (n_id b) owned).
Proof.
  intros nm Hn Hs Hfree Hb How Hpar Hbelow. unfold add_node.
  rewrite (bind_step _ _ _ _ _ Hn), (bind_step _ _ _ _ _ Hs).
  rewrite (bind_step _ _ _ s s (eq_refl : get_store s = Ok s s)).
  fold (role_or_type role node_type).
  fold (added_name base sd node_type role object_id description). fold nm.
  rewrite Hfree.
  set (n0 := mkNode (next_id s) nm node_type par cmds.default_attrs [] cmds.default_xform []).
  assert (Hcreate : (if node_type =? "locator"
                     then cmds.spaceLocator nm
                     else cmds.createNode node_type (Some nm) parent) s
                    = Ok nm (mkStore (nodes s ++ [n0]) (S (next_id s)))).
  { unfold creation_parent in Hpar. unfold n0.
    destruct (node_type =? "locator") eqn:El.
    - apply String.eqb_eq in El. subst node_type.
      unfold cmds.spaceLocator. now apply new_node_ok.
    - unfold cmds.createNode. now apply new_node_ok. }
  rewrite (bind_step _ _ _ _ _ Hcreate).
  assert (Hold : forall n, In n (nodes s) -> n_id n <> next_id s).
  { intros n Hin. specialize (Hbelow n Hin). lia. }
  assert (Hnone : find_node nm s = None) by now apply objExists_false.
  (* the back reference attribute *)
  pose proof (find_node_app_new s n0 (S (next_id s)) Hnone) as H0.
  change (n_name n0) with nm in H0.
  rewrite (bind_step _ _ _ _ _ (addAttr_ok _ "module" cmds.TMessage None _ _ H0 eq_refl)).
  change (n_id n0) with (next_id s).
  rewrite (update_node_last (next_id s) _ (nodes s) n0 _ Hold eq_refl).
  set (n1 := add_attr _ n0).
  pose proof (find_node_app_new s n1 (S (next_id s)) Hnone) as H1.
  change (n_name n1) with nm in H1.
  pose proof (find_node_app_old _ _ n1 (S (next_id s)) _ Hb) as Hb1.
  rewrite (bind_step _ _ _ _ _
             (connectAttr_message_ok _ "message" _ "module" _ _ _ _ None Hb1 H1
                eq_refl eq_refl)).
  change (n_id n1) with (next_id s).
  rewrite (update_node_last (next_id s) _ (nodes s) n1 _ Hold eq_refl).
  set (n2 := set_attr_val "module" _ n1).
  pose proof (find_node_app_new s n2 (S (next_id s)) Hnone) as H2.
  change (n_name n2) with nm in H2.
  pose proof (find_node_app_old _ _ n2 (S (next_id s)) _ Hb) as Hb2.
  (* the list of owned nodes *)
  rewrite (bind_step _ _ _ _ _ (append_ok _ owned_nodes _ _ _ _ _ Hb2 How H2)).
  unfold ret. f_equal.
  assert (Hne : n_id n2 <> n_id b).
  { simpl. apply not_eq_sym. apply Hold. eapply find_node_In; eauto. }
  rewrite (update_node_front _ _ _ _ _ Hne). reflexivity.
Qed.

End AddNode.

Lemma update_node_same i s : update_node i (set_xform_by (fun t => t)) s = s.
Proof.
  unfold update_node. rewrite <- (store_eta s) at 3. f_equal.
  rewrite <- (map_id (nodes s)) at 2. apply map_ext. intros n.
  destruct (Nat.eqb (n_id n) i); auto. now destruct n.
Qed.

Lemma xform_only_for_each {A} nm (l : list A) (body : A -> M unit) :
  (forall x, xform_only nm (body x)) -> xform_only nm (for_each l body).
Proof.
  intros Hbody. induction l as [|x l [G HG]].
  - exists (fun t => t). intros s n _. simpl. unfold ret. now rewrite update_node_same.
  - destruct (Hbody x) as [F HF]. exists (fun t => G (F t)). intros s n Hn. simpl.
    rewrite (bind_step _ _ _ _ _ (HF s n Hn)).
    rewrite (HG _ _ (find_node_set_xform _ _ _ _ Hn)). simpl n_id.
    now rewrite set_xform_twice.
Qed.

Section Wrappers.

Context {codec : Codec} {host : Host}.

Lemma xform_only_setAttr_channel nm c a v : xform_only nm (setAttr_channel nm c a v).
Proof.
  exists (fun t => match c with
                   | translate => tf_set_translate (v3_set (position (t_matrix t)) a v) t
                   | rotate => tf_set_rotate (v3_set (t_rotate t) a v) t
                   | scale => tf_set_scale (v3_set (t_scale t) a v) t
                   | jointOrient => tf_set_jointOrient (v3_set (t_jointOrient t) a v) t
                   end).
  intros s n Hn. unfold setAttr_channel. now rewrite (modify_ok _ _ _ _ Hn).
Qed.

Lemma xform_only_zero_channels nm channels : xform_only nm (zero_channels nm channels).
Proof.
  unfold zero_channels. apply xform_only_for_each. intros c.
  apply xform_only_for_each. intros a. apply xform_only_setAttr_channel.
Qed.

Lemma parent_ok child pn s c p :
  find_node child s = Some c -> find_node pn s = Some p ->
  cmds.parent child (Some pn) s
  = Ok tt (update_node (n_id c) (fun x => with_parent x (Some (n_id p))) s).
Proof.
  intros Hc Hp. unfold cmds.parent. simpl of_option.
  rewrite (bind_step _ _ _ pn s (eq_refl : ret pn s = Ok pn s)).
  rewrite (bind_step _ _ _ _ _ (node_ok _ _ _ Hp)).
  now rewrite (modify_ok _ _ _ _ Hc).
Qed.

Lemma new_node_returns node_type nm parent s r s' :
  cmds.objExists nm s = false ->
  cmds.new_node node_type (Some nm) parent s = Ok r s' -> r = nm.
Proof.
  intros Hfree H. unfold cmds.new_node in H.
  apply bind_ok in H. destruct H as (p & s1 & Hp & H).
  assert (s1 = s).
  { destruct parent as [pn|].
    - apply bind_ok in Hp. destruct Hp as (n & s2 & Hn & Hp).
      apply node_inv in Hn. destruct Hn as [_ ->]. now inversion Hp.
    - now inversion Hp. }
  subst s1. unfold cmds.unique_name in H. rewrite Hfree in H. now inversion H.
Qed.

Lemma add_node_returns (self : Module) (node_type : string) (role : option string)
    (object_id : option nat) (description parent : option string)
    (s s' : Store) (base sd : option string) (r : string) :
  fields.get_string self name s = Ok base s ->
  fields.get_string self side s = Ok sd s ->
  add_node self node_type role object_id description parent s = Ok r s' ->
  r = added_name base sd node_type role object_id description.
Proof.
  intros Hn Hs. unfold add_node.
  rewrite (bind_step _ _ _ _ _ Hn), (bind_step _ _ _ _ _ Hs).
  rewrite (bind_step _ _ _ s s (eq_refl : get_store s = Ok s s)).
  fold (role_or_type role node_type).
  fold (added_name base sd node_type role object_id description).
  destruct (cmds.objExists _ s) eqn:E; [discriminate|].
  intros H. apply bind_ok in H. destruct H as (nd & s1 & Hc & H).
  assert (nd = added_name base sd node_type role object_id description).
  { revert Hc. destruct (node_type =? "locator");
      unfold cmds.spaceLocator, cmds.createNode; intros Hc;
      eapply new_node_returns; eauto. }
  subst nd.
  apply bind_ok in H. destruct H as ([] & s2 & _ & H).
  apply bind_ok in H. destruct H as ([] & s3 & _ & H).
  apply bind_ok in H. destruct H as ([] & s4 & _ & H).
  now inversion H.
Qed.

Lemma deform_joint_returns (self : Module) (parent description : option string)
    (s s' : Store) (l : list string) (base sd : option string) (r : string) :
  fields.get_list self deform_joints s = Ok l s ->
  fields.get_string self name s = Ok base s ->
  fields.get_string self side s = Ok sd s ->
  _add_deform_joint self parent None description s = Ok r s' ->
  r = added_name base sd "joint" (Some "deform") (Some (length l)) description.
Proof.
  intros Hl Hn Hs. unfold _add_deform_joint.
  assert (E : (l0 <- fields.get_list self deform_joints;; ret (Some (length l0))) s
              = Ok (Some (length l)) s) by now rewrite (bind_step _ _ _ _ _ Hl).
  rewrite (bind_step _ _ _ _ _ E). intros H.
  apply bind_ok in H. destruct H as (nj & s1 & Ha & H).
  apply (add_node_returns _ _ _ _ _ _ _ _ _ _ _ Hn Hs) in Ha. subst nj.
  apply bind_ok in H. destruct H as (p1 & s2 & _ & H).
  apply bind_ok in H. destruct H as (p2 & s3 & _ & H).
  apply bind_ok in H. destruct H as ([] & s4 & _ & H).
  apply bind_ok in H. destruct H as ([] & s5 & _ & H).
  apply bind_ok in H. destruct H as ([] & s6 & _ & H).
  now inversion H.
Qed.

Lemma placement_locator_returns (self : Module) (description : option string)
    (object_id : option nat) (parent : option string)
    (s s' : Store) (base sd : option string) (r : string) :
  fields.get_string self name s = Ok base s ->
  fields.get_string self side s = Ok sd s ->
  _add_placement_locator self description object_id parent s = Ok r s' ->
  r = added_name base sd "locator" (Some "placement") object_id description.
Proof.
  intros Hn Hs. unfold _add_placement_locator. intros H.
  apply bind_ok in H. destruct H as (nj & s1 & Ha & H).
  apply (add_node_returns _ _ _ _ _ _ _ _ _ _ _ Hn Hs) in Ha. subst nj.
  apply bind_ok in H. destruct H as (p1 & s2 & _ & H).
  apply bind_ok in H. destruct H as ([] & s4 & _ & H).
  apply bind_ok in H. destruct H as ([] & s5 & _ & H).
  apply bind_ok in H. destruct H as ([] & s6 & _ & H).
  now inversion H.
Qed.

Lemma attr_ids_set_other a a' v n :
  a <> a' -> attr_ids a (set_attr_val a' v n) = attr_ids a n.
Proof. intros H. unfold attr_ids. now rewrite find_attr_set_attr_val_other. Qed.

Lemma attr_ids_set_same a l n l0 :
  attr_ids a n = Some l0 -> attr_ids a (set_attr_val a (AMessageList l) n) = Some l.
Proof.
  unfold attr_ids. destruct (find_attr a n) as [x|] eqn:E; [|discriminate].
  intros _. now rewrite (find_attr_set_attr_val_same _ _ _ _ E).
Qed.

(** The tail of both wrappers: parent the new node, zero its channels and
    record it in the list field [f]. *)
Lemma wrapper_tail (self : Module) (f : Field) (channels : list Channel)
    (nm pn : string) (s : Store) (b new p : Node) (l : list NodeId) :
  find_node nm s = Some new -> find_node (node_name self) s = Some b ->
  find_node pn s = Some p -> n_id b <> n_id new ->
  attr_ids (f_name f) b = Some l ->
  exists s',
    (cmds.parent nm (Some pn) ;;; zero_channels nm channels ;;;
     fields.append self f nm ;;; ret nm) s = Ok nm s'
    /\ (exists new', find_node nm s' = Some new' /\ n_id new' = n_id new
                     /\ n_type new' = n_type new)
    /\ (exists b', find_node (node_name self) s' = Some b'
                   /\ attr_ids (f_name f) b' = Some (l ++ [n_id new])%list).
Proof.
  intros Hnew Hb Hp Hne Hl.
  rewrite (bind_step _ _ _ _ _ (parent_ok _ _ _ _ _ Hnew Hp)).
  set (f1 := fun x : Node => with_parent x (Some (n_id p))).
  assert (K1 : keeps_name f1) by (intros n; split; reflexivity).
  pose proof (find_node_touched _ _ _ _ _ K1 Hnew eq_refl) as Hnew1.
  pose proof (find_node_untouched _ _ _ _ _ K1 Hb Hne) as Hb1.
  destruct (xform_only_zero_channels nm channels) as [G HG].
  rewrite (bind_step _ _ _ _ _ (HG _ _ Hnew1)). simpl n_id.
  pose proof (find_node_touched _ _ (set_xform_by G) _ _ (set_xform_by_keeps G) Hnew1 eq_refl)
    as Hnew2.
  pose proof (find_node_untouched _ _ (set_xform_by G) _ _ (set_xform_by_keeps G) Hb1 Hne)
    as Hb2.
  rewrite (bind_step _ _ _ _ _ (append_ok _ _ _ _ _ _ _ Hb2 Hl Hnew2)). simpl n_id.
  eexists. split; [reflexivity|]. split.
  - eexists. split.
    + apply find_node_untouched; [apply set_attr_val_keeps | exact Hnew2 | ].
      simpl. congruence.
    + split; reflexivity.
  - eexists. split.
    + apply find_node_touched; [apply set_attr_val_keeps | exact Hb2 | reflexivity].
    + eapply attr_ids_set_same; eauto.
Qed.

End Wrappers.

Section Creation.

Context {codec : Codec} {host : Host}.

Lemma store_with_added_find_new s new backing owned :
  find_node (n_name new) s = None ->
  find_node (n_name new) (store_with_added s new backing owned) = Some new.
Proof.
  intros H. unfold store_with_added.
  set (f := set_attr_val "owned_nodes" _).
  change (map (touch backing f) (nodes s)) with (nodes (update_node backing f s)).
  apply find_node_app_new.
  rewrite find_node_update_node by apply set_attr_val_keeps. now rewrite H.
Qed.

Lemma store_with_added_find_old s new backing owned x n :
  find_node x s = Some n ->
  find_node x (store_with_added s new backing owned)
  = Some (touch backing (set_attr_val "owned_nodes" (AMessageList (owned ++ [n_id new])%list)) n).
Proof.
  intros H. unfold store_with_added.
  set (f := set_attr_val "owned_nodes" _).
  change (map (touch backing f) (nodes s)) with (nodes (update_node backing f s)).
  apply find_node_app_old.
  rewrite find_node_update_node by apply set_attr_val_keeps. now rewrite H.
Qed.

(** C3. [add_node]: when the name encoded from the name and side of the
    module, the role (the node type when no role is given), the id and the
    description already exists, the call raises the duplicate name error (a
    Python [ValueError]) and leaves the store as it was; otherwise, it
    returns that name, having created exactly one node, of the given type,
    with a [module] message attribute connected to the backing node, and
    having appended it to [owned_nodes]. *)
Theorem add_node_duplicate_or_create (self : Module) (node_type : string)
    (role : option string) (object_id : option nat) (description parent : option string)
    (s : Store) (base sd : option string) :
  fields.get_string self name s = Ok base s ->
  fields.get_string self side s = Ok sd s ->
  let nm := name_from_metadata
              (mkMetadata base sd (role_or_type role node_type) description object_id) in
  (cmds.objExists nm s = true ->
   add_node self node_type role object_id description parent s
   = Raise (ValueError ("A node with the name `" ++ nm ++ "` already exists")) s)
  /\ (cmds.objExists nm s = false ->
      forall (b : Node) (owned : list NodeId) (par : option NodeId),
        find_node (node_name self) s = Some b ->
        attr_ids "owned_nodes" b = Some owned ->
        parent_id (creation_parent node_type parent) s = Some par ->
        ids_below s ->
        let new := added_node s nm node_type par (n_id b) in
        let s' := store_with_added s new (n_id b) owned in
        add_node self node_type role object_id description parent s = Ok nm s'
        /\ length (nodes s') = S (length (nodes s))
        /\ find_node nm s' = Some new
        /\ n_type new = node_type
        /\ find_attr "module" new = Some (mkAttr "module" None (AMessage (Some (n_id b))))
        /\ exists b', find_node (node_name self) s' = Some b'
                      /\ attr_ids "owned_nodes" b' = Some (owned ++ [n_id new])%list).
Proof.
  intros Hn Hs nm. split.
  - intros Hex. exact (add_node_raises self node_type role object_id description parent
                         s base sd Hn Hs Hex).
  - intros Hfree b owned par Hb How Hpar Hbelow new s'.
    split; [exact (add_node_creates self node_type role object_id description parent
                     s base sd b owned par Hn Hs Hfree Hb How Hpar Hbelow)|].
    split; [unfold s', store_with_added; simpl;
            rewrite length_app, length_map; simpl; lia|].
    split; [apply (store_with_added_find_new s new); now apply objExists_false|].
    split; [reflexivity|]. split; [reflexivity|].
    eexists. split; [apply store_with_added_find_old; exact Hb|].
    unfold touch. rewrite Nat.eqb_refl. eapply attr_ids_set_same; eauto.
Qed.

(** C7, amended. [_add_deform_joint] called without [object_id] encodes the
    current length of [deform_joints] as the id of the new joint;
    [_add_placement_locator] hands its [object_id] on as it is, so that a
    locator created without [object_id] has no id in its name.  With an
    existing parent and a free name both calls return the node they
    created. *)
Theorem wrappers_object_id (self : Module) (parent description : option string)
    (s : Store) (l : list string) (base sd : option string) :
  fields.get_list self deform_joints s = Ok l s ->
  fields.get_string self name s = Ok base s ->
  fields.get_string self side s = Ok sd s ->
  let joint_name :=
    name_from_metadata (mkMetadata base sd "deform" description (Some (length l))) in
  let locator_name object_id :=
    name_from_metadata (mkMetadata base sd "placement" description object_id) in
  (forall r s', _add_deform_joint self parent None description s = Ok r s' ->
                r = joint_name)
  /\ (forall object_id r s',
         _add_placement_locator self description object_id parent s = Ok r s' ->
         r = locator_name object_id)
  /\ (forall pn p b owned,
         parent = Some pn -> pn <> "" -> find_node pn s = Some p ->
         find_node (node_name self) s = Some b ->
         attr_ids "owned_nodes" b = Some owned ->
         ids_below s ->
         (cmds.objExists joint_name s = false ->
          exists s' new,
            _add_deform_joint self parent None description s = Ok joint_name s'
            /\ find_node joint_name s' = Some new /\ n_type new = "joint")
         /\ (forall object_id lids,
                attr_ids "placement_locators" b = Some lids ->
                cmds.objExists (locator_name object_id) s = false ->
                exists s' new,
                  _add_placement_locator self description object_id parent s
                  = Ok (locator_name object_id) s'
                  /\ find_node (locator_name object_id) s' = Some new
                  /\ n_type new = "locator")).
Proof.
  intros Hl Hn Hs joint_name locator_name. split; [|split].
  - intros r s'. apply (deform_joint_returns self parent description s s' l base sd r); auto.
  - intros object_id r s'.
    apply (placement_locator_returns self description object_id parent s s' base sd r); auto.
  - intros pn p b owned -> Hpn Hp Hb How Hbelow.
    assert (Htruthy : truthy_opt (Some pn) = true).
    { simpl. destruct (pn =? "") eqn:E; [apply String.eqb_eq in E; congruence | reflexivity]. }
    assert (Hidb : n_id b <> next_id s).
    { pose proof (Hbelow b (find_node_In _ _ _ Hb)). lia. }
    split.
    + intros Hfree.
      destruct (get_list_inv _ _ _ _ _ Hl) as (b0 & x & ids & Hb0 & Hx & Hv & _ & _).
      rewrite Hb in Hb0. inversion Hb0; subst b0.
      assert (Hdj : attr_ids "deform_joints" b = Some ids).
      { unfold attr_ids. simpl in Hx. now rewrite Hx, Hv. }
      unfold _add_deform_joint.
      assert (E : (l0 <- fields.get_list self deform_joints;; ret (Some (length l0))) s
                  = Ok (Some (length l)) s) by now rewrite (bind_step _ _ _ _ _ Hl).
      rewrite (bind_step _ _ _ _ _ E).
      pose proof (add_node_creates self "joint" (Some "deform") (Some (length l)) description
                    None s base sd b owned None Hn Hs Hfree Hb How eq_refl Hbelow) as Hadd.
      rewrite (bind_step _ _ _ _ _ Hadd). rewrite Htruthy.
      rewrite (bind_step _ _ _ (Some pn) _ eq_refl). rewrite Htruthy.
      rewrite (bind_step _ _ _ (Some pn) _ eq_refl).
      set (new := added_node s _ "joint" None (n_id b)) in *.
      destruct (wrapper_tail self deform_joints [translate; rotate; scale; jointOrient]
                  joint_name pn (store_with_added s new (n_id b) owned)
                  (touch (n_id b) (set_attr_val "owned_nodes"
                                     (AMessageList (owned ++ [n_id new])%list)) b)
                  new
                  (touch (n_id b) (set_attr_val "owned_nodes"
                                     (AMessageList (owned ++ [n_id new])%list)) p)
                  ids)
        as (s' & Hrun & (new' & Hnew' & _ & Hty) & _).
      * apply (store_with_added_find_new s new). now apply objExists_false.
      * now apply store_with_added_find_old.
      * now apply store_with_added_find_old.
      * unfold touch. rewrite Nat.eqb_refl. simpl. exact Hidb.
      * unfold touch. rewrite Nat.eqb_refl. rewrite attr_ids_set_other by discriminate.
        exact Hdj.
      * exists s', new'. split; [exact Hrun|]. split; [exact Hnew' | exact Hty].
    + intros object_id lids Hlids Hfree.
      unfold _add_placement_locator.
      pose proof (add_node_creates self "locator" (Some "placement") object_id description
                    None s base sd b owned None Hn Hs Hfree Hb How eq_refl Hbelow) as Hadd.
      rewrite (bind_step _ _ _ _ _ Hadd). rewrite Htruthy.
      rewrite (bind_step _ _ _ (Some pn) _ eq_refl).
      set (new := added_node s _ "locator" None (n_id b)) in *.
      destruct (wrapper_tail self placement_locators [translate; rotate; scale]
                  (locator_name object_id) pn (store_with_added s new (n_id b) owned)
                  (touch (n_id b) (set_attr_val "owned_nodes"
                                     (AMessageList (owned ++ [n_id new])%list)) b)
                  new
                  (touch (n_id b) (set_attr_val "owned_nodes"
                                     (AMessageList (owned ++ [n_id new])%list)) p)
                  lids)
        as (s' & Hrun & (new' & Hnew' & _ & Hty) & _).
      * apply (store_with_added_find_new s new). now apply objExists_false.
      * now apply store_with_added_find_old.
      * now apply store_with_added_find_old.
      * unfold touch. rewrite Nat.eqb_refl. simpl. exact Hidb.
      * unfold touch. rewrite Nat.eqb_refl. rewrite attr_ids_set_other by discriminate.
        exact Hlids.
      * exists s', new'. split; [exact Hrun|]. split; [exact Hnew' | exact Hty].
Qed.

End Creation.

Lemma find_map_pointwise {A} (p q : A -> bool) (g : A -> A) (l : list A) :
  (forall x, In x l -> p (g x) = q x) -> find p (map g l) = option_map g (find q l).
Proof.
  induction l as [|x l IH]; simpl; auto. intros H.
  rewrite (H x (or_introl eq_refl)). destruct (q x); auto.
Qed.

Lemma find_ext_in {A} (p q : A -> bool) (l : list A) :
  (forall x, In x l -> p x = q x) -> find p l = find q l.
Proof.
  induction l as [|x l IH]; simpl; auto. intros H.
  rewrite (H x (or_introl eq_refl)). destruct (q x); auto.
Qed.

Lemma distinct_ids_node_by_id s n :
  distinct_ids s -> In n (nodes s) -> node_by_id (n_id n) s = Some n.
Proof.
  intros Hd Hin. unfold node_by_id.
  destruct (find (fun m => Nat.eqb (n_id m) (n_id n)) (nodes s)) as [m|] eqn:E.
  - apply find_some in E. destruct E as [Hm E]. apply Nat.eqb_eq in E.
    f_equal. eapply (NoDup_map_inj n_id); eauto.
  - pose proof (find_none _ _ E n Hin) as H. simpl in H. now rewrite Nat.eqb_refl in H.
Qed.

Lemma distinct_ids_rename i new s : distinct_ids s -> distinct_ids (rename_node i new s).
Proof.
  unfold distinct_ids, rename_node, update_node; simpl. rewrite map_map.
  erewrite map_ext; [intros H; exact H|].
  intros n. simpl. destruct (Nat.eqb (n_id n) i); reflexivity.
Qed.

(** A node found under a name that the renaming does not concern. *)
Lemma find_node_rename_other y i new s n :
  find_node y s = Some n -> n_id n <> i -> y <> new ->
  find_node y (rename_node i new s) = Some n.
Proof.
  intros Hn Hi Hy. unfold find_node, rename_node, update_node in *; simpl.
  rewrite (find_map_pointwise _ (fun m => (n_name m =? y) && negb (Nat.eqb (n_id m) i))).
  - assert (E : find (fun m => (n_name m =? y) && negb (Nat.eqb (n_id m) i)) (nodes s)
                = Some n).
    { revert Hn. induction (nodes s) as [|m l IH]; simpl; [discriminate|].
      destruct (n_name m =? y) eqn:Em; simpl.
      - intros [= ->]. apply Nat.eqb_neq in Hi. now rewrite Hi.
      - exact IH. }
    rewrite E. simpl. apply Nat.eqb_neq in Hi. now rewrite Hi.
  - intros m _. destruct (Nat.eqb (n_id m) i); simpl.
    + apply String.eqb_neq in Hy. rewrite String.eqb_sym, Hy.
      now rewrite andb_false_r.
    + now rewrite andb_true_r.
Qed.

Lemma find_node_rename_new new s n :
  distinct_ids s -> In n (nodes s) -> find_node new s = None ->
  find_node new (rename_node (n_id n) new s) = Some (with_name n new).
Proof.
  intros Hd Hin Hfree. unfold find_node, rename_node, update_node in *; simpl.
  rewrite (find_map_pointwise _ (fun m => Nat.eqb (n_id m) (n_id n))).
  - fold (node_by_id (n_id n) s). rewrite (distinct_ids_node_by_id _ _ Hd Hin).
    simpl. now rewrite Nat.eqb_refl.
  - intros m Hm. destruct (Nat.eqb (n_id m) (n_id n)); cbn [n_name with_name].
    + apply String.eqb_refl.
    + exact (find_none _ _ Hfree m Hm).
Qed.

Lemma find_node_rename_none y i new s :
  find_node y s = None -> y <> new -> find_node y (rename_node i new s) = None.
Proof.
  intros Hn Hy. unfold find_node, rename_node, update_node in *; simpl.
  rewrite (find_map_pointwise _ (fun m => (n_name m =? y) && negb (Nat.eqb (n_id m) i))).
  - assert (E : find (fun m => (n_name m =? y) && negb (Nat.eqb (n_id m) i)) (nodes s)
                = None).
    { rewrite (find_ext_in _ (fun _ => false)).
      - clear. induction (nodes s); simpl; auto.
      - intros m Hm. pose proof (find_none _ _ Hn m Hm) as E. simpl in E. now rewrite E. }
    now rewrite E.
  - intros m _. destruct (Nat.eqb (n_id m) i); simpl.
    + apply String.eqb_neq in Hy. rewrite String.eqb_sym, Hy.
      now rewrite andb_false_r.
    + now rewrite andb_true_r.
Qed.

Lemma node_by_id_rename j i new s :
  node_by_id j (rename_node i new s)
  = option_map (touch i (fun x => with_name x new)) (node_by_id j s).
Proof.
  unfold node_by_id, rename_node, update_node; simpl.
  apply (find_map_compat (fun n => Nat.eqb (n_id n) j)).
  intros x. destruct (Nat.eqb (n_id x) i); reflexivity.
Qed.

Lemma node_by_id_id j s n : node_by_id j s = Some n -> n_id n = j.
Proof.
  unfold node_by_id. intros H. apply find_some in H. now apply Nat.eqb_eq.
Qed.

Lemma names_of_rename ids i new s :
  ~ In i ids -> cmds.names_of ids (rename_node i new s) = cmds.names_of ids s.
Proof.
  unfold cmds.names_of. induction ids as [|j ids IH]; simpl; auto.
  intros H. rewrite IH by tauto. f_equal.
  rewrite node_by_id_rename. destruct (node_by_id j s) as [n|] eqn:E; simpl; auto.
  unfold touch. rewrite (node_by_id_id _ _ _ E).
  destruct (Nat.eqb j i) eqn:Ej; auto. apply Nat.eqb_eq in Ej. tauto.
Qed.

Lemma attr_str_get self f s b v :
  find_node (node_name self) s = Some b -> attr_str (f_name f) b = Some v ->
  fields.get_string self f s = Ok v s.
Proof.
  intros Hb Hv. unfold attr_str in Hv.
  destruct (find_attr (f_name f) b) as [x|] eqn:Ex; [|discriminate].
  unfold fields.get_string, fields.get, cmds.getAttr.
  rewrite (bind_step _ _ _ (cmds.py_of_attr (a_val x) s) s).
  - destruct (a_val x) as [|[t|]| |]; try discriminate; now inversion Hv.
  - now rewrite (bind_step _ _ _ _ _ (attr_ok _ _ _ _ _ Hb Ex)).
Qed.

Lemma rename_ok old new s n :
  find_node old s = Some n -> find_node new s = None ->
  cmds.rename old new s = Ok new (rename_node (n_id n) new s).
Proof.
  intros Hn Hfree. unfold cmds.rename.
  rewrite (bind_step _ _ _ _ _ (node_ok _ _ _ Hn)).
  destruct (old =? new) eqn:E.
  - apply String.eqb_eq in E. subst. congruence.
  - unfold cmds.objExists. now rewrite Hfree.
Qed.

Section Rename.

Context {codec : Codec}.

Lemma _update_node_name_ok self x s b n nm sd :
  find_node (node_name self) s = Some b ->
  attr_str "name" b = Some nm -> attr_str "side" b = Some sd ->
  find_node x s = Some n -> metadata_from_name x <> None ->
  find_node (renamed nm sd x) s = None ->
  _update_node_name self x s
  = Ok (renamed nm sd x) (rename_node (n_id n) (renamed nm sd x) s).
Proof.
  intros Hb Hnm Hsd Hn Hmd Hfree. unfold _update_node_name, renamed in *.
  destruct (metadata_from_name x) as [md|]; [|congruence]. simpl of_option.
  rewrite (bind_step _ _ _ md s eq_refl).
  rewrite (bind_step _ _ _ _ _ (attr_str_get self name s b nm Hb Hnm)).
  rewrite (bind_step _ _ _ _ _ (attr_str_get self side s b sd Hb Hsd)).
  now rewrite (bind_step _ _ _ _ _ (rename_ok _ _ _ _ Hn Hfree)).
Qed.

End Rename.

Section RenameLoops.

Context {codec : Codec}.

(** The loop of [update] over the owned nodes. *)
Lemma rename_owned_loop (self : Module) (nm sd : option string) (b : Node) :
  forall (xs : list string) (s : Store),
  distinct_ids s ->
  find_node (node_name self) s = Some b ->
  attr_str "name" b = Some nm -> attr_str "side" b = Some sd ->
  NoDup xs -> ~ In (node_name self) xs ->
  (forall x, In x xs -> find_node x s <> None /\ metadata_from_name x <> None) ->
  NoDup (map (renamed nm sd) xs) ->
  (forall x, In x xs -> find_node (renamed nm sd x) s = None) ->
  exists s',
    for_each xs (fun node => _update_node_name self node ;;; ret tt) s = Ok tt s'
    /\ distinct_ids s'
    /\ (forall x n, In x xs -> find_node x s = Some n ->
          find_node (renamed nm sd x) s' = Some (with_name n (renamed nm sd x)))
    /\ (forall y n, ~ In y xs -> ~ In y (map (renamed nm sd) xs) ->
          find_node y s = Some n -> find_node y s' = Some n).
Proof.
  intros xs. induction xs as [|x xs IH]; intros s Hd Hb Hnm Hsd Hnd Hself Hex Hnd' Hfree.
  - exists s. simpl. repeat split; auto. intros ? ? [].
  - destruct (Hex x (or_introl eq_refl)) as [Hx Hmd].
    destruct (find_node x s) as [n|] eqn:En; [clear Hx|congruence].
    set (new := renamed nm sd x) in *.
    assert (Hnew : find_node new s = None) by (apply Hfree; now left).
    pose proof (_update_node_name_ok self x s b n nm sd Hb Hnm Hsd En Hmd Hnew) as Hstep.
    fold new in Hstep. set (s1 := rename_node (n_id n) new s) in *.
    inversion Hnd as [|? ? Hx_notin Hnd_tl]; subst.
    simpl in Hnd'. inversion Hnd' as [|? ? Hnew_notin Hnd'_tl]; subst.
    assert (Hkeep : forall y m, y <> x -> y <> new -> find_node y s = Some m ->
                                find_node y s1 = Some m).
    { intros y m Hyx Hynew Hm. apply find_node_rename_other; auto.
      exact (distinct_ids_names _ _ _ _ _ Hd Hm En Hyx). }
    assert (Hexists_ne_new : forall y m, find_node y s = Some m -> y <> new).
    { intros y m Hm ->. congruence. }
    destruct (IH s1) as (s' & Hrun & Hd' & Hpost & Hframe).
    + now apply distinct_ids_rename.
    + apply Hkeep; auto.
      * intros E. apply Hself. left. auto.
      * eapply Hexists_ne_new; eauto.
    + assumption.
    + assumption.
    + assumption.
    + intros E. apply Hself. now right.
    + intros y Hy. destruct (Hex y (or_intror Hy)) as [Hy1 Hy2]. split; auto.
      destruct (find_node y s) as [m|] eqn:Em; [|congruence].
      rewrite (Hkeep y m); [discriminate| |eapply Hexists_ne_new; eauto|exact Em].
      intros ->. contradiction.
    + assumption.
    + intros y Hy. apply find_node_rename_none.
      * apply Hfree. now right.
      * intros E. apply Hnew_notin. unfold new in E. rewrite <- E. now apply in_map.
    + exists s'. split; [|split; [exact Hd'|split]].
      * simpl. rewrite (bind_step _ _ _ tt s1).
        -- exact Hrun.
        -- now rewrite (bind_step _ _ _ _ _ Hstep).
      * intros y m [<-|Hy] Hm.
        -- rewrite En in Hm. inversion Hm; subst m.
           apply Hframe.
           ++ intros Hin. destruct (Hex new (or_intror Hin)) as [H1 _]. congruence.
           ++ exact Hnew_notin.
           ++ apply find_node_rename_new; auto. eapply find_node_In; eauto.
        -- apply Hpost; auto. apply Hkeep; auto.
           ++ intros ->. contradiction.
           ++ eapply Hexists_ne_new; eauto.
      * intros y m Hy Hy' Hm. simpl in Hy, Hy'. apply Hframe; try tauto.
        apply Hkeep; auto; intros ->; tauto.
Qed.

Lemma rename_attr_in_keeps a new : keeps_name (rename_attr_in a new).
Proof. intros n; split; reflexivity. Qed.

Lemma rename_persistent_keeps nm sd attrs : keeps_name (rename_persistent nm sd attrs).
Proof.
  induction attrs as [|a attrs IH]; intros n; simpl.
  - auto.
  - unfold rename_persistent in *. simpl.
    destruct (IH (rename_attr_in a (renamed_attr nm sd a) n)) as [-> ->]. auto.
Qed.

Lemma find_attr_rename_other y a new n :
  y <> a -> y <> new -> find_attr y (rename_attr_in a new n) = find_attr y n.
Proof.
  intros Ha Hnew. unfold find_attr, rename_attr_in; simpl.
  induction (n_attrs n) as [|x l IH]; simpl; auto.
  destruct (a_name x =? a) eqn:E; simpl.
  - apply String.eqb_eq in E. apply String.eqb_neq in Hnew. rewrite String.eqb_sym, Hnew.
    destruct (a_name x =? y) eqn:E'; [apply String.eqb_eq in E'; congruence | exact IH].
  - destruct (a_name x =? y); auto.
Qed.

Lemma find_attr_rename_new a new n x :
  find_attr a n = Some x -> find_attr new n = None ->
  find_attr new (rename_attr_in a new n) = Some (mkAttr new (a_category x) (a_val x)).
Proof.
  unfold find_attr, rename_attr_in; simpl.
  induction (n_attrs n) as [|y l IH]; simpl; [discriminate|].
  destruct (a_name y =? a) eqn:E; simpl.
  - intros [= ->] _. now rewrite String.eqb_refl.
  - destruct (a_name y =? new) eqn:E'; [discriminate|]. exact IH.
Qed.

Lemma renameAttr_ok nm a new s n x :
  find_node nm s = Some n -> find_attr a n = Some x -> find_attr new n = None ->
  cmds.renameAttr nm a new s = Ok tt (update_node (n_id n) (rename_attr_in a new) s).
Proof.
  intros Hn Ha Hnew. unfold cmds.renameAttr.
  rewrite (bind_step _ _ _ _ _ (node_ok _ _ _ Hn)), Ha, Hnew.
  now rewrite (modify_ok _ _ _ _ Hn).
Qed.

Lemma rename_persistent_attr_ok self a s b nm sd x :
  find_node (node_name self) s = Some b ->
  attr_str "name" b = Some nm -> attr_str "side" b = Some sd ->
  splits a -> find_attr a b = Some x -> find_attr (renamed_attr nm sd a) b = None ->
  rename_persistent_attr self a s
  = Ok tt (update_node (n_id b) (rename_attr_in a (renamed_attr nm sd a)) s).
Proof.
  intros Hb Hnm Hsd (p & q & md & Hsplit & Hmd) Ha Hnew.
  unfold rename_persistent_attr, renamed_attr in *. rewrite Hsplit in *. rewrite Hmd in *.
  simpl of_option. rewrite (bind_step _ _ _ md s eq_refl).
  rewrite (bind_step _ _ _ _ _ (attr_str_get self name s b nm Hb Hnm)).
  rewrite (bind_step _ _ _ _ _ (attr_str_get self side s b sd Hb Hsd)).
  exact (renameAttr_ok _ _ _ _ _ _ Hb Ha Hnew).
Qed.

Lemma attr_str_rename_other y a new n :
  y <> a -> y <> new -> attr_str y (rename_attr_in a new n) = attr_str y n.
Proof. intros. unfold attr_str. now rewrite find_attr_rename_other. Qed.

Lemma splits_not_literal a y :
  splits a -> (exists z, split "__" y = [z]) -> y <> a.
Proof.
  intros (p & q & md & Hs & _) [z Hz] ->. rewrite Hs in Hz. discriminate.
Qed.

(** The loop of [update] over the persistent attributes. *)
Lemma rename_attrs_loop (self : Module) (nm sd : option string) :
  forall (attrs : list string) (s : Store) (b : Node),
  find_node (node_name self) s = Some b ->
  attr_str "name" b = Some nm -> attr_str "side" b = Some sd ->
  NoDup attrs ->
  (forall a, In a attrs -> splits a /\ find_attr a b <> None) ->
  NoDup (map (renamed_attr nm sd) attrs) ->
  (forall a, In a attrs -> find_attr (renamed_attr nm sd a) b = None) ->
  for_each attrs (rename_persistent_attr self) s
  = Ok tt (update_node (n_id b) (rename_persistent nm sd attrs) s)
  /\ (forall a x, In a attrs -> find_attr a b = Some x ->
        find_attr (renamed_attr nm sd a) (rename_persistent nm sd attrs b)
        = Some (mkAttr (renamed_attr nm sd a) (a_category x) (a_val x)))
  /\ (forall y, ~ In y attrs -> ~ In y (map (renamed_attr nm sd) attrs) ->
        find_attr y (rename_persistent nm sd attrs b) = find_attr y b).
Proof.
  intros attrs. induction attrs as [|a attrs IH];
    intros s b Hb Hnm Hsd Hnd Hok Hnd' Hfree.
  - simpl. split; [|split]; auto.
    + unfold ret. f_equal. unfold update_node. rewrite <- (store_eta s) at 1. f_equal.
      rewrite <- (map_id (nodes s)) at 1. apply map_ext. intros n.
      now destruct (Nat.eqb (n_id n) (n_id b)).
    + intros ? ? [].
  - destruct (Hok a (or_introl eq_refl)) as [Hsp Ha].
    destruct (find_attr a b) as [x|] eqn:Ex; [clear Ha|congruence].
    set (new := renamed_attr nm sd a) in *.
    assert (Hnew : find_attr new b = None) by (apply Hfree; now left).
    pose proof (rename_persistent_attr_ok self a s b nm sd x Hb Hnm Hsd Hsp Ex Hnew) as Hstep.
    fold new in Hstep.
    set (f1 := rename_attr_in a new) in *.
    inversion Hnd as [|? ? Ha_notin Hnd_tl]; subst.
    simpl in Hnd'. inversion Hnd' as [|? ? Hnew_notin Hnd'_tl]; subst.
    assert (Hfound_ne_new : forall y z, find_attr y b = Some z -> y <> new).
    { intros y z Hz ->. congruence. }
    assert (Hstr : forall y v, attr_str y b = Some v -> (exists z, split "__" y = [z]) ->
                               attr_str y (f1 b) = Some v).
    { intros y v Hv Hlit. unfold f1. rewrite attr_str_rename_other; auto.
      - eapply splits_not_literal; eauto.
      - unfold attr_str in Hv. destruct (find_attr y b) eqn:E; [|discriminate].
        eapply Hfound_ne_new; eauto. }
    destruct (IH (update_node (n_id b) f1 s) (f1 b)) as (Hrun & Hpost & Hframe).
    + exact (find_node_touched _ _ _ _ _ (rename_attr_in_keeps a new) Hb eq_refl).
    + apply Hstr; auto. now exists "name".
    + apply Hstr; auto. now exists "side".
    + assumption.
    + intros a' Ha'. destruct (Hok a' (or_intror Ha')) as [H1 H2]. split; auto.
      unfold f1. rewrite find_attr_rename_other; auto.
      * intros ->. contradiction.
      * destruct (find_attr a' b) eqn:E; [|congruence]. eapply Hfound_ne_new; eauto.
    + assumption.
    + intros a' Ha'. unfold f1. rewrite find_attr_rename_other.
      * apply Hfree. now right.
      * intros E. destruct (Hok a (or_introl eq_refl)) as [_ H2].
        rewrite <- E in H2. rewrite (Hfree a' (or_intror Ha')) in H2. congruence.
      * intros E. apply Hnew_notin. unfold new in E. rewrite <- E. now apply in_map.
    + split; [|split].
      * simpl. rewrite (bind_step _ _ _ _ _ Hstep). rewrite Hrun. simpl n_id.
        unfold ret. f_equal.
        rewrite update_node_compose by apply rename_attr_in_keeps. reflexivity.
      * intros a' x' [<-|Ha'] Hx'.
        -- rewrite Ex in Hx'. inversion Hx'; subst x'.
           change (rename_persistent nm sd (a :: attrs) b)
             with (rename_persistent nm sd attrs (f1 b)).
           rewrite Hframe.
           ++ now apply find_attr_rename_new.
           ++ intros Hin. destruct (Hok new (or_intror Hin)) as [_ H2]. congruence.
           ++ exact Hnew_notin.
        -- change (rename_persistent nm sd (a :: attrs) b)
             with (rename_persistent nm sd attrs (f1 b)).
           apply Hpost; auto. unfold f1. rewrite find_attr_rename_other; auto.
           ++ intros ->. contradiction.
           ++ eapply Hfound_ne_new; eauto.
      * intros y Hy Hy'. simpl in Hy, Hy'.
        change (rename_persistent nm sd (a :: attrs) b)
          with (rename_persistent nm sd attrs (f1 b)).
        rewrite Hframe by tauto. unfold f1. apply find_attr_rename_other; intros ->; tauto.
Qed.

End RenameLoops.

Lemma opt_eqb_eq a b : opt_eqb a b = true <-> a = b.
Proof.
  destruct a as [x|], b as [y|]; simpl; split; try discriminate; auto.
  - intros H. apply String.eqb_eq in H. now subst.
  - intros [= ->]. apply String.eqb_refl.
Qed.

Lemma get_list_ok self f s b ids :
  find_node (node_name self) s = Some b -> attr_ids (f_name f) b = Some ids ->
  fields.get_list self f s = Ok (cmds.names_of ids s) s.
Proof.
  intros Hb Hids. unfold attr_ids in Hids.
  destruct (find_attr (f_name f) b) as [x|] eqn:Ex; [|discriminate].
  destruct (a_val x) as [| | |l] eqn:Ev; try discriminate. inversion Hids; subst l.
  unfold fields.get_list, fields.get, cmds.getAttr.
  rewrite (bind_step _ _ _ (cmds.py_of_attr (a_val x) s) s).
  - rewrite Ev. simpl. now rewrite flat_map_some.
  - now rewrite (bind_step _ _ _ _ _ (attr_ok _ _ _ _ _ Hb Ex)).
Qed.

Lemma listAttr_category_ok nm s n :
  find_node nm s = Some n ->
  cmds.listAttr_category nm persistent_attribute_backup s = Ok (persistent_attrs n) s.
Proof.
  intros Hn. unfold cmds.listAttr_category.
  now rewrite (bind_step _ _ _ _ _ (node_ok _ _ _ Hn)).
Qed.

Lemma names_of_In ids s x :
  In x (cmds.names_of ids s) ->
  exists i n, In i ids /\ node_by_id i s = Some n /\ n_name n = x.
Proof.
  unfold cmds.names_of. rewrite in_flat_map. intros (i & Hi & Hx).
  destruct (node_by_id i s) as [n|] eqn:E; simpl in Hx; [|tauto].
  destruct Hx as [<-|[]]. eauto.
Qed.

Lemma names_of_mem ids s i n :
  In i ids -> node_by_id i s = Some n -> In (n_name n) (cmds.names_of ids s).
Proof.
  intros Hi Hn. unfold cmds.names_of. rewrite in_flat_map. exists i. split; auto.
  rewrite Hn. now left.
Qed.

Section Update.

Context {codec : Codec}.

(** C1. On a module that is not built, [update()] after [name] or [side]
    was set to a value that differs from the one decoded from the name of the
    backing node: once the parent constraint is refreshed (the store [s1]),
    the backing node is renamed to the name encoded from its metadata with
    the new base name and side, every node of [owned_nodes] is renamed with
    the same substitution (role, description and id are those decoded from
    its old name), and every attribute of the backing node in the category
    [persistent_attribute_backup] keeps its category and value under the
    name whose node prefix is re-encoded with the new base name and side.
    The names involved decode, and the new names are distinct and free: the
    host refuses a name that is taken. *)
Theorem update_renames (self : Module) (s s1 : Store) (b : Node) (md0 : Metadata)
    (nm sd : option string) (ow : list NodeId) :
  fields.get self fields.is_built s = Ok (PBool false) s ->
  update_parent_joint self s = Ok tt s1 ->
  distinct_ids s1 ->
  find_node (node_name self) s1 = Some b ->
  attr_str "name" b = Some nm -> attr_str "side" b = Some sd ->
  metadata_from_name (node_name self) = Some md0 ->
  nm <> md_base_name md0 \/ sd <> md_side md0 ->
  attr_ids "owned_nodes" b = Some ow ->
  let owned := cmds.names_of ow s1 in
  let attrs := persistent_attrs b in
  NoDup owned -> ~ In (node_name self) owned ->
  (forall x, In x owned -> metadata_from_name x <> None) ->
  NoDup (map (renamed nm sd) (node_name self :: owned)) ->
  (forall x, In x (node_name self :: owned) -> find_node (renamed nm sd x) s1 = None) ->
  NoDup attrs ->
  (forall a, In a attrs -> splits a) ->
  NoDup (map (renamed_attr nm sd) attrs) ->
  (forall a, In a attrs -> find_attr (renamed_attr nm sd a) b = None) ->
  exists s' b',
    update self s = Ok (with_node_name self (name_from_metadata (rebase nm sd md0))) s'
    /\ find_node (name_from_metadata (rebase nm sd md0)) s' = Some b'
    /\ n_id b' = n_id b
    /\ (forall x n md,
          In x owned -> find_node x s1 = Some n -> metadata_from_name x = Some md ->
          find_node (name_from_metadata
                       (mkMetadata nm sd (md_role md) (md_description md) (md_id md))) s'
          = Some (with_name n (name_from_metadata
                       (mkMetadata nm sd (md_role md) (md_description md) (md_id md)))))
    /\ (forall a x old_node attr_name md,
          In a attrs -> find_attr a b = Some x ->
          split "__" a = [old_node; attr_name] ->
          metadata_from_name old_node = Some md ->
          let new_attr :=
            name_from_metadata (mkMetadata nm sd (md_role md) (md_description md) (md_id md))
            ++ "__" ++ attr_name in
          find_attr new_attr b' = Some (mkAttr new_attr (a_category x) (a_val x))).
Proof.
  intros Hbuilt Hpj Hd Hb Hnm Hsd Hmd0 Hchanged How owned attrs
         Hnd Hself Hdec Hnd' Hfree Hand Hsplits Hand' Hafree.
  set (new0 := name_from_metadata (rebase nm sd md0)).
  assert (Hnew0 : renamed nm sd (node_name self) = new0).
  { unfold renamed. now rewrite Hmd0. }
  assert (Hfree0 : find_node new0 s1 = None).
  { rewrite <- Hnew0. apply Hfree. now left. }
  set (self' := with_node_name self new0).
  set (s2 := rename_node (n_id b) new0 s1).
  set (b2 := with_name b new0).
  pose proof (find_node_In _ _ _ Hb) as Hbin.
  assert (Hb2 : find_node (node_name self') s2 = Some b2).
  { apply find_node_rename_new; auto. }
  assert (Hd2 : distinct_ids s2) by now apply distinct_ids_rename.
  (* the owned nodes keep their names while the backing node is renamed *)
  assert (Hexist : forall x, In x owned -> exists n, find_node x s1 = Some n).
  { intros x Hx. pose proof (names_of_exist _ _ _ Hx).
    destruct (find_node x s1); [eauto | congruence]. }
  assert (Hkeep : forall x n, In x owned -> find_node x s1 = Some n ->
                              find_node x s2 = Some n).
  { intros x n Hx Hn. apply find_node_rename_other; auto.
    - apply (distinct_ids_names s1 x (node_name self)); auto. intros ->. contradiction.
    - intros ->. congruence. }
  assert (Hnotin : ~ In (n_id b) ow).
  { intros Hin. apply Hself.
    rewrite <- (find_node_name _ _ _ Hb).
    apply (names_of_mem ow s1 (n_id b) b Hin).
    now apply distinct_ids_node_by_id. }
  assert (Howned2 : fields.get_list self' owned_nodes s2 = Ok owned s2).
  { rewrite (get_list_ok self' owned_nodes s2 b2 ow Hb2 How).
    unfold s2. now rewrite names_of_rename. }
  inversion Hnd' as [|? ? Hnew0_notin Hnd'_tl]; subst.
  destruct (rename_owned_loop self' nm sd b2 owned s2) as (s3 & Hrun & Hd3 & Hpost & Hframe);
    auto.
  { simpl. intros Hin. destruct (Hexist _ Hin) as [n Hn]. congruence. }
  { intros x Hx. split; [|now apply Hdec].
    destruct (Hexist x Hx) as [n Hn]. rewrite (Hkeep x n Hx Hn). discriminate. }
  { intros x Hx. apply find_node_rename_none.
    - apply Hfree. now right.
    - intros E. apply Hnew0_notin. rewrite Hnew0, <- E. now apply in_map. }
  assert (Hb3 : find_node (node_name self') s3 = Some b2).
  { apply Hframe; auto.
    - simpl. intros Hin. destruct (Hexist _ Hin) as [n Hn]. congruence.
    - simpl. rewrite <- Hnew0. exact Hnew0_notin. }
  destruct (rename_attrs_loop self' nm sd attrs s3 b2) as (Hrun2 & Hpost2 & _); auto.
  { intros a Ha. split; [now apply Hsplits|].
    unfold attrs, persistent_attrs in Ha. apply in_map_iff in Ha.
    destruct Ha as (x & <- & Hx). apply filter_In in Hx. destruct Hx as [Hx _].
    change (find_attr (a_name x) b2) with (find_attr (a_name x) b).
    unfold find_attr. intros Hnone.
    pose proof (find_none _ _ Hnone x Hx) as E. simpl in E.
    now rewrite String.eqb_refl in E. }
  exists (update_node (n_id b2) (rename_persistent nm sd attrs) s3),
         (rename_persistent nm sd attrs b2).
  split; [|split; [|split; [|split]]].
  - unfold update.
    rewrite (bind_step _ _ _ _ _ Hbuilt).
    change (truthy (PBool false)) with false. cbv iota.
    rewrite (bind_step _ _ _ _ _ Hpj).
    rewrite Hmd0. simpl of_option. rewrite (bind_step _ _ _ md0 s1 eq_refl).
    rewrite (bind_step _ _ _ _ _ (attr_str_get self name s1 b nm Hb Hnm)).
    rewrite (bind_step _ _ _ _ _ (attr_str_get self side s1 b sd Hb Hsd)).
    assert (E : negb (opt_eqb nm (md_base_name md0)) || negb (opt_eqb sd (md_side md0)) = true).
    { destruct Hchanged as [H|H].
      - destruct (opt_eqb nm (md_base_name md0)) eqn:E; auto.
        apply opt_eqb_eq in E. contradiction.
      - destruct (opt_eqb sd (md_side md0)) eqn:E; [|apply orb_true_r].
        apply opt_eqb_eq in E. contradiction. }
    rewrite E.
    pose proof (_update_node_name_ok self (node_name self) s1 b b nm sd Hb Hnm Hsd Hb) as Hstep.
    rewrite Hnew0 in Hstep.
    rewrite (bind_step _ _ _ _ _ (Hstep ltac:(congruence) Hfree0)).
    fold self' s2.
    rewrite (bind_step _ _ _ _ _ Howned2).
    rewrite (bind_step _ _ _ _ _ Hrun).
    rewrite (bind_step _ _ _ _ _ (listAttr_category_ok _ _ _ Hb3)).
    change (persistent_attrs b2) with attrs.
    now rewrite (bind_step _ _ _ _ _ Hrun2).
  - apply find_node_touched; auto. apply rename_persistent_keeps.
  - now destruct (rename_persistent_keeps nm sd attrs b2) as [-> _].
  - intros x n md Hx Hn Hmd.
    assert (Hren : renamed nm sd x
                   = name_from_metadata
                       (mkMetadata nm sd (md_role md) (md_description md) (md_id md))).
    { unfold renamed. now rewrite Hmd. }
    rewrite <- Hren.
    apply find_node_untouched.
    + apply rename_persistent_keeps.
    + apply Hpost; auto.
    + simpl. apply (distinct_ids_names s1 x (node_name self)); auto.
      intros ->. contradiction.
  - intros a x old_node attr_name md Ha Hx Hsplit Hmd new_attr.
    assert (Hren : renamed_attr nm sd a = new_attr).
    { unfold renamed_attr. now rewrite Hsplit, Hmd. }
    rewrite <- Hren. apply Hpost2; auto.
Qed.

End Update.

Lemma triple_bind {A B} P (c : M A) Q (k : A -> M B) R :
  triple P c Q -> (forall a, triple (Q a) (k a) R) -> triple P (bind c k) R.
Proof.
  intros Hc Hk s Hs. unfold bind. specialize (Hc s Hs).
  destruct (c s) as [a s1|e s1]; auto. exact (Hk a s1 Hc).
Qed.

Lemma triple_weaken {A} (P P' : Store -> Prop) (c : M A) (Q Q' : A -> Store -> Prop) :
  (forall s, P' s -> P s) -> (forall a s, Q a s -> Q' a s) ->
  triple P c Q -> triple P' c Q'.
Proof.
  intros HP HQ Hc s Hs. specialize (Hc s (HP s Hs)). destruct (c s); auto.
Qed.

Lemma triple_ret {A} (P : Store -> Prop) (a : A) (Q : A -> Store -> Prop) :
  (forall s, P s -> Q a s) -> triple P (ret a) Q.
Proof. intros H s Hs. simpl. auto. Qed.

Lemma triple_raise {A} (P : Store -> Prop) e (Q : A -> Store -> Prop) :
  (forall s, P s -> owning s) -> triple P (raise e) Q.
Proof. intros H s Hs. simpl. auto. Qed.

Lemma triple_reads {A} (P : Store -> Prop) (c : M A) :
  reads c -> (forall s, P s -> owning s) -> triple P c (fun _ => P).
Proof.
  intros Hc HP s Hs. generalize (Hc s).
  destruct (c s) as [a s'|err s']; simpl; intros ->; auto.
Qed.

Lemma preserves_reads {A} (c : M A) : reads c -> preserves c.
Proof. intros Hc. apply triple_reads; auto. Qed.

Lemma preserves_bind {A B} (c : M A) (k : A -> M B) :
  preserves c -> (forall a, preserves (k a)) -> preserves (bind c k).
Proof. intros Hc Hk. eapply triple_bind; eauto. Qed.

Lemma preserves_ret {A} (a : A) : preserves (ret a).
Proof. apply triple_ret. auto. Qed.

Lemma preserves_raise {A} e : preserves (@raise A e).
Proof. apply triple_raise. auto. Qed.

Lemma preserves_of_option {A} e (o : option A) : preserves (of_option e o).
Proof. destruct o; [apply preserves_ret | apply preserves_raise]. Qed.

Lemma triple_for_each {A} (P : Store -> Prop) (l : list A) (body : A -> M unit) :
  (forall x, triple P (body x) (fun _ => P)) -> triple P (for_each l body) (fun _ => P).
Proof.
  intros Hb. induction l as [|x l IH]; simpl.
  - apply triple_ret. auto.
  - eapply triple_bind; [apply Hb | intros u; exact IH].
Qed.

Lemma triple_for_each_from {A} (P : Store -> Prop) (l : list A) (body : nat -> A -> M unit) :
  (forall i x, triple P (body i x) (fun _ => P)) ->
  forall i, triple P (for_each_from i l body) (fun _ => P).
Proof.
  intros Hb. induction l as [|x l IH]; intros i; simpl.
  - apply triple_ret. auto.
  - eapply triple_bind; [apply Hb | intros u; apply IH].
Qed.

Lemma preserves_map_m {A B} (f : A -> M B) (l : list A) :
  (forall x, preserves (f x)) -> preserves (map_m f l).
Proof.
  intros Hf. induction l as [|x l IH]; simpl.
  - apply preserves_ret.
  - apply preserves_bind; [apply Hf|]. intros y.
    apply preserves_bind; [exact IH|]. intros ys. apply preserves_ret.
Qed.

(** *** Node transformers that keep the invariant *)
Lemma owning_update_node (nm : string) (f : Node -> Node) (s : Store) (n : Node) :
  owning s -> find_node nm s = Some n ->
  n_id (f n) = n_id n -> (node_owns n -> node_owns (f n)) ->
  owning (update_node (n_id n) f s).
Proof.
  intros (Hd & Hb & Ho) Hn Hid Hown.
  assert (Htouch : forall m, In m (nodes s) -> touch (n_id n) f m = m \/ (m = n /\ touch (n_id n) f m = f n)).
  { intros m Hm. unfold touch. destruct (Nat.eqb (n_id m) (n_id n)) eqn:E; auto.
    apply Nat.eqb_eq in E. right.
    assert (m = n). { eapply (NoDup_map_inj n_id); eauto. eapply find_node_In; eauto. }
    subst. auto. }
  assert (Hids : map n_id (nodes (update_node (n_id n) f s)) = map n_id (nodes s)).
  { unfold update_node; simpl. rewrite map_map. apply map_ext_in. intros m Hm.
    fold (touch (n_id n) f m). destruct (Htouch m Hm) as [->|[-> ->]]; auto. }
  split; [|split].
  - unfold distinct_ids. now rewrite Hids.
  - intros m Hm. unfold update_node in Hm; simpl in Hm. apply in_map_iff in Hm.
    destruct Hm as (m0 & <- & Hm0). fold (touch (n_id n) f m0).
    destruct (Htouch m0 Hm0) as [->|[-> ->]]; [now apply Hb|].
    rewrite Hid. now apply Hb.
  - intros m Hm. unfold update_node in Hm; simpl in Hm. apply in_map_iff in Hm.
    destruct Hm as (m0 & <- & Hm0). fold (touch (n_id n) f m0).
    destruct (Htouch m0 Hm0) as [->|[-> ->]]; [now apply Ho|].
    apply Hown. now apply Ho.
Qed.

(** [cmds.modify], when the transformer keeps the invariant on the node it
    is applied to. *)
Lemma triple_modify (P : Store -> Prop) (nm : string) (f : Node -> Node) :
  (forall s, P s -> owning s) ->
  (forall s n, P s -> find_node nm s = Some n -> P (update_node (n_id n) f s)) ->
  triple P (cmds.modify nm f) (fun _ => P).
Proof.
  intros HP Hf s Hs. unfold cmds.modify, bind, cmds.node.
  destruct (find_node nm s) as [n|] eqn:E; simpl; auto.
Qed.

Lemma preserves_modify (nm : string) (f : Node -> Node) :
  (forall n, n_id (f n) = n_id n /\ (node_owns n -> node_owns (f n))) ->
  preserves (cmds.modify nm f).
Proof.
  intros Hf. apply triple_modify; auto.
  intros s n Hs Hn. destruct (Hf n). eapply owning_update_node; eauto.
Qed.

Lemma node_owns_attrs n n' : n_attrs n' = n_attrs n -> node_owns n -> node_owns n'.
Proof.
  intros E H f l Hf Hl. unfold attr_ids, find_attr in *. rewrite E in *. eauto.
Qed.

Lemma preserves_modify_keeps_attrs nm f : keeps_attrs f -> preserves (cmds.modify nm f).
Proof.
  intros Hf. apply preserves_modify. intros n. destruct (Hf n) as [H1 H2].
  split; auto. now apply node_owns_attrs.
Qed.

Lemma node_owns_same n n' :
  (forall c, In c protected -> attr_ids c n' = attr_ids c n) -> node_owns n -> node_owns n'.
Proof.
  intros E H f l Hf Hl.
  assert (Hin : In f protected) by (destruct Hf; subst; simpl; auto).
  rewrite (E f Hin) in Hl. destruct (H f l Hf Hl) as (ow & How & Hincl).
  exists ow. split; auto. rewrite E; auto. unfold protected; simpl; auto.
Qed.

Lemma node_owns_set_free a v n :
  ~ In a protected -> node_owns n -> node_owns (set_attr_val a v n).
Proof.
  intros Ha. apply node_owns_same. intros c Hc. apply attr_ids_set_other.
  intros ->. contradiction.
Qed.

Lemma attr_ids_set_scalar a v n x c :
  find_attr a n = Some x ->
  (forall l, a_val x <> AMessageList l) -> (forall l, v <> AMessageList l) ->
  attr_ids c (set_attr_val a v n) = attr_ids c n.
Proof.
  intros Hx Hscalar Hv. destruct (string_dec c a) as [->|Hne].
  - unfold attr_ids. rewrite (find_attr_set_attr_val_same _ _ _ _ Hx), Hx. simpl.
    destruct v; destruct (a_val x); try reflexivity;
      try (exfalso; eapply Hv; reflexivity); exfalso; eapply Hscalar; reflexivity.
  - now apply attr_ids_set_other.
Qed.

Lemma find_attr_add_attr c a n :
  find_attr (a_name a) n = None ->
  find_attr c (add_attr a n)
  = match find_attr c n with
    | Some x => Some x
    | None => if a_name a =? c then Some a else None
    end.
Proof.
  intros _. unfold find_attr, add_attr; simpl. rewrite find_app. simpl.
  destruct (find (fun x => a_name x =? c) (n_attrs n)); auto.
Qed.

Lemma node_owns_add_scalar a n :
  find_attr (a_name a) n = None -> (forall l, a_val a <> AMessageList l) ->
  node_owns n -> node_owns (add_attr a n).
Proof.
  intros Hnone Hscalar. apply node_owns_same. intros c _.
  unfold attr_ids. rewrite (find_attr_add_attr c a n Hnone).
  destruct (find_attr c n) as [x|] eqn:E; auto.
  destruct (a_name a =? c); auto.
  destruct (a_val a); auto. exfalso. eapply Hscalar; reflexivity.
Qed.

Lemma node_owns_rename_attr a new n :
  ~ In a protected -> ~ In new protected -> node_owns n -> node_owns (rename_attr_in a new n).
Proof.
  intros Ha Hnew. apply node_owns_same. intros c Hc. unfold attr_ids.
  rewrite find_attr_rename_other; auto; intros ->; contradiction.
Qed.

Lemma node_owns_append_owned n l i :
  attr_ids "owned_nodes" n = Some l ->
  node_owns n -> node_owns (set_attr_val "owned_nodes" (AMessageList (l ++ [i])%list) n).
Proof.
  intros Hl H f l0 Hf Hl0.
  rewrite attr_ids_set_other in Hl0 by (destruct Hf; subst; discriminate).
  destruct (H f l0 Hf Hl0) as (ow & How & Hincl).
  rewrite Hl in How. inversion How; subst ow.
  exists (l ++ [i])%list. split.
  - eapply attr_ids_set_same; eauto.
  - intros j Hj. apply in_or_app. left. auto.
Qed.

(** *** The commands of the host *)
Ltac by_update Hs Hn :=
  eapply owning_update_node; [exact Hs | exact Hn | reflexivity | ].

Lemma preserves_setAttr nm a v : preserves (cmds.setAttr nm a v).
Proof.
  intros s Hs. unfold cmds.setAttr, cmds.attr, bind, cmds.node.
  destruct (find_node nm s) as [n|] eqn:En; simpl; auto.
  destruct (find_attr a n) as [x|] eqn:Ex; simpl; auto.
  destruct (a_val x) eqn:Ev, v; simpl; auto;
    rewrite (modify_ok _ _ _ _ En); by_update Hs En;
    apply node_owns_same; intros c _;
    apply (attr_ids_set_scalar a _ n x c Ex); rewrite ?Ev; discriminate.
Qed.

Lemma preserves_addAttr nm a t c :
  t <> cmds.TMessageMulti -> preserves (cmds.addAttr nm a t c).
Proof.
  intros Ht s Hs. unfold cmds.addAttr, bind, cmds.node.
  destruct (find_node nm s) as [n|] eqn:En; simpl; auto.
  destruct (find_attr a n) as [x|] eqn:Ex; simpl; auto.
  rewrite (modify_ok _ _ _ _ En). by_update Hs En.
  apply (node_owns_add_scalar (mkAttr a c (cmds.default_val t)) n Ex).
  destruct t; simpl; try discriminate. congruence.
Qed.

Lemma preserves_connectAttr src sa dst da :
  ~ In da protected -> preserves (cmds.connectAttr src sa dst da).
Proof.
  intros Hda s Hs. unfold cmds.connectAttr, bind, cmds.node.
  destruct (find_node src s) as [sn|] eqn:Esn; simpl; auto.
  destruct (find_node dst s) as [dn|] eqn:Edn; simpl; auto.
  destruct (find_attr da dn) as [[xn xc [b|v|o|l]]|] eqn:Ex;
    rewrite (modify_ok _ _ _ _ Edn); by_update Hs Edn;
    try (now apply node_owns_set_free); now apply node_owns_attrs.
Qed.

Lemma preserves_renameAttr nm a new :
  ~ In a protected -> ~ In new protected -> preserves (cmds.renameAttr nm a new).
Proof.
  intros Ha Hnew s Hs. unfold cmds.renameAttr, bind, cmds.node.
  destruct (find_node nm s) as [n|] eqn:En; simpl; auto.
  destruct (find_attr a n), (find_attr new n); simpl; auto.
  rewrite (modify_ok _ _ _ _ En). by_update Hs En.
  now apply node_owns_rename_attr.
Qed.

Lemma preserves_rename old new : preserves (cmds.rename old new).
Proof.
  intros s Hs. unfold cmds.rename, bind, cmds.node.
  destruct (find_node old s) as [n|] eqn:En; simpl; auto.
  destruct (old =? new); auto. destruct (cmds.objExists new s); auto.
  by_update Hs En. now apply node_owns_attrs.
Qed.

Lemma preserves_parent child par : preserves (cmds.parent child par).
Proof.
  unfold cmds.parent. apply preserves_bind; [apply preserves_of_option|]. intros pn.
  apply preserves_bind; [apply preserves_reads, reads_node|]. intros p.
  apply preserves_modify_keeps_attrs. intros n; split; reflexivity.
Qed.

Lemma NoDup_snoc {A} (l : list A) (x : A) : NoDup l -> ~ In x l -> NoDup (l ++ [x]).
Proof.
  induction l as [|y l IH]; simpl; intros Hd Hx.
  - repeat constructor. simpl. tauto.
  - inversion Hd; subst. constructor.
    + rewrite in_app_iff. simpl. intuition.
    + apply IH; auto.
Qed.

Lemma owning_add_node s new :
  owning s -> node_owns new -> n_id new = next_id s ->
  owning (mkStore (nodes s ++ [new]) (S (next_id s))).
Proof.
  intros (Hd & Hb & Ho) Hnew Hid. split; [|split].
  - unfold distinct_ids in *. simpl. rewrite map_app. simpl.
    apply NoDup_snoc; auto.
    rewrite in_map_iff. intros (m & E & Hm). specialize (Hb m Hm). lia.
  - intros m Hm. simpl in *. apply in_app_or in Hm. destruct Hm as [Hm|[<-|[]]].
    + specialize (Hb m Hm). lia.
    + lia.
  - intros m Hm. simpl in Hm. apply in_app_or in Hm. destruct Hm as [Hm|[<-|[]]]; auto.
Qed.

Lemma node_owns_default i nm t p :
  node_owns (mkNode i nm t p cmds.default_attrs [] cmds.default_xform []).
Proof. intros f l [->| ->] Hl; discriminate. Qed.

Lemma node_owns_id n i :
  node_owns n ->
  node_owns (mkNode i (n_name n) (n_type n) (n_parent n) (n_attrs n) (n_inputs n)
                    (n_xform n) (n_shapes n)).
Proof. apply node_owns_attrs. reflexivity. Qed.

Lemma preserves_new_node t nm par : preserves (cmds.new_node t nm par).
Proof.
  unfold cmds.new_node. eapply triple_bind with (Q := fun _ => owning).
  - destruct par; [|apply preserves_ret].
    apply preserves_bind; [apply preserves_reads, reads_node|]. intros. apply preserves_ret.
  - intros p s Hs. simpl. apply owning_add_node; auto.
    intros f l [->| ->] Hl; discriminate.
Qed.

Lemma preserves_createNode t nm par : preserves (cmds.createNode t nm par).
Proof. apply preserves_new_node. Qed.

Lemma preserves_spaceLocator nm : preserves (cmds.spaceLocator nm).
Proof. apply preserves_new_node. Qed.

(** Deleting nodes purges every list of the same identities. *)
Lemma find_attr_purge dead c n :
  find_attr c (cmds.purge dead n) = option_map (cmds.purge_attr dead) (find_attr c n).
Proof.
  unfold find_attr, cmds.purge; simpl.
  apply (find_map_compat (fun x => a_name x =? c)).
  intros x. unfold cmds.purge_attr. destruct (a_val x) as [| |[i|]|]; simpl; auto.
  destruct (cmds.mem_id i dead); auto.
Qed.

Lemma attr_ids_purge dead c n :
  attr_ids c (cmds.purge dead n)
  = option_map (filter (fun i => negb (cmds.mem_id i dead))) (attr_ids c n).
Proof.
  unfold attr_ids. rewrite find_attr_purge.
  destruct (find_attr c n) as [x|]; simpl; auto.
  unfold cmds.purge_attr. destruct (a_val x) as [| |[i|]|l] eqn:E; simpl; rewrite ?E; auto.
  destruct (cmds.mem_id i dead); simpl; rewrite ?E; auto.
Qed.

Lemma node_owns_purge dead n : node_owns n -> node_owns (cmds.purge dead n).
Proof.
  intros H f l Hf Hl. rewrite attr_ids_purge in Hl.
  destruct (attr_ids f n) as [l0|] eqn:E; [|discriminate]. inversion Hl; subst l.
  destruct (H f l0 Hf E) as (ow & How & Hincl).
  exists (filter (fun i => negb (cmds.mem_id i dead)) ow). split.
  - rewrite attr_ids_purge, How. reflexivity.
  - intros j Hj. apply filter_In in Hj. apply filter_In. destruct Hj. split; auto.
Qed.

Lemma distinct_ids_filter (keep : Node -> bool) (ns : list Node) :
  NoDup (map n_id ns) -> NoDup (map n_id (filter keep ns)).
Proof.
  induction ns as [|n ns IH]; simpl; auto. intros H. inversion H; subst.
  destruct (keep n); simpl; auto. constructor; auto.
  rewrite in_map_iff in *. intros (m & E & Hm). apply filter_In in Hm.
  destruct Hm. eauto.
Qed.

Lemma preserves_delete names : preserves (cmds.delete names).
Proof.
  intros s (Hd & Hb & Ho). unfold cmds.delete.
  destruct (forallb (fun x => cmds.objExists x s) names); simpl; [|repeat split; auto].
  set (dead := cmds.doomed _ _ _).
  split; [|split].
  - unfold distinct_ids in *. simpl. rewrite map_map. simpl.
    now apply distinct_ids_filter.
  - intros m Hm. simpl in *. apply in_map_iff in Hm. destruct Hm as (m0 & <- & Hm0).
    apply filter_In in Hm0. destruct Hm0 as [Hm0 _]. simpl. now apply Hb.
  - intros m Hm. simpl in Hm. apply in_map_iff in Hm. destruct Hm as (m0 & <- & Hm0).
    apply filter_In in Hm0. destruct Hm0 as [Hm0 _]. apply node_owns_purge. now apply Ho.
Qed.

(** *** The field layer *)
Lemma reads_ids_of l : reads (fields.ids_of l).
Proof.
  unfold fields.ids_of. induction l as [|o l IH]; simpl.
  - apply reads_ret.
  - apply reads_bind.
    + apply reads_bind; [apply reads_of_option|]. intros x.
      apply reads_bind; [apply reads_node|]. intros n. apply reads_ret.
    + intros i. apply reads_bind; [exact IH|]. intros. apply reads_ret.
Qed.

Lemma preserves_set_free nm a v :
  ~ In a protected -> preserves (cmds.modify nm (set_attr_val a v)).
Proof.
  intros Ha. apply preserves_modify. intros n. split; [reflexivity|].
  now apply node_owns_set_free.
Qed.

Lemma preserves_fields_set self f v :
  ~ In (f_name f) protected -> preserves (fields.set self f v).
Proof.
  intros Hf. unfold fields.set.
  destruct (f_kind f) as [|choices| | |], v; try apply preserves_raise;
    try apply preserves_setAttr.
  - destruct (existsb _ choices); [apply preserves_setAttr | apply preserves_raise].
  - apply preserves_bind; [apply preserves_reads, reads_attr|]. intros.
    now apply preserves_set_free.
  - apply preserves_bind; [apply preserves_reads, reads_attr|]. intros.
    apply preserves_bind; [apply preserves_reads, reads_node|]. intros.
    now apply preserves_set_free.
  - apply preserves_bind; [apply preserves_reads, reads_attr|]. intros.
    apply preserves_bind; [apply preserves_reads, reads_ids_of|]. intros.
    now apply preserves_set_free.
Qed.

Lemma preserves_append self f x :
  f_name f = "owned_nodes" \/ ~ In (f_name f) protected ->
  preserves (fields.append self f x).
Proof.
  intros Hf s Hs. unfold fields.append, cmds.attr, bind, cmds.node.
  destruct (find_node (node_name self) s) as [b|] eqn:Eb; simpl; auto.
  destruct (find_attr (f_name f) b) as [a|] eqn:Ea; simpl; auto.
  destruct (find_node x s) as [n|] eqn:En; simpl; auto.
  destruct (a_val a) as [| | |l] eqn:Ev; simpl; auto.
  rewrite (modify_ok _ _ _ _ Eb). by_update Hs Eb.
  destruct Hf as [E|Hfree].
  - rewrite E in *. apply node_owns_append_owned. unfold attr_ids. now rewrite Ea, Ev.
  - now apply node_owns_set_free.
Qed.

Lemma preserves_MopNode_init C nm : class_ok C -> preserves (fields.MopNode_init C nm).
Proof.
  intros HC s Hs. unfold fields.MopNode_init.
  rewrite (bind_step get_store _ s s s eq_refl).
  destruct (cmds.objExists nm s) eqn:Eex; simpl; auto.
  set (n0 := mkNode (next_id s) nm "transform" None cmds.default_attrs []
                    cmds.default_xform []).
  assert (Hc : cmds.createNode "transform" (Some nm) None s
               = Ok nm (mkStore (nodes s ++ [n0]) (S (next_id s)))).
  { unfold cmds.createNode. apply new_node_ok; auto. }
  rewrite (bind_step _ _ _ _ _ Hc).
  assert (Hs1 : owning (mkStore (nodes s ++ [n0]) (S (next_id s)))).
  { apply owning_add_node; auto. apply node_owns_default. }
  assert (Hn0 : find_node nm (mkStore (nodes s ++ [n0]) (S (next_id s))) = Some n0).
  { apply (find_node_app_new s n0). now apply objExists_false. }
  rewrite (modify_ok _ _ _ _ Hn0). simpl state_of.
  by_update Hs1 Hn0. intros _. apply HC.
Qed.

(** *** Transforms and shapes *)
Section Transforms.

Context {host : Host}.

Lemma preserves_with_xform nm (g : Node -> Transform) :
  preserves (cmds.modify nm (fun x => with_xform x (g x))).
Proof. apply preserves_modify_keeps_attrs. intros n; split; reflexivity. Qed.

Lemma preserves_setAttr_channel nm c a v : preserves (setAttr_channel nm c a v).
Proof. apply preserves_modify_keeps_attrs. intros n; split; reflexivity. Qed.

Lemma preserves_setAttr_scale nm sc : preserves (setAttr_scale nm sc).
Proof. apply preserves_with_xform. Qed.

Lemma preserves_xform_matrix_ws nm m : preserves (xform_matrix_ws nm m).
Proof. apply preserves_with_xform. Qed.

Lemma preserves_xform_rotation_ws nm r : preserves (xform_rotation_ws nm r).
Proof. apply preserves_with_xform. Qed.

Lemma reads_getAttr_worldMatrix nm : reads (getAttr_worldMatrix nm).
Proof. apply reads_bind; [apply reads_node|]. intros; apply reads_ret. Qed.

Lemma reads_xform_query_rotation_ws nm : reads (xform_query_rotation_ws nm).
Proof. apply reads_bind; [apply reads_node|]. intros; apply reads_ret. Qed.

Lemma preserves_change_shape ctl data : preserves (change_controller_shape ctl data).
Proof. apply preserves_modify_keeps_attrs. intros n; split; reflexivity. Qed.

Lemma preserves_zero_channels nm channels : preserves (zero_channels nm channels).
Proof.
  unfold zero_channels. apply triple_for_each. intros c.
  apply triple_for_each. intros a. apply preserves_setAttr_channel.
Qed.

End Transforms.

Lemma reads_listConnections_source nm a : reads (cmds.listConnections_source nm a).
Proof. apply reads_bind; [apply reads_node|]. intros n s; reflexivity. Qed.

Lemma reads_listRelatives_parent nm : reads (cmds.listRelatives_parent nm).
Proof. apply reads_bind; [apply reads_node|]. intros n s; reflexivity. Qed.

Lemma reads_attributeQuery_exists nm a : reads (cmds.attributeQuery_exists nm a).
Proof. apply reads_bind; [apply reads_node|]. intros; apply reads_ret. Qed.

Lemma reads_listAttr_category nm c : reads (cmds.listAttr_category nm c).
Proof. apply reads_bind; [apply reads_node|]. intros; apply reads_ret. Qed.

Lemma reads_get_store : reads get_store.
Proof. intros s; reflexivity. Qed.

Lemma has_dunder_app x q : has_dunder (x ++ "__" ++ q) = true.
Proof.
  induction x as [|c x IH].
  - reflexivity.
  - change (has_dunder (String c x ++ "__" ++ q))
      with ((Ascii.eqb c "_" && match x ++ "__" ++ q with
                                | String d _ => Ascii.eqb d "_"
                                | EmptyString => false
                                end)
            || has_dunder (x ++ "__" ++ q)).
    rewrite IH. apply orb_true_r.
Qed.

Lemma dunder_not_protected x q : ~ In (x ++ "__" ++ q) protected.
Proof.
  intros Hin. pose proof (has_dunder_app x q) as H.
  destruct Hin as [E|[E|[E|[]]]]; rewrite <- E in H; discriminate.
Qed.

Lemma split_not_protected a p q : split "__" a = [p; q] -> ~ In a protected.
Proof.
  intros H [E|[E|[E|[]]]]; subst a; vm_compute in H; discriminate.
Qed.

Lemma owns_node_owning self x s : owns_node self x s -> owning s.
Proof. now intros [H _]. Qed.

Lemma owns_node_update self x s nm n f :
  keeps_name f -> keeps_attrs f ->
  owns_node self x s -> find_node nm s = Some n ->
  owns_node self x (update_node (n_id n) f s).
Proof.
  intros Hk Ha (Hs & nb & nx & ow & Hb & Hx & How & Hin) Hn. split.
  - eapply owning_update_node; eauto.
    + now destruct (Ha n).
    + apply node_owns_attrs. now destruct (Ha n).
  - exists (touch (n_id n) f nb), (touch (n_id n) f nx), ow.
    rewrite !find_node_update_node by assumption. rewrite Hb, Hx. simpl.
    repeat split; auto.
    + unfold touch. destruct (Nat.eqb (n_id nb) (n_id n)); auto.
      unfold attr_ids, find_attr in *. destruct (Ha nb) as [_ ->]. auto.
    + destruct (touch_keeps (n_id n) f Hk nx) as [-> _]. auto.
Qed.

Lemma triple_owned_modify self x nm f :
  keeps_name f -> keeps_attrs f ->
  triple (owns_node self x) (cmds.modify nm f) (fun _ => owns_node self x).
Proof.
  intros Hk Ha. apply triple_modify.
  - apply owns_node_owning.
  - intros s n Hs Hn. eapply owns_node_update; eauto.
Qed.

Lemma triple_owned_reads {A} self x (c : M A) :
  reads c -> triple (owns_node self x) c (fun _ => owns_node self x).
Proof. intros Hc. apply triple_reads; auto. apply owns_node_owning. Qed.

(** Recording a node in [owned_nodes] makes it owned. *)
Lemma triple_append_owned self x :
  triple owning (fields.append self owned_nodes x) (fun _ => owns_node self x).
Proof.
  intros s Hs. unfold fields.append, cmds.attr, bind, cmds.node. simpl f_name.
  destruct (find_node (node_name self) s) as [b|] eqn:Eb; simpl; auto.
  destruct (find_attr "owned_nodes" b) as [a|] eqn:Ea; simpl; auto.
  destruct (find_node x s) as [n|] eqn:En; simpl; auto.
  destruct (a_val a) as [| | |l] eqn:Ev; simpl; auto.
  rewrite (modify_ok _ _ _ _ Eb).
  set (f := set_attr_val "owned_nodes" (AMessageList (l ++ [n_id n])%list)).
  assert (How : attr_ids "owned_nodes" b = Some l) by (unfold attr_ids; now rewrite Ea, Ev).
  split.
  - eapply owning_update_node; eauto. now apply node_owns_append_owned.
  - exists (f b), (touch (n_id b) f n), (l ++ [n_id n])%list.
    rewrite !find_node_update_node by apply set_attr_val_keeps. rewrite Eb, En. simpl.
    unfold touch at 1. rewrite Nat.eqb_refl. repeat split; auto.
    + eapply attr_ids_set_same; eauto.
    + destruct (touch_keeps (n_id b) f (set_attr_val_keeps _ _) n) as [-> _].
      apply in_or_app. right. now left.
Qed.

(** Recording an owned node in a placement list keeps the invariant. *)
Lemma triple_append_placement self f x :
  f_name f = "deform_joints" \/ f_name f = "placement_locators" ->
  triple (owns_node self x) (fields.append self f x) (fun _ => owning).
Proof.
  intros Hf s (Hs & nb & nx & ow & Hb & Hx & How & Hin).
  unfold fields.append, cmds.attr, bind, cmds.node. rewrite Hb. simpl.
  destruct (find_attr (f_name f) nb) as [a|] eqn:Ea; simpl; auto.
  rewrite Hx. simpl.
  destruct (a_val a) as [| | |l] eqn:Ev; simpl; auto.
  rewrite (modify_ok _ _ _ _ Hb).
  eapply owning_update_node; eauto.
  intros Hown g l0 Hg Hl0.
  assert (Hne : "owned_nodes" <> f_name f) by (destruct Hf as [-> | ->]; discriminate).
  exists ow. split; [now rewrite attr_ids_set_other|].
  destruct (string_dec g (f_name f)) as [->|Hgf].
  - assert (Hl : attr_ids (f_name f) nb = Some l) by (unfold attr_ids; now rewrite Ea, Ev).
    rewrite (attr_ids_set_same _ _ _ _ Hl) in Hl0. inversion Hl0; subst l0.
    destruct (Hown (f_name f) l Hg Hl) as (ow' & How' & Hincl).
    rewrite How in How'. inversion How'; subst ow'.
    intros j Hj. apply in_app_or in Hj. destruct Hj as [Hj|[<-|[]]]; auto.
  - rewrite attr_ids_set_other in Hl0 by assumption.
    destruct (Hown g l0 Hg Hl0) as (ow' & How' & Hincl).
    rewrite How in How'. now inversion How'; subst ow'.
Qed.

Ltac reads_tac :=
  repeat first
    [ apply reads_get_string | apply reads_get_list | apply reads_get
    | apply reads_getAttr | apply reads_attr | apply reads_node
    | apply reads_of_option | apply reads_ret | apply reads_raise
    | apply reads_listConnections_source | apply reads_listRelatives_parent
    | apply reads_attributeQuery_exists | apply reads_listAttr_category
    | apply reads_get_store | apply reads_getAttr_worldMatrix
    | apply reads_xform_query_rotation_ws
    | apply reads_bind; [|intros ?] ].

Ltac pres_step :=
  match goal with
  | |- preserves (bind _ _) => apply preserves_bind; [|intros ?]
  | |- preserves (ret _) => apply preserves_ret
  | |- preserves (raise _) => apply preserves_raise
  | |- preserves (of_option _ _) => apply preserves_of_option
  | |- preserves (for_each _ _) =>
      apply triple_for_each; intros ?;
      match goal with |- triple owning ?c _ => change (preserves c) end
  | |- preserves (for_each_from _ _ _) =>
      apply triple_for_each_from; intros ? ?;
      match goal with |- triple owning ?c _ => change (preserves c) end
  | |- preserves (map_m _ _) => apply preserves_map_m; intros ?
  | |- preserves (cmds.setAttr _ _ _) => apply preserves_setAttr
  | |- preserves (cmds.rename _ _) => apply preserves_rename
  | |- preserves (cmds.parent _ _) => apply preserves_parent
  | |- preserves (cmds.delete _) => apply preserves_delete
  | |- preserves (cmds.createNode _ _ _) => apply preserves_createNode
  | |- preserves (cmds.spaceLocator _) => apply preserves_spaceLocator
  | |- preserves (cmds.addAttr _ _ cmds.TMessage _) =>
      apply preserves_addAttr; discriminate
  | |- preserves (cmds.addAttr _ _ cmds.TString _) =>
      apply preserves_addAttr; discriminate
  | |- preserves (cmds.connectAttr _ _ _ _) =>
      apply preserves_connectAttr;
      first [ apply dunder_not_protected | simpl; intuition discriminate ]
  | |- preserves (fields.set _ _ _) =>
      apply preserves_fields_set; simpl; intuition discriminate
  | |- preserves (fields.append _ _ _) =>
      apply preserves_append; simpl; first [ left; reflexivity | right; intuition discriminate ]
  | |- preserves (setAttr_channel _ _ _ _) => apply preserves_setAttr_channel
  | |- preserves (setAttr_scale _ _) => apply preserves_setAttr_scale
  | |- preserves (xform_matrix_ws _ _) => apply preserves_xform_matrix_ws
  | |- preserves (xform_rotation_ws _ _) => apply preserves_xform_rotation_ws
  | |- preserves (change_controller_shape _ _) => apply preserves_change_shape
  | |- preserves (zero_channels _ _) => apply preserves_zero_channels
  | |- preserves (if ?b then _ else _) => destruct b
  | |- preserves (match ?o with _ => _ end) => destruct o
  | |- preserves _ => apply preserves_reads; solve [reads_tac]
  end.

Ltac as_pres :=
  match goal with |- triple owning ?c (fun _ => owning) => change (preserves c) end.

Ltac pres := try as_pres; repeat pres_step.

Section Operations.

Context {codec : Codec} {host : Host}.

Lemma preserves_publish self : preserves (publish self).
Proof. unfold publish. pres. Qed.

Lemma preserves_matrix_constraint par child : preserves (matrix_constraint par child).
Proof. unfold matrix_constraint. pres. Qed.

Lemma preserves_update_parent_joint self : preserves (update_parent_joint self).
Proof.
  unfold update_parent_joint. pres; apply preserves_matrix_constraint.
Qed.

Lemma preserves__update_node_name self x : preserves (_update_node_name self x).
Proof. unfold _update_node_name. pres. Qed.

Lemma preserves_rename_persistent_attr self a : preserves (rename_persistent_attr self a).
Proof.
  unfold rename_persistent_attr.
  destruct (split "__" a) as [|p [|q [|r l]]] eqn:E; try apply preserves_raise.
  pres. apply preserves_renameAttr.
  - eapply split_not_protected; eauto.
  - apply dunder_not_protected.
Qed.

Lemma preserves_update self : preserves (update self).
Proof.
  unfold update. pres.
  - apply preserves_update_parent_joint.
  - apply preserves__update_node_name.
  - apply preserves__update_node_name.
  - apply preserves_rename_persistent_attr.
Qed.

Lemma triple_add_node self node_type role object_id description parent :
  triple owning (add_node self node_type role object_id description parent)
         (fun x => owns_node self x).
Proof.
  unfold add_node.
  eapply triple_bind; [apply preserves_reads, reads_get_string|]. intros base.
  eapply triple_bind; [apply preserves_reads, reads_get_string|]. intros sd.
  eapply triple_bind; [apply preserves_reads, reads_get_store|]. intros s0.
  destruct (cmds.objExists _ s0); [apply triple_raise; auto|].
  eapply triple_bind with (Q := fun _ => owning).
  { destruct (node_type =? "locator"); pres. }
  intros node.
  eapply triple_bind with (Q := fun _ => owning); [pres|]. intros u1.
  eapply triple_bind with (Q := fun _ => owning); [pres|]. intros u2.
  eapply triple_bind; [apply triple_append_owned|]. intros u3.
  apply triple_ret. auto.
Qed.

Lemma preserves_add_node self node_type role object_id description parent :
  preserves (add_node self node_type role object_id description parent).
Proof.
  eapply triple_weaken; [| |apply triple_add_node]; auto.
  intros a s. apply owns_node_owning.
Qed.

Lemma preserves_initialize self : preserves (initialize self).
Proof. unfold initialize. pres; apply preserves_add_node. Qed.

Lemma preserves_place_nodes self f key : preserves (place_nodes self f key).
Proof.
  unfold place_nodes. pres.
Qed.

Lemma preserves_place_placement_nodes self : preserves (place_placement_nodes self).
Proof. unfold place_placement_nodes. pres; apply preserves_place_nodes. Qed.

Lemma preserves__build self : preserves (_build RigModule self).
Proof. unfold _build. simpl c_build. unfold build. pres. Qed.

Lemma triple_owned_zero_channels self x nm channels :
  triple (owns_node self x) (zero_channels nm channels) (fun _ => owns_node self x).
Proof.
  unfold zero_channels. apply triple_for_each. intros c.
  apply triple_for_each. intros a. unfold setAttr_channel.
  apply triple_owned_modify; intros n; split; reflexivity.
Qed.

Lemma triple_owned_parent self x child par :
  triple (owns_node self x) (cmds.parent child par) (fun _ => owns_node self x).
Proof.
  unfold cmds.parent.
  eapply triple_bind; [apply triple_owned_reads, reads_of_option|]. intros pn.
  eapply triple_bind; [apply triple_owned_reads, reads_node|]. intros p.
  apply triple_owned_modify; intros n; split; reflexivity.
Qed.

Lemma preserves__add_deform_joint self parent object_id description :
  preserves (_add_deform_joint self parent object_id description).
Proof.
  unfold _add_deform_joint.
  eapply triple_bind with (Q := fun _ => owning).
  { destruct object_id; pres. }
  intros oid.
  eapply triple_bind; [apply triple_add_node|]. intros new_joint.
  eapply triple_bind with (Q := fun _ => owns_node self new_joint).
  { destruct (truthy_opt parent);
      [apply triple_ret; auto | apply triple_owned_reads, reads_get_string]. }
  intros p1.
  eapply triple_bind with (Q := fun _ => owns_node self new_joint).
  { destruct (truthy_opt p1); [apply triple_ret; auto|].
    apply triple_owned_reads. unfold rig_of. reads_tac. }
  intros p2.
  eapply triple_bind; [apply triple_owned_parent|]. intros u1.
  eapply triple_bind; [apply triple_owned_zero_channels|]. intros u2.
  eapply triple_bind; [apply triple_append_placement; now left|]. intros u3.
  apply preserves_ret.
Qed.

Lemma preserves__add_placement_locator self description object_id parent :
  preserves (_add_placement_locator self description object_id parent).
Proof.
  unfold _add_placement_locator.
  eapply triple_bind; [apply triple_add_node|]. intros locator.
  eapply triple_bind with (Q := fun _ => owns_node self locator).
  { destruct (truthy_opt parent);
      [apply triple_ret; auto | apply triple_owned_reads, reads_get_string]. }
  intros p1.
  eapply triple_bind; [apply triple_owned_parent|]. intros u1.
  eapply triple_bind; [apply triple_owned_zero_channels|]. intros u2.
  eapply triple_bind; [apply triple_append_placement; now right|]. intros u3.
  apply preserves_ret.
Qed.

Lemma preserves_create_persistent_attribute nm backup longName :
  preserves (create_persistent_attribute nm backup longName).
Proof. unfold create_persistent_attribute. pres. Qed.

Lemma preserves_snap_first_to_last a b : preserves (snap_first_to_last a b).
Proof. unfold snap_first_to_last. pres. Qed.

Lemma preserves_add_control self dag_node object_id description shape_type :
  preserves (add_control self dag_node object_id description shape_type).
Proof.
  unfold add_control, create_controller_from_name, add_parent_group, get_shape_data.
  pres; try apply preserves_create_persistent_attribute;
    try apply preserves_snap_first_to_last;
    apply preserves_modify_keeps_attrs; intros n; split; reflexivity.
Qed.

Lemma class_ok_RigModule : class_ok RigModule.
Proof.
  intros i nm t p f l Hf Hl. exists []. split; [reflexivity|].
  destruct Hf as [-> | ->]; vm_compute in Hl; inversion Hl; intros j [].
Qed.

Lemma preserves_init nm sd pj rg : preserves (init RigModule nm sd pj rg).
Proof.
  unfold init. pres;
    try (apply preserves_MopNode_init, class_ok_RigModule);
    try apply preserves_matrix_constraint;
    try apply preserves_place_placement_nodes;
    try apply preserves_update;
    apply preserves_initialize.
Qed.

End Operations.

Section MirrorOperations.

Context {codec : Codec} {host : Host} {registry : Registry}.

Lemma triple_bind_ret {A B} P (a : A) (k : A -> M B) Q :
  triple P (k a) Q -> triple P (bind (ret a) k) Q.
Proof. intros H s Hs. exact (H s Hs). Qed.

Lemma triple_the_module_mirror self :
  registry_of_RigModule ->
  triple owning (the_module_mirror self) (fun mm s => owning s /\ fst mm = RigModule).
Proof.
  intros Hreg. unfold the_module_mirror, module_mirror.
  eapply triple_bind
    with (Q := fun o s => owning s /\ forall mm, o = Some mm -> fst mm = RigModule).
  - eapply triple_bind; [apply preserves_reads, reads_get_string|]. intros mirror_node.
    destruct mirror_node as [x|]; [|apply triple_ret; intros; split; [auto|discriminate]].
    destruct (truthy_opt (Some x)); [|apply triple_ret; intros; split; [auto|discriminate]].
    eapply triple_bind; [apply preserves_reads, reads_get_string|]. intros mt.
    destruct mt as [t|]; [|apply triple_raise; auto].
    destruct (all_rig_modules t) as [C|] eqn:E; [|apply triple_raise; auto].
    rewrite (Hreg t C E). simpl of_option. apply triple_bind_ret.
    eapply triple_bind; [apply preserves_init|]. intros m.
    apply triple_ret. intros s Hs. split; auto. now intros mm [= <-].
  - intros [mm|].
    + apply triple_ret. intros s [Hs Hmm]. auto.
    + apply triple_raise. now intros s [Hs _].
Qed.

Lemma preserves_the_module_mirror self :
  registry_of_RigModule -> preserves (the_module_mirror self).
Proof.
  intros Hreg. eapply triple_weaken; [| |apply triple_the_module_mirror]; auto.
  now intros a s [H _].
Qed.

Lemma preserves_mirrored_value self field :
  registry_of_RigModule -> preserves (mirrored_value self field).
Proof.
  intros Hreg. unfold mirrored_value.
  destruct (f_kind field); pres; now apply preserves_the_module_mirror.
Qed.

Lemma preserves_sync_field self field :
  registry_of_RigModule ->
  (f_editable field = true -> ~ In (f_name field) protected) ->
  preserves (sync_field self field).
Proof.
  intros Hreg Hfield. unfold sync_field.
  destruct (existsb _ _); [apply preserves_ret|].
  destruct (f_editable field); [|apply preserves_ret].
  apply preserves_bind; [now apply preserves_mirrored_value|]. intros v.
  destruct (truthy v); [|apply preserves_ret].
  apply preserves_fields_set. auto.
Qed.

Lemma preserves_mirror_node_pair mt a b : preserves (mirror_node_pair mt a b).
Proof. unfold mirror_node_pair. pres. Qed.

Lemma preserves_mirror_nodes self :
  registry_of_RigModule -> preserves (mirror_nodes self).
Proof.
  intros Hreg. unfold mirror_nodes. pres;
    try (now apply preserves_the_module_mirror); apply preserves_mirror_node_pair.
Qed.

Lemma triple_for_each_in {A} (P : Store -> Prop) (l : list A) (body : A -> M unit) :
  (forall x, In x l -> triple P (body x) (fun _ => P)) ->
  triple P (for_each l body) (fun _ => P).
Proof.
  induction l as [|x l IH]; intros Hb; simpl.
  - apply triple_ret. auto.
  - eapply triple_bind; [apply Hb; now left | intros u; apply IH].
    intros y Hy. apply Hb. now right.
Qed.

Lemma RigModule_editable_fields field :
  In field RigModule_fields -> f_editable field = true -> ~ In (f_name field) protected.
Proof.
  unfold RigModule_fields. simpl.
  intros H. repeat (destruct H as [<-|H]; [simpl; intros; intuition discriminate|]).
  destruct H.
Qed.

Lemma preserves_update_mirror self :
  registry_of_RigModule -> preserves (update_mirror self).
Proof.
  intros Hreg. unfold update_mirror.
  eapply triple_bind; [now apply triple_the_module_mirror|]. intros mm.
  eapply triple_bind with (Q := fun _ => owning).
  - intros s [Hs Hmm]. rewrite Hmm.
    revert s Hs. apply triple_for_each_in. intros field Hin.
    apply preserves_sync_field; auto. now apply RigModule_editable_fields.
  - intros u. pres.
    + apply preserves_update.
    + now apply preserves_mirror_nodes.
Qed.

End MirrorOperations.

(** C2. When [is_built] is true, [update()] returns at once: the module and
    the whole store are what they were. *)
Theorem update_noop_when_built `{Codec} (self : Module) (s : Store) :
  fields.get self fields.is_built s = Ok (PBool true) s ->
  update self s = Ok self s.
Proof.
  intros Hb. unfold update. rewrite (bind_step _ _ _ _ _ Hb). reflexivity.
Qed.

(** C9. [publish()] twice leaves the store that [publish()] once leaves;
    a call that returns has only set the [visibility] attribute of the
    extras group to false, and a call that raises has changed nothing. *)
Theorem publish_idempotent (self : Module) (s : Store) :
  state_of (publish self (state_of (publish self s))) = state_of (publish self s)
  /\ (forall s1, publish self s = Ok tt s1 ->
      exists g n,
        fields.get_string self extras_group s = Ok (Some g) s
        /\ find_node g s = Some n
        /\ s1 = update_node (n_id n) (set_attr_val "visibility" (ABool false)) s)
  /\ (forall e s1, publish self s = Raise e s1 -> s1 = s).
Proof.
  split; [|split].
  - destruct (publish self s) as [[] s1|e s1] eqn:E; simpl.
    + now rewrite (publish_again _ _ _ E).
    + rewrite (publish_raised_inv _ _ _ _ E), E. simpl.
      now rewrite (publish_raised_inv _ _ _ _ E).
  - intros s1 E. destruct (publish_ok_inv _ _ _ E) as (g & n & x & Hg & Hn & _ & Hs).
    exists g, n. auto.
  - intros e s1 E. exact (publish_raised_inv _ _ _ _ E).
Qed.

Section Construction.

Context {codec : Codec} {host : Host} {registry : Registry}.

(** C8, amended. The constructor called with the name of an existing node
    whose [is_initialized] flag is true re-attaches to it: no node is
    created and no field is written, the store is left as it was. *)
Theorem init_reattaches_initialized (C : ModuleClass) (nm sd : string)
    (pj : option string) (rg : option Rig) (s : Store) :
  cmds.objExists nm s = true ->
  fields.get (mkModule nm rg (c_name C)) fields.is_initialized s = Ok (PBool true) s ->
  init C nm sd pj rg s = Ok (mkModule nm rg (c_name C)) s.
Proof.
  intros Hex Hinit. unfold init.
  rewrite (bind_step _ _ _ s s (eq_refl : get_store s = Ok s s)).
  rewrite Hex.
  assert (E : fields.MopNode_init C nm s = Ok tt s).
  { unfold fields.MopNode_init.
    rewrite (bind_step _ _ _ s s (eq_refl : get_store s = Ok s s)).
    now rewrite Hex. }
  rewrite (bind_step _ _ _ _ _ E), (bind_step _ _ _ _ _ Hinit). reflexivity.
Qed.

(** C10. A round of the field loop of [update_mirror()], for an editable
    field other than [name] and [side]: when the value taken from the mirror
    module (after the translation of node references) is falsy, no field is
    set; when moreover the mirror module re-attaches without touching the
    store, the store, and with it the field on [self], is what it was. *)
Theorem sync_field_skips_falsy (self : Module) (field : Field) (s s' : Store) (v : PyVal) :
  ~ In (f_name field) ["name"; "side"] ->
  f_editable field = true ->
  mirrored_value self field s = Ok v s' ->
  truthy v = false ->
  sync_field self field s = Ok tt s'
  /\ (forall mm, the_module_mirror self s = Ok mm s ->
        s' = s /\ fields.get self field s' = fields.get self field s).
Proof.
  intros Hname Hed Hv Hfalsy. split.
  - unfold sync_field.
    assert (E : existsb (String.eqb (f_name field)) ["name"; "side"] = false).
    { simpl. simpl in Hname.
      destruct (f_name field =? "name") eqn:E1;
        [apply String.eqb_eq in E1; exfalso; apply Hname; auto|].
      destruct (f_name field =? "side") eqn:E2;
        [apply String.eqb_eq in E2; exfalso; apply Hname; auto|].
      reflexivity. }
    rewrite E, Hed, (bind_step _ _ _ _ _ Hv), Hfalsy. reflexivity.
  - intros mm Hmm.
    assert (s' = s); [|subst; auto].
    unfold mirrored_value in Hv.
    destruct (f_kind field);
      rewrite (bind_step _ _ _ _ _ Hmm) in Hv.
    + exact (reads_ok _ _ _ _ (reads_get _ _) Hv).
    + exact (reads_ok _ _ _ _ (reads_get _ _) Hv).
    + apply bind_ok in Hv. destruct Hv as (o & s1 & Ho & Hv).
      inversion Hv; subst.
      exact (reads_ok _ _ _ _ (reads_get_string _ _) Ho).
    + apply bind_ok in Hv. destruct Hv as (o & s1 & Ho & Hv).
      inversion Hv; subst.
      exact (reads_ok _ _ _ _ (reads_get_list _ _) Ho).
    + exact (reads_ok _ _ _ _ (reads_get _ _) Hv).
Qed.

End Construction.

Section Invariant.

Context {codec : Codec} {host : Host} {registry : Registry}.

(** C4, amended. On a store with distinct node identities, all of them
    handed out by the store, the invariant "every node referenced in
    [deform_joints] or [placement_locators] is also referenced in
    [owned_nodes]" is kept, whether they return or raise, by the constructor
    and [_build] of the class [RigModule], by [initialize],
    [place_placement_nodes], [update_parent_joint], [update], [publish],
    [add_node], [_add_deform_joint], [_add_placement_locator] and
    [add_control], and by [update_mirror] when every class of the registry is
    [RigModule]: [update_mirror] constructs the mirror module with the class
    the registry gives, and so may run the [initialize] of that class.  The
    list [controllers] is not part of the invariant: [add_control] does not
    record its controller in [owned_nodes]. *)
Theorem placement_nodes_stay_owned (self : Module) :
  (forall nm sd pj rg, preserves (init RigModule nm sd pj rg))
  /\ preserves (initialize self)
  /\ preserves (place_placement_nodes self)
  /\ preserves (update_parent_joint self)
  /\ preserves (update self)
  /\ preserves (_build RigModule self)
  /\ preserves (publish self)
  /\ (forall node_type role object_id description parent,
        preserves (add_node self node_type role object_id description parent))
  /\ (forall parent object_id description,
        preserves (_add_deform_joint self parent object_id description))
  /\ (forall description object_id parent,
        preserves (_add_placement_locator self description object_id parent))
  /\ (forall dag_node object_id description shape_type,
        preserves (add_control self dag_node object_id description shape_type))
  /\ (registry_of_RigModule -> preserves (update_mirror self)).
Proof.
  split; [intros; apply preserves_init|].
  split; [apply preserves_initialize|].
  split; [apply preserves_place_placement_nodes|].
  split; [apply preserves_update_parent_joint|].
  split; [apply preserves_update|].
  split; [apply preserves__build|].
  split; [apply preserves_publish|].
  split; [intros; apply preserves_add_node|].
  split; [intros; apply preserves__add_deform_joint|].
  split; [intros; apply preserves__add_placement_locator|].
  split; [intros; apply preserves_add_control|].
  intros. now apply preserves_update_mirror.
Qed.

End Invariant.

(** * Further properties of the module life cycle *)

(** ** The reflexions of [update_mirror] *)

Section MirrorAlgebra.

Ltac mat_cases m :=
  let r0 := fresh "r" in let r1 := fresh "r" in
  let r2 := fresh "r" in let r3 := fresh "r" in
  destruct m as [[[r0 r1] r2] r3];
  destruct r0 as [[[? ?] ?] ?]; destruct r1 as [[[? ?] ?] ?];
  destruct r2 as [[[? ?] ?] ?]; destruct r3 as [[[? ?] ?] ?].

Ltac mat_unfold :=
  cbv [behavior_mat orientation_mat mmul row_mul row_dot_col local_reflexion_mat
       world_reflexion_mat position reflect_x det3].

(** X1. The matrix computed for the mirror type [Behavior] is an involution:
    mirroring the mirrored matrix gives the matrix of the source back. *)
Theorem behavior_mirror_involutive (m : Mat4) :
  behavior_mat (behavior_mat m) = m.
Proof.
  mat_cases m. mat_unfold. repeat f_equal; lra.
Qed.

(** X2. The matrix of the mirror type [Behavior] keeps the handedness of the
    axes of the source: it is again a proper frame.  The product computed
    for the mirror type [Orientation] reverses it, which is why that branch
    goes on to overwrite the scale and the rotation. *)
Theorem mirror_handedness (m : Mat4) :
  det3 (behavior_mat m) = det3 m
  /\ det3 (orientation_mat m) = (- det3 m)%R.
Proof.
  mat_cases m. mat_unfold. split; ring.
Qed.

Lemma position_behavior_mat m : position (behavior_mat m) = reflect_x (position m).
Proof.
  mat_cases m. mat_unfold. repeat f_equal; lra.
Qed.

Lemma position_orientation_mat m : position (orientation_mat m) = reflect_x (position m).
Proof.
  mat_cases m. mat_unfold. repeat f_equal; lra.
Qed.

End MirrorAlgebra.

Section MirrorGeometry.

Context {codec : Codec} {host : Host} {registry : Registry}.

Lemma mirror_pair_mirrored (mt src tgt : string) (s : Store) (ns nt : Node) :
  lower mt = "behavior" \/ lower mt = "orientation" ->
  find_node src s = Some ns -> find_node tgt s = Some nt -> n_id ns <> n_id nt ->
  mirror_node_pair (Some mt) src tgt s
  = Ok tt (update_node (n_id nt) (set_xform_by (mirrored mt (n_xform ns))) s).
Proof.
  intros [Hmt|Hmt] Hs Ht Hne; unfold mirrored; rewrite Hmt; simpl.
  - now apply mirror_pair_behavior.
  - now apply mirror_pair_orientation.
Qed.

Lemma map_snd_combine {A B} (l1 : list A) (l2 : list B) :
  map snd (combine l1 l2) = firstn (length l1) l2.
Proof.
  revert l2. induction l1 as [|a l1 IH]; intros [|b l2]; simpl; auto.
  now rewrite IH.
Qed.

(** The second phase of [update_mirror], with what it leaves alone. *)
Lemma mirror_nodes_run (self : Module) (mm : ModuleClass * Module)
    (oj ol nj nl : list string) (mt : string) (s : Store) :
  lower mt = "behavior" \/ lower mt = "orientation" ->
  the_module_mirror self s = Ok mm s ->
  fields.get_list (snd mm) deform_joints s = Ok oj s ->
  fields.get_list (snd mm) placement_locators s = Ok ol s ->
  fields.get_list self deform_joints s = Ok nj s ->
  fields.get_list self placement_locators s = Ok nl s ->
  fields.get_string self mirror_type s = Ok (Some mt) s ->
  distinct_ids s ->
  NoDup (map snd (combine (oj ++ ol) (nj ++ nl))) ->
  (forall p q, In p (combine (oj ++ ol) (nj ++ nl)) ->
               In q (combine (oj ++ ol) (nj ++ nl)) -> fst p <> snd q) ->
  exists s',
    mirror_nodes self s = Ok tt s'
    /\ (forall i src tgt ns nt,
          nth_error (oj ++ ol) i = Some src -> nth_error (nj ++ nl) i = Some tgt ->
          find_node src s = Some ns -> find_node tgt s = Some nt ->
          find_node tgt s' = Some (set_xform_by (mirrored mt (n_xform ns)) nt))
    /\ (forall y n, ~ In y (firstn (length (oj ++ ol)) (nj ++ nl)) ->
          find_node y s = Some n -> find_node y s' = Some n).
Proof.
  intros Hmt Hmm Hoj Hol Hnj Hnl Hty Hd Hnd Hdisj.
  assert (Hex : forall p, In p (combine (oj ++ ol) (nj ++ nl)) ->
                 find_node (fst p) s <> None /\ find_node (snd p) s <> None).
  { intros [a b] Hin. simpl. split.
    - apply in_combine_l in Hin. apply in_app_or in Hin.
      destruct Hin as [Hin|Hin];
        [exact (get_list_exist _ _ _ _ _ _ Hoj Hin) | exact (get_list_exist _ _ _ _ _ _ Hol Hin)].
    - apply in_combine_r in Hin. apply in_app_or in Hin.
      destruct Hin as [Hin|Hin];
        [exact (get_list_exist _ _ _ _ _ _ Hnj Hin) | exact (get_list_exist _ _ _ _ _ _ Hnl Hin)]. }
  destruct (mirror_loop (fun a b => mirror_node_pair (Some mt) a b) (mirrored mt)
              (fun src tgt s0 ns nt => mirror_pair_mirrored mt src tgt s0 ns nt Hmt)
              (combine (oj ++ ol) (nj ++ nl)) s Hd Hnd Hdisj Hex)
    as (s' & Hrun & Hpost & Hframe).
  exists s'. split; [|split].
  - unfold mirror_nodes.
    rewrite (bind_step _ _ _ _ _ Hmm), (bind_step _ _ _ _ _ Hoj).
    rewrite (bind_step _ _ _ _ _ Hmm), (bind_step _ _ _ _ _ Hol).
    rewrite (bind_step _ _ _ _ _ Hnj), (bind_step _ _ _ _ _ Hnl).
    rewrite (bind_step _ _ _ _ _ Hty). exact Hrun.
  - intros i src tgt ns nt H1 H2 Hs Ht.
    apply (Hpost src tgt ns nt); auto. eapply nth_error_combine; eauto.
  - intros y n Hy. apply Hframe. now rewrite map_snd_combine.
Qed.

Lemma position_mirrored mt src tgt :
  lower mt = "behavior" \/ lower mt = "orientation" ->
  position (t_matrix (mirrored mt src tgt)) = reflect_x (position (t_matrix src))
  /\ t_scale (mirrored mt src tgt) = (1, 1, 1)%R.
Proof.
  intros [Hmt|Hmt]; unfold mirrored; rewrite Hmt; cbn [String.eqb Ascii.eqb Bool.eqb];
    split; try reflexivity.
  - unfold behavior_mirrored, tf_set_scale, recompose. cbn [t_matrix tf_of_matrix].
    rewrite position_set_position.
    rewrite <- world_reflexion_mat_diag, <- local_reflexion_mat_diag.
    apply position_behavior_mat.
  - unfold orientation_mirrored, tf_set_rotate, tf_set_scale, recompose.
    cbn [t_matrix tf_of_matrix]. rewrite !position_set_position.
    rewrite <- world_reflexion_mat_diag. apply position_orientation_mat.
Qed.

(** X3. With either mirror type, the mirroring loop of [update_mirror]
    leaves every target at the mirror image, through the YZ plane, of the
    position its source has, with the scale (1,1,1).  The module has a
    mirror module, the targets are distinct and none of them is a source. *)
Theorem update_mirror_reflects_positions (self : Module) (mm : ModuleClass * Module)
    (oj ol nj nl : list string) (mt : string) (s : Store) :
  lower mt = "behavior" \/ lower mt = "orientation" ->
  the_module_mirror self s = Ok mm s ->
  fields.get_list (snd mm) deform_joints s = Ok oj s ->
  fields.get_list (snd mm) placement_locators s = Ok ol s ->
  fields.get_list self deform_joints s = Ok nj s ->
  fields.get_list self placement_locators s = Ok nl s ->
  fields.get_string self mirror_type s = Ok (Some mt) s ->
  distinct_ids s ->
  NoDup (map snd (combine (oj ++ ol) (nj ++ nl))) ->
  (forall p q, In p (combine (oj ++ ol) (nj ++ nl)) ->
               In q (combine (oj ++ ol) (nj ++ nl)) -> fst p <> snd q) ->
  exists s',
    mirror_nodes self s = Ok tt s'
    /\ forall i src tgt ns nt,
        nth_error (oj ++ ol) i = Some src -> nth_error (nj ++ nl) i = Some tgt ->
        find_node src s = Some ns -> find_node tgt s = Some nt ->
        exists nt',
          find_node tgt s' = Some nt'
          /\ position (t_matrix (n_xform nt'))
             = reflect_x (position (t_matrix (n_xform ns)))
          /\ t_scale (n_xform nt') = (1, 1, 1)%R.
Proof.
  intros Hmt Hmm Hoj Hol Hnj Hnl Hty Hd Hnd Hdisj.
  destruct (mirror_nodes_run self mm oj ol nj nl mt s) as (s' & Hrun & Hpost & _); auto.
  exists s'. split; [exact Hrun|].
  intros i src tgt ns nt H1 H2 Hs Ht.
  exists (set_xform_by (mirrored mt (n_xform ns)) nt).
  split; [eapply Hpost; eauto|].
  exact (position_mirrored mt (n_xform ns) (n_xform nt) Hmt).
Qed.

(** X4. The pairs of the mirroring loop of [update_mirror] are those of
    [zip]: the nodes of the longer list that have no counterpart, the
    sources, and every other node of the scene are left as they were. *)
Theorem update_mirror_leaves_unpaired (self : Module) (mm : ModuleClass * Module)
    (oj ol nj nl : list string) (mt : string) (s : Store) :
  lower mt = "behavior" \/ lower mt = "orientation" ->
  the_module_mirror self s = Ok mm s ->
  fields.get_list (snd mm) deform_joints s = Ok oj s ->
  fields.get_list (snd mm) placement_locators s = Ok ol s ->
  fields.get_list self deform_joints s = Ok nj s ->
  fields.get_list self placement_locators s = Ok nl s ->
  fields.get_string self mirror_type s = Ok (Some mt) s ->
  distinct_ids s ->
  NoDup (map snd (combine (oj ++ ol) (nj ++ nl))) ->
  (forall p q, In p (combine (oj ++ ol) (nj ++ nl)) ->
               In q (combine (oj ++ ol) (nj ++ nl)) -> fst p <> snd q) ->
  exists s',
    mirror_nodes self s = Ok tt s'
    /\ forall y n, ~ In y (firstn (length (oj ++ ol)) (nj ++ nl)) ->
         find_node y s = Some n -> find_node y s' = Some n.
Proof.
  intros Hmt Hmm Hoj Hol Hnj Hnl Hty Hd Hnd Hdisj.
  destruct (mirror_nodes_run self mm oj ol nj nl mt s) as (s' & Hrun & _ & Hframe); auto.
  exists s'. split; [exact Hrun | exact Hframe].
Qed.

End MirrorGeometry.

(** ** Reading back what was written *)

Lemma bind_ret {A B} (a : A) (k : A -> M B) s : bind (ret a) k s = k a s.
Proof. reflexivity. Qed.

Lemma attr_inv nm a s x s' :
  cmds.attr nm a s = Ok x s' ->
  exists n, find_node nm s = Some n /\ find_attr a n = Some x /\ s' = s.
Proof.
  unfold cmds.attr. intros H.
  apply bind_ok in H. destruct H as (n & s1 & Hn & Hx).
  apply node_inv in Hn. destruct Hn as [Hn ->].
  apply of_option_ok in Hx. destruct Hx as [Hx ->]. eauto.
Qed.

Lemma getAttr_ok nm a s n x :
  find_node nm s = Some n -> find_attr a n = Some x ->
  cmds.getAttr nm a s = Ok (cmds.py_of_attr (a_val x) s) s.
Proof.
  intros Hn Hx. unfold cmds.getAttr.
  now rewrite (bind_step _ _ _ _ _ (attr_ok _ _ _ _ _ Hn Hx)).
Qed.

Lemma getAttr_inv nm a s v s' :
  cmds.getAttr nm a s = Ok v s' ->
  exists n x, find_node nm s = Some n /\ find_attr a n = Some x
              /\ v = cmds.py_of_attr (a_val x) s /\ s' = s.
Proof.
  unfold cmds.getAttr. intros H.
  apply bind_ok in H. destruct H as (x & s1 & Hx & H).
  apply attr_inv in Hx. destruct Hx as (n & Hn & Hx & ->).
  inversion H; subst. exists n, x. auto.
Qed.

(** What a successful [setAttr] did. *)
Lemma setAttr_inv nm a v s s' :
  cmds.setAttr nm a v s = Ok tt s' ->
  exists n x av,
    find_node nm s = Some n /\ find_attr a n = Some x
    /\ s' = update_node (n_id n) (set_attr_val a av) s
    /\ (forall s0, cmds.py_of_attr av s0 = v).
Proof.
  unfold cmds.setAttr. intros H.
  apply bind_ok in H. destruct H as (x & s1 & Hx & H).
  apply attr_inv in Hx. destruct Hx as (n & Hn & Hx & ->).
  destruct (a_val x), v; try discriminate;
    rewrite (modify_ok _ _ _ _ Hn) in H; inversion H; subst;
    do 3 eexists; (split; [exact Hn|]); (split; [exact Hx|]);
    (split; [reflexivity|]); reflexivity.
Qed.

Lemma setAttr_then_getAttr nm a v s s' :
  cmds.setAttr nm a v s = Ok tt s' -> cmds.getAttr nm a s' = Ok v s'.
Proof.
  intros H. destruct (setAttr_inv _ _ _ _ _ H) as (n & x & av & Hn & Hx & -> & Hv).
  pose proof (find_node_touched _ _ _ _ _ (set_attr_val_keeps a av) Hn eq_refl) as Hn'.
  rewrite (getAttr_ok _ _ _ _ _ Hn' (find_attr_set_attr_val_same _ av _ _ Hx)).
  simpl a_val. now rewrite Hv.
Qed.

Section SteadyStates.

Context {codec : Codec} {host : Host} {registry : Registry}.

(** X5. [update_mirror] on a module without a mirror module raises the
    [AttributeError] of [None.fields] before anything is changed, and
    [is_mirrored] is false. *)
Theorem update_mirror_without_mirror (self : Module) (s : Store) :
  fields.get_string self _module_mirror s = Ok None s ->
  update_mirror self s = Raise AttributeError s
  /\ is_mirrored self s = Ok false s.
Proof.
  intros H.
  assert (E : module_mirror self s = Ok None s).
  { unfold module_mirror. now rewrite (bind_step _ _ _ _ _ H). }
  split.
  - unfold update_mirror, the_module_mirror.
    unfold bind at 1. unfold bind at 1. now rewrite E.
  - unfold is_mirrored. now rewrite (bind_step _ _ _ _ _ E).
Qed.

(** X6. The base class cannot be built: [_build] raises [NotImplementedError]
    and [is_built] is not set.  For a class whose [build] returns, [_build]
    sets [is_built], and from then on [update] changes nothing. *)
Theorem build_freezes_update (C : ModuleClass) (self : Module) (s : Store) :
  _build RigModule self s = Raise NotImplementedError s
  /\ forall s', _build C self s = Ok tt s' ->
       fields.get self fields.is_built s' = Ok (PBool true) s'
       /\ update self s' = Ok self s'.
Proof.
  split; [reflexivity|]. intros s' H. unfold _build in H.
  apply bind_ok in H. destruct H as ([] & s1 & _ & H).
  assert (E : fields.get self fields.is_built s' = Ok (PBool true) s').
  { unfold fields.get. simpl f_name. apply (setAttr_then_getAttr _ _ _ s1). exact H. }
  split; [exact E|]. unfold update. now rewrite (bind_step _ _ _ _ _ E).
Qed.

Lemma update_parent_joint_idle (self : Module) (s : Store) :
  cmds.listConnections_source (node_name self) "translate" s = Ok [] s ->
  fields.get_string self parent_joint s = Ok None s ->
  update_parent_joint self s = Ok tt s.
Proof.
  intros Hc Hp. unfold update_parent_joint.
  rewrite (bind_step _ _ _ _ _ Hc). simpl map_m.
  rewrite (bind_step _ _ _ [] s (eq_refl : ret [] s = Ok [] s)). simpl.
  rewrite (bind_step _ _ _ tt s (eq_refl : ret tt s = Ok tt s)).
  now rewrite (bind_step _ _ _ _ _ Hp).
Qed.

(** X7. [update] in the steady state: the name and the side are those of the
    node name, nothing drives the translation of the module and there is
    no parent joint.  Nothing is renamed and the store is left as it was,
    also when the module is not built. *)
Theorem update_steady_state (self : Module) (s : Store) (v : PyVal) (md : Metadata) :
  fields.get self fields.is_built s = Ok v s ->
  cmds.listConnections_source (node_name self) "translate" s = Ok [] s ->
  fields.get_string self parent_joint s = Ok None s ->
  metadata_from_name (node_name self) = Some md ->
  fields.get_string self name s = Ok (md_base_name md) s ->
  fields.get_string self side s = Ok (md_side md) s ->
  update self s = Ok self s.
Proof.
  intros Hb Hc Hp Hmd Hn Hs. unfold update.
  rewrite (bind_step _ _ _ _ _ Hb). destruct (truthy v); [reflexivity|].
  rewrite (bind_step _ _ _ _ _ (update_parent_joint_idle self s Hc Hp)).
  rewrite Hmd. simpl of_option.
  rewrite (bind_step _ _ _ md s (eq_refl : ret md s = Ok md s)).
  rewrite (bind_step _ _ _ _ _ Hn), (bind_step _ _ _ _ _ Hs).
  assert (E : forall o, opt_eqb o o = true).
  { intros [x|]; simpl; [apply String.eqb_refl | reflexivity]. }
  now rewrite !E.
Qed.

End SteadyStates.

(** ** The constructor *)

Section Constructor.

Context {codec : Codec} {host : Host} {registry : Registry}.

(** [update] returns the instance it was called on, up to its node name. *)
Lemma update_keeps_instance (self m : Module) (s s' : Store) :
  update self s = Ok m s' -> rig m = rig self /\ class_name m = class_name self.
Proof.
  unfold update. intros H.
  apply bind_ok in H. destruct H as (built & s1 & _ & H).
  destruct (truthy built); [inversion H; auto|].
  apply bind_ok in H. destruct H as ([] & s2 & _ & H).
  apply bind_ok in H. destruct H as (md & s3 & _ & H).
  apply bind_ok in H. destruct H as (nm & s4 & _ & H).
  apply bind_ok in H. destruct H as (sd & s5 & _ & H).
  destruct (_ || _); [|inversion H; auto].
  apply bind_ok in H. destruct H as (new_name & s6 & _ & H).
  apply bind_ok in H. destruct H as (owned & s7 & _ & H).
  apply bind_ok in H. destruct H as ([] & s8 & _ & H).
  apply bind_ok in H. destruct H as (attrs & s9 & _ & H).
  apply bind_ok in H. destruct H as ([] & s10 & _ & H).
  inversion H; auto.
Qed.

(** The node name the constructor works on. *)
Lemma init_reattach (C : ModuleClass) (nm sd : string) (pj : option string)
    (rg : option Rig) (s : Store) (v : PyVal) :
  let backing := if cmds.objExists nm s then nm
                 else name_from_metadata (mkMetadata (Some nm) (Some sd) "mod" None None) in
  fields.get (mkModule backing rg (c_name C)) fields.is_initialized s = Ok v s ->
  truthy v = true ->
  init C nm sd pj rg s = Ok (mkModule backing rg (c_name C)) s.
Proof.
  intros backing Hget Hv. unfold init.
  rewrite (bind_step _ _ _ s s (eq_refl : get_store s = Ok s s)). fold backing.
  assert (Hex : cmds.objExists backing s = true).
  { apply getAttr_inv in Hget. destruct Hget as (n & x & Hn & _).
    exact (objExists_true _ _ _ Hn). }
  assert (E : fields.MopNode_init C backing s = Ok tt s).
  { unfold fields.MopNode_init.
    rewrite (bind_step _ _ _ s s (eq_refl : get_store s = Ok s s)).
    now rewrite Hex. }
  rewrite (bind_step _ _ _ _ _ E), (bind_step _ _ _ _ _ Hget), Hv. reflexivity.
Qed.

(** What the constructor leaves: the instance is the one of the class and
    the rig it was given, and its node is initialized. *)
Lemma init_ok_inv (C : ModuleClass) (nm sd : string) (pj : option string)
    (rg : option Rig) (s s' : Store) (m : Module) :
  init C nm sd pj rg s = Ok m s' ->
  rig m = rg /\ class_name m = c_name C
  /\ exists v, fields.get m fields.is_initialized s' = Ok v s' /\ truthy v = true.
Proof.
  unfold init. intros H.
  apply bind_ok in H. destruct H as (s0 & s1 & Hs0 & H). inversion Hs0; subst s0 s1.
  apply bind_ok in H. destruct H as ([] & s2 & _ & H).
  apply bind_ok in H. destruct H as (v & s3 & Hv & H).
  destruct (truthy v) eqn:Ev.
  { inversion H; subst. split; [reflexivity|]. split; [reflexivity|].
    exists v. split; [|exact Ev].
    pose proof (reads_ok _ _ _ _ (reads_get _ _) Hv). now subst. }
  apply bind_ok in H. destruct H as ([] & s4 & _ & H).
  apply bind_ok in H. destruct H as ([] & s5 & _ & H).
  apply bind_ok in H. destruct H as ([] & s6 & _ & H).
  apply bind_ok in H. destruct H as (par & s7 & _ & H).
  apply bind_ok in H. destruct H as (r & s8 & _ & H).
  apply bind_ok in H. destruct H as ([] & s9 & _ & H).
  apply bind_ok in H. destruct H as ([] & s10 & _ & H).
  apply bind_ok in H. destruct H as ([] & s11 & _ & H).
  apply bind_ok in H. destruct H as ([] & s12 & _ & H).
  apply bind_ok in H. destruct H as (self' & s13 & Hup & H).
  apply bind_ok in H. destruct H as ([] & s14 & Hset & H).
  inversion H; subst.
  destruct (update_keeps_instance _ _ _ _ Hup) as [Hr Hc]. simpl in Hr, Hc.
  split; [exact Hr|]. split; [exact Hc|].
  exists (PBool true). split; [|reflexivity].
  unfold fields.get. simpl f_name. apply (setAttr_then_getAttr _ _ _ s13). exact Hset.
Qed.

(** X8. Constructing a module a second time, with the name, the side and the
    rig of the first construction, gives the same instance and changes
    nothing, as long as the name still leads to the node of the first
    construction: the node is found initialized.  The parent joint of the
    second call is not looked at. *)
Theorem init_twice (C : ModuleClass) (nm sd : string) (pj pj' : option string)
    (rg : option Rig) (s s' : Store) (m : Module) :
  init C nm sd pj rg s = Ok m s' ->
  node_name m = (if cmds.objExists nm s' then nm
                 else name_from_metadata (mkMetadata (Some nm) (Some sd) "mod" None None)) ->
  init C nm sd pj' rg s' = Ok m s'.
Proof.
  intros H Hname.
  destruct (init_ok_inv _ _ _ _ _ _ _ _ H) as (Hr & Hc & v & Hv & Htrue).
  assert (Em : m = mkModule (node_name m) rg (c_name C)).
  { destruct m as [n r c]. simpl in *. now subst. }
  pose proof (init_reattach C nm sd pj' rg s' v) as K. cbv zeta in K.
  rewrite <- Hname, <- Em in K. exact (K Hv Htrue).
Qed.

End Constructor.

(** ** Parent modules *)

Section Parents.

Context {codec : Codec} {host : Host} {registry : Registry}.

Lemma parent_module_of_root (self : Module) (s : Store) :
  is_root s self -> parent_module self s = Ok None s.
Proof.
  intros H. unfold parent_module. now rewrite (bind_step _ _ _ _ _ H).
Qed.

Lemma find_non_mirrored_parents_step (depth : nat) (self : Module)
    (acc : option (list (ModuleClass * Module))) (p : ModuleClass * Module) (s : Store) :
  parent_is s self p -> unmirrored_side s p ->
  find_non_mirrored_parents (S depth) self acc s
  = find_non_mirrored_parents depth (snd p)
      (Some (match acc with Some l => l | None => [] end ++ [p])%list) s.
Proof.
  intros Hp (Hm & sd & Hsd & Hne). simpl.
  rewrite (bind_step _ _ _ _ _ Hp). simpl of_option.
  rewrite (bind_step _ _ _ p s (eq_refl : ret p s = Ok p s)).
  rewrite (bind_step _ _ _ _ _ Hm).
  assert (E : (sd0 <- fields.get_string (snd p) side;;
               ret (negb (opt_eqb sd0 (Some "M")))) s = Ok true s).
  { rewrite (bind_step _ _ _ _ _ Hsd). unfold ret. f_equal.
    destruct (opt_eqb sd (Some "M")) eqn:E; [|reflexivity].
    apply opt_eqb_eq in E. contradiction. }
  now rewrite (bind_step _ _ _ _ _ E).
Qed.

Lemma find_non_mirrored_parents_stop (depth : nat) (self : Module)
    (acc : option (list (ModuleClass * Module))) (s : Store) :
  reaches_stop s self ->
  find_non_mirrored_parents (S depth) self acc s
  = Ok (match acc with Some l => l | None => [] end) s.
Proof.
  intros (q & Hq & Hstop). simpl.
  rewrite (bind_step _ _ _ _ _ Hq). simpl of_option.
  rewrite (bind_step _ _ _ q s (eq_refl : ret q s = Ok q s)).
  destruct Hstop as [(mm & Hm)|(Hm & Hsd)]; rewrite (bind_step _ _ _ _ _ Hm).
  - now rewrite (bind_step _ _ _ false s (eq_refl : ret false s = Ok false s)).
  - assert (E : (sd0 <- fields.get_string (snd q) side;;
                 ret (negb (opt_eqb sd0 (Some "M")))) s = Ok false s).
    { now rewrite (bind_step _ _ _ _ _ Hsd). }
    now rewrite (bind_step _ _ _ _ _ E).
Qed.

(** X9. [find_non_mirrored_parents] returns the successive parent modules that
    are unmirrored and on a side, nearest first, after the modules of the
    list it was given; the walk ends at the first parent that has a mirror
    module or is in the middle, which is not listed.  Nothing is changed. *)
Theorem find_non_mirrored_parents_walk (ps : list (ModuleClass * Module)) :
  forall (depth : nat) (self : Module) (acc : option (list (ModuleClass * Module)))
         (s : Store),
    walk s self ps (reaches_stop s) ->
    length ps < depth ->
    find_non_mirrored_parents depth self acc s
    = Ok (match acc with Some l => l | None => [] end ++ ps)%list s.
Proof.
  induction ps as [|p ps IH]; intros depth self acc s Hw Hd;
    (destruct depth as [|depth]; [simpl in Hd; lia|]).
  - rewrite app_nil_r. now apply find_non_mirrored_parents_stop.
  - destruct Hw as (Hp & Hu & Hw).
    rewrite (find_non_mirrored_parents_step depth self acc p s Hp Hu).
    rewrite (IH depth (snd p) _ s Hw); [|simpl in Hd; lia].
    now rewrite <- app_assoc.
Qed.

(** X10. When the walk meets no mirrored and no middle module before a module
    without a parent joint, the call raises the [AttributeError] of
    [None.module_mirror]: in particular on every module without a parent
    joint. *)
Theorem find_non_mirrored_parents_of_root (ps : list (ModuleClass * Module)) :
  forall (depth : nat) (self : Module) (acc : option (list (ModuleClass * Module)))
         (s : Store),
    walk s self ps (is_root s) ->
    length ps < depth ->
    find_non_mirrored_parents depth self acc s = Raise AttributeError s.
Proof.
  induction ps as [|p ps IH]; intros depth self acc s Hw Hd;
    (destruct depth as [|depth]; [simpl in Hd; lia|]).
  - simpl in Hw. simpl.
    now rewrite (bind_step _ _ _ _ _ (parent_module_of_root self s Hw)).
  - destruct Hw as (Hp & Hu & Hw).
    rewrite (find_non_mirrored_parents_step depth self acc p s Hp Hu).
    apply IH; [exact Hw | simpl in Hd; lia].
Qed.

End Parents.

(** ** What the successful commands did *)

Lemma modify_inv nm f s s' :
  cmds.modify nm f s = Ok tt s' ->
  exists n, find_node nm s = Some n /\ s' = update_node (n_id n) f s.
Proof.
  unfold cmds.modify. intros H.
  apply bind_ok in H. destruct H as (n & s1 & Hn & H).
  apply node_inv in Hn. destruct Hn as [Hn ->]. inversion H. eauto.
Qed.

Lemma addAttr_inv nm a t c s s' :
  cmds.addAttr nm a t c s = Ok tt s' ->
  exists n, find_node nm s = Some n /\ find_attr a n = None
            /\ s' = update_node (n_id n) (add_attr (mkAttr a c (cmds.default_val t))) s.
Proof.
  unfold cmds.addAttr. intros H.
  apply bind_ok in H. destruct H as (n & s1 & Hn & H).
  apply node_inv in Hn. destruct Hn as [Hn ->].
  destruct (find_attr a n) eqn:E; [discriminate|].
  rewrite (modify_ok _ _ _ _ Hn) in H. inversion H. eauto.
Qed.

Lemma connectAttr_message_inv src src_attr dst dst_attr s s' dn x o :
  cmds.connectAttr src src_attr dst dst_attr s = Ok tt s' ->
  find_node dst s = Some dn -> find_attr dst_attr dn = Some x -> a_val x = AMessage o ->
  exists sn, find_node src s = Some sn
             /\ s' = update_node (n_id dn)
                       (set_attr_val dst_attr (AMessage (Some (n_id sn)))) s.
Proof.
  unfold cmds.connectAttr. intros H Hd Hx Hv.
  apply bind_ok in H. destruct H as (sn & s1 & Hs & H).
  apply node_inv in Hs. destruct Hs as [Hs ->].
  rewrite (bind_step _ _ _ _ _ (node_ok _ _ _ Hd)), Hx in H.
  destruct x as [xn xc xv]. simpl in Hv. subst xv.
  rewrite (modify_ok _ _ _ _ Hd) in H. inversion H. eauto.
Qed.

Lemma append_inv self f x s s' :
  fields.append self f x s = Ok tt s' ->
  exists b n l,
    find_node (node_name self) s = Some b /\ find_node x s = Some n
    /\ attr_ids (f_name f) b = Some l
    /\ s' = update_node (n_id b)
              (set_attr_val (f_name f) (AMessageList (l ++ [n_id n])%list)) s.
Proof.
  unfold fields.append. intros H.
  apply bind_ok in H. destruct H as (a & s1 & Ha & H).
  apply attr_inv in Ha. destruct Ha as (b & Hb & Ha & ->).
  apply bind_ok in H. destruct H as (n & s1 & Hn & H).
  apply node_inv in Hn. destruct Hn as [Hn ->].
  destruct (a_val a) as [| | |l] eqn:Ev; try discriminate.
  rewrite (modify_ok _ _ _ _ Hb) in H. inversion H.
  exists b, n, l. repeat split; auto. unfold attr_ids. now rewrite Ha, Ev.
Qed.

Lemma find_attr_touch_other c a v i n :
  c <> a -> find_attr c (touch i (set_attr_val a v) n) = find_attr c n.
Proof.
  intros H. unfold touch. destruct (Nat.eqb (n_id n) i); auto.
  now apply find_attr_set_attr_val_other.
Qed.

Lemma touch_id i f n : keeps_name f -> n_id (touch i f n) = n_id n.
Proof. intros Hf. now destruct (touch_keeps i f Hf n). Qed.

Lemma add_attr_keeps a : keeps_name (add_attr a).
Proof. intros n. split; reflexivity. Qed.

Lemma find_node_updated nm i f s n :
  keeps_name f -> find_node nm s = Some n ->
  find_node nm (update_node i f s) = Some (touch i f n).
Proof. intros Hf Hn. now rewrite find_node_update_node, Hn. Qed.

(** Setting an object field and reading it back. *)
Lemma set_object_inv self f x s s' :
  f_kind f = ObjectField -> fields.set self f (PStr x) s = Ok tt s' ->
  exists b n a,
    find_node (node_name self) s = Some b /\ find_node x s = Some n
    /\ find_attr (f_name f) b = Some a
    /\ s' = update_node (n_id b) (set_attr_val (f_name f) (AMessage (Some (n_id n)))) s.
Proof.
  unfold fields.set. intros -> H.
  apply bind_ok in H. destruct H as (a & s1 & Ha & H).
  apply attr_inv in Ha. destruct Ha as (b & Hb & Ha & ->).
  apply bind_ok in H. destruct H as (n & s1 & Hn & H).
  apply node_inv in Hn. destruct Hn as [Hn ->].
  rewrite (modify_ok _ _ _ _ Hb) in H. inversion H.
  exists b, n, a. auto.
Qed.

Lemma node_by_id_updated i f s n :
  keeps_name f -> distinct_ids s -> In n (nodes s) ->
  node_by_id (n_id n) (update_node i f s) = Some (touch i f n).
Proof.
  intros Hf Hd Hin. rewrite node_by_id_update_node by assumption.
  now rewrite (distinct_ids_node_by_id s n Hd Hin).
Qed.

Lemma set_object_then_get self f x s s' :
  f_kind f = ObjectField -> distinct_ids s ->
  fields.set self f (PStr x) s = Ok tt s' ->
  fields.get_string self f s' = Ok (Some x) s'.
Proof.
  intros Hk Hd H.
  destruct (set_object_inv _ _ _ _ _ Hk H) as (b & n & a & Hb & Hn & Ha & ->).
  set (F := set_attr_val (f_name f) (AMessage (Some (n_id n)))).
  assert (KF : keeps_name F) by apply set_attr_val_keeps.
  pose proof (find_node_touched _ _ _ _ _ KF Hb eq_refl) as Hb'.
  unfold fields.get_string, fields.get.
  rewrite (bind_step _ _ _ _ _
             (getAttr_ok _ _ _ _ _ Hb' (find_attr_set_attr_val_same _ _ _ _ Ha))).
  simpl. rewrite (node_by_id_updated _ _ _ _ KF Hd (find_node_In _ _ _ Hn)).
  destruct (touch_keeps (n_id b) F KF n) as [_ ->].
  now rewrite (find_node_name _ _ _ Hn).
Qed.

Section BackReference.

Context {codec : Codec} {host : Host} {registry : Registry}.

(** The node [add_node] returns carries the back reference to the module
    and is listed in [owned_nodes]. *)
Lemma add_node_inv (self : Module) (node_type : string) (role : option string)
    (object_id : option nat) (description parent : option string)
    (s s1 : Store) (j : string) :
  add_node self node_type role object_id description parent s = Ok j s1 ->
  exists nb nj c ow,
    find_node (node_name self) s1 = Some nb /\ find_node j s1 = Some nj
    /\ find_attr "module" nj = Some (mkAttr "module" c (AMessage (Some (n_id nb))))
    /\ attr_ids "owned_nodes" nb = Some ow /\ In (n_id nj) ow.
Proof.
  unfold add_node. intros H.
  apply bind_ok in H. destruct H as (base & s0 & _ & H).
  apply bind_ok in H. destruct H as (sd & s0' & _ & H).
  apply bind_ok in H. destruct H as (st & s0'' & _ & H).
  destruct (cmds.objExists _ st); [discriminate|].
  apply bind_ok in H. destruct H as (node0 & sa & _ & H).
  apply bind_ok in H. destruct H as ([] & sb & Hadd & H).
  apply bind_ok in H. destruct H as ([] & sc & Hcon & H).
  apply bind_ok in H. destruct H as ([] & sd' & Happ & H).
  inversion H; subst j s1. clear H.
  apply addAttr_inv in Hadd. destruct Hadd as (n0 & Hn0 & Hnone & ->).
  set (A := mkAttr "module" None (cmds.default_val cmds.TMessage)) in *.
  pose proof (find_node_touched _ _ _ _ _ (add_attr_keeps A) Hn0 eq_refl) as Hn1.
  assert (HA : find_attr "module" (add_attr A n0) = Some A).
  { rewrite (find_attr_add_attr "module" A n0 Hnone), Hnone. reflexivity. }
  destruct (connectAttr_message_inv _ _ _ _ _ _ _ _ None Hcon Hn1 HA eq_refl)
    as (sn & Hsn & ->).
  simpl n_id in *.
  set (F := set_attr_val "module" (AMessage (Some (n_id sn)))) in *.
  assert (KF : keeps_name F) by apply set_attr_val_keeps.
  pose proof (find_node_touched _ _ _ _ _ KF Hn1 eq_refl) as Hn2.
  pose proof (find_node_updated _ (n_id n0) _ _ _ KF Hsn) as Hsn2.
  simpl n_id in Hn2.
  apply append_inv in Happ. destruct Happ as (b & n & l & Hb & Hn & Hl & ->).
  rewrite Hsn2 in Hb. inversion Hb; subst b. clear Hb.
  rewrite Hn2 in Hn. inversion Hn; subst n. clear Hn.
  rewrite (touch_id _ _ _ KF).
  set (G := set_attr_val (f_name owned_nodes) _).
  assert (KG : keeps_name G) by apply set_attr_val_keeps.
  exists (G (touch (n_id n0) F sn)), (touch (n_id sn) G (F (add_attr A n0))), None,
         (l ++ [n_id n0])%list.
  split; [apply (find_node_touched _ _ _ _ _ KG Hsn2); now apply touch_id|].
  split; [exact (find_node_updated _ _ _ _ _ KG Hn2)|].
  assert (Eid : n_id (G (touch (n_id n0) F sn)) = n_id sn).
  { destruct (KG (touch (n_id n0) F sn)) as [-> _]. now apply touch_id. }
  split; [|split].
  - rewrite Eid. unfold G. rewrite find_attr_touch_other by discriminate.
    unfold F. now rewrite (find_attr_set_attr_val_same _ _ _ _ HA).
  - unfold G. eapply attr_ids_set_same; eauto.
  - rewrite (touch_id _ _ _ KG). apply in_or_app. right. now left.
Qed.

(** X11. The back reference written by [add_node] is the one [parent_module]
    follows: once a node added by the module [P] is made the parent joint of
    a module, the parent module of that module is [P], instantiated with the
    class registered for the module type of [P] and bound to the rig of the
    child. *)
Theorem parent_module_follows_back_reference (P self : Module)
    (node_type : string) (role : option string) (object_id : option nat)
    (description parent : option string) (s s1 s2 : Store) (j t : string)
    (C : ModuleClass) (v : PyVal) :
  add_node P node_type role object_id description parent s = Ok j s1 ->
  fields.set self parent_joint (PStr j) s1 = Ok tt s2 ->
  j <> "" ->
  distinct_ids s1 ->
  cmds.getAttr (node_name P) "module_type" s2 = Ok (PStr t) s2 ->
  all_rig_modules t = Some C ->
  fields.get (mkModule (node_name P) (rig self) (c_name C)) fields.is_initialized s2
  = Ok v s2 ->
  truthy v = true ->
  parent_module self s2 = Ok (Some (C, mkModule (node_name P) (rig self) (c_name C))) s2.
Proof.
  intros Hadd Hset Hj Hd Hty HC Hv Htrue.
  destruct (add_node_inv _ _ _ _ _ _ _ _ _ Hadd) as (nb & nj & c & ow & Hnb & Hnj & Hmod & _).
  pose proof (set_object_then_get self parent_joint j s1 s2 eq_refl Hd Hset) as Hpj.
  destruct (set_object_inv self parent_joint j s1 s2 eq_refl Hset)
    as (b & n & a & Hb & Hn & Ha & ->).
  rewrite Hnj in Hn. inversion Hn; subst n. clear Hn.
  set (F := set_attr_val (f_name parent_joint) (AMessage (Some (n_id nj)))) in *.
  assert (KF : keeps_name F) by apply set_attr_val_keeps.
  unfold parent_module. rewrite (bind_step _ _ _ _ _ Hpj).
  assert (Etruthy : truthy_opt (Some j) = true).
  { simpl. destruct (j =? "") eqn:E; [apply String.eqb_eq in E; contradiction | reflexivity]. }
  rewrite Etruthy.
  assert (Esrc : first_source j "module" (update_node (n_id b) F s1)
                 = Ok (node_name P) (update_node (n_id b) F s1)).
  { unfold first_source.
    pose proof (find_node_updated _ (n_id b) _ _ _ KF Hnj) as Hnj'.
    assert (Hmod' : find_attr "module" (touch (n_id b) F nj)
                    = Some (mkAttr "module" c (AMessage (Some (n_id nb))))).
    { unfold F. rewrite find_attr_touch_other by discriminate. exact Hmod. }
    rewrite (bind_step _ _ _ _ _ (getAttr_ok _ _ _ _ _ Hnj' Hmod')). simpl.
    rewrite (node_by_id_updated _ _ _ _ KF Hd (find_node_In _ _ _ Hnb)).
    destruct (touch_keeps (n_id b) F KF nb) as [_ ->].
    now rewrite (find_node_name _ _ _ Hnb). }
  rewrite (bind_step _ _ _ _ _ Esrc), (bind_step _ _ _ _ _ Hty), HC. simpl of_option.
  rewrite bind_ret.
  pose proof (init_reattach C (node_name P) "M" None (rig self)
                (update_node (n_id b) F s1) v) as K.
  cbv zeta in K.
  assert (Hex : cmds.objExists (node_name P) (update_node (n_id b) F s1) = true).
  { apply getAttr_inv in Hty. destruct Hty as (n & x & Hn & _).
    exact (objExists_true _ _ _ Hn). }
  rewrite Hex in K. now rewrite (bind_step _ _ _ _ _ (K Hv Htrue)).
Qed.

(** X12. The setter and the getter of [module_mirror]: once a module node [x] is
    set, the property gives the module of that node, instantiated with the
    class registered for the module type of [self] and bound to its rig, and
    [is_mirrored] is true. *)
Theorem module_mirror_round_trip (self : Module) (x t : string) (s s' : Store)
    (C : ModuleClass) (v : PyVal) :
  set_module_mirror self (PStr x) s = Ok tt s' ->
  x <> "" ->
  distinct_ids s ->
  fields.get_string self module_type s' = Ok (Some t) s' ->
  all_rig_modules t = Some C ->
  fields.get (mkModule x (rig self) (c_name C)) fields.is_initialized s' = Ok v s' ->
  truthy v = true ->
  module_mirror self s' = Ok (Some (C, mkModule x (rig self) (c_name C))) s'
  /\ is_mirrored self s' = Ok true s'.
Proof.
  intros Hset Hx Hd Hty HC Hv Htrue.
  pose proof (set_object_then_get self _module_mirror x s s' eq_refl Hd Hset) as Hmm.
  assert (Etruthy : truthy_opt (Some x) = true).
  { simpl. destruct (x =? "") eqn:E; [apply String.eqb_eq in E; contradiction | reflexivity]. }
  assert (E : module_mirror self s' = Ok (Some (C, mkModule x (rig self) (c_name C))) s').
  { unfold module_mirror. rewrite (bind_step _ _ _ _ _ Hmm), Etruthy.
    rewrite (bind_step _ _ _ _ _ Hty), HC. simpl of_option.
    rewrite bind_ret.
    pose proof (init_reattach C x "M" None (rig self) s' v) as K. cbv zeta in K.
    assert (Hex : cmds.objExists x s' = true).
    { apply getAttr_inv in Hv. destruct Hv as (n & a & Hn & _).
      exact (objExists_true _ _ _ Hn). }
    rewrite Hex in K. now rewrite (bind_step _ _ _ _ _ (K Hv Htrue)). }
  split; [exact E|]. unfold is_mirrored. now rewrite (bind_step _ _ _ _ _ E).
Qed.

End BackReference.

(** ** Running the operations on a well-formed store *)

Lemma agree_except_refl l s : agree_except l s s.
Proof. intros y _. reflexivity. Qed.

Lemma agree_except_trans l1 l2 l s s1 s2 :
  agree_except l1 s s1 -> agree_except l2 s1 s2 ->
  incl l1 l -> incl l2 l -> agree_except l s s2.
Proof.
  intros H1 H2 I1 I2 y Hy. rewrite H2, H1; auto.
Qed.

Lemma length_update_node i f s : length (nodes (update_node i f s)) = length (nodes s).
Proof. unfold update_node. simpl. apply length_map. Qed.

Lemma step_update s x n f :
  wf s -> find_node x s = Some n -> keeps_name f ->
  find_node x (update_node (n_id n) f s) = Some (f n)
  /\ agree_except [x] s (update_node (n_id n) f s)
  /\ wf (update_node (n_id n) f s).
Proof.
  intros [Hd Hb] Hn Hf. split; [|split; [|split]].
  - now apply find_node_touched.
  - intros y Hy. rewrite find_node_update_node by assumption.
    destruct (find_node y s) as [m|] eqn:E; simpl; auto.
    unfold touch.
    assert (Hne : n_id m <> n_id n).
    { apply (distinct_ids_names s y x); auto. intros ->. apply Hy. now left. }
    apply Nat.eqb_neq in Hne. now rewrite Hne.
  - now apply distinct_ids_update_node.
  - intros m Hm. unfold update_node in Hm. simpl in Hm. apply in_map_iff in Hm.
    destruct Hm as (m0 & <- & Hm0). fold (touch (n_id n) f m0).
    rewrite (touch_id _ _ _ Hf). now apply Hb.
Qed.

Lemma step_append s new :
  wf s -> find_node (n_name new) s = None -> n_id new = next_id s ->
  find_node (n_name new) (mkStore (nodes s ++ [new]) (S (next_id s))) = Some new
  /\ agree_except [n_name new] s (mkStore (nodes s ++ [new]) (S (next_id s)))
  /\ wf (mkStore (nodes s ++ [new]) (S (next_id s))).
Proof.
  intros [Hd Hb] Hfree Hid. split; [|split; [|split]].
  - now apply find_node_app_new.
  - intros y Hy. unfold find_node. simpl. rewrite find_app.
    destruct (find _ (nodes s)); auto. simpl.
    destruct (n_name new =? y) eqn:E; auto.
    apply String.eqb_eq in E. exfalso. apply Hy. now left.
  - unfold distinct_ids in *. simpl. rewrite map_app. simpl.
    apply NoDup_snoc; auto.
    rewrite in_map_iff. intros (m & E & Hm). specialize (Hb m Hm). lia.
  - intros m Hm. simpl in *. apply in_app_or in Hm. destruct Hm as [Hm|[<-|[]]].
    + specialize (Hb m Hm). lia.
    + lia.
Qed.

Lemma attr_str_set_other a a' v n :
  a <> a' -> attr_str a (set_attr_val a' v n) = attr_str a n.
Proof. intros H. unfold attr_str. now rewrite find_attr_set_attr_val_other. Qed.

Lemma attr_msg_set_other a a' v n :
  a <> a' -> attr_msg a (set_attr_val a' v n) = attr_msg a n.
Proof. intros H. unfold attr_msg. now rewrite find_attr_set_attr_val_other. Qed.

Lemma attr_bool_set_other a a' v n :
  a <> a' -> attr_bool a (set_attr_val a' v n) = attr_bool a n.
Proof. intros H. unfold attr_bool. now rewrite find_attr_set_attr_val_other. Qed.

Lemma attr_msg_set_same a o n o0 :
  attr_msg a n = Some o0 -> attr_msg a (set_attr_val a (AMessage o) n) = Some o.
Proof.
  unfold attr_msg. destruct (find_attr a n) as [x|] eqn:E; [|discriminate].
  intros _. now rewrite (find_attr_set_attr_val_same _ _ _ _ E).
Qed.

Lemma attr_bool_set_same a v n v0 :
  attr_bool a n = Some v0 -> attr_bool a (set_attr_val a (ABool v) n) = Some v.
Proof.
  unfold attr_bool. destruct (find_attr a n) as [x|] eqn:E; [|discriminate].
  intros _. now rewrite (find_attr_set_attr_val_same _ _ _ _ E).
Qed.

Lemma set_object_run self f x s b n o :
  f_kind f = ObjectField ->
  find_node (node_name self) s = Some b -> attr_msg (f_name f) b = Some o ->
  find_node x s = Some n ->
  fields.set self f (PStr x) s
  = Ok tt (update_node (n_id b) (set_attr_val (f_name f) (AMessage (Some (n_id n)))) s).
Proof.
  intros Hk Hb Ho Hn. unfold fields.set. rewrite Hk. unfold attr_msg in Ho.
  destruct (find_attr (f_name f) b) as [a|] eqn:Ea; [|discriminate].
  rewrite (bind_step _ _ _ _ _ (attr_ok _ _ _ _ _ Hb Ea)).
  rewrite (bind_step _ _ _ _ _ (node_ok _ _ _ Hn)).
  now rewrite (modify_ok _ _ _ _ Hb).
Qed.

Lemma get_object_run self f s b i n :
  distinct_ids s ->
  find_node (node_name self) s = Some b -> attr_msg (f_name f) b = Some (Some i) ->
  In n (nodes s) -> n_id n = i ->
  fields.get_string self f s = Ok (Some (n_name n)) s.
Proof.
  intros Hd Hb Hi Hn Hid. unfold attr_msg in Hi.
  destruct (find_attr (f_name f) b) as [a|] eqn:Ea; [|discriminate].
  destruct (a_val a) as [| |o|] eqn:Ev; try discriminate. inversion Hi; subst o.
  unfold fields.get_string, fields.get.
  rewrite (bind_step _ _ _ _ _ (getAttr_ok _ _ _ _ _ Hb Ea)). rewrite Ev. simpl.
  rewrite <- Hid. now rewrite (distinct_ids_node_by_id s n Hd Hn).
Qed.

Lemma get_object_unset self f s b :
  find_node (node_name self) s = Some b -> attr_msg (f_name f) b = Some None ->
  fields.get_string self f s = Ok None s.
Proof.
  intros Hb Hi. unfold attr_msg in Hi.
  destruct (find_attr (f_name f) b) as [a|] eqn:Ea; [|discriminate].
  destruct (a_val a) as [| |o|] eqn:Ev; try discriminate. inversion Hi; subst o.
  unfold fields.get_string, fields.get.
  rewrite (bind_step _ _ _ _ _ (getAttr_ok _ _ _ _ _ Hb Ea)). now rewrite Ev.
Qed.

Lemma setAttr_bool_run nm a v s n v0 :
  find_node nm s = Some n -> attr_bool a n = Some v0 ->
  cmds.setAttr nm a (PBool v) s
  = Ok tt (update_node (n_id n) (set_attr_val a (ABool v)) s).
Proof.
  intros Hn Hv. unfold cmds.setAttr. unfold attr_bool in Hv.
  destruct (find_attr a n) as [x|] eqn:Ex; [|discriminate].
  rewrite (bind_step _ _ _ _ _ (attr_ok _ _ _ _ _ Hn Ex)).
  destruct (a_val x); try discriminate.
  now rewrite (modify_ok _ _ _ _ Hn).
Qed.

Section Forward.

Context {codec : Codec} {host : Host} {registry : Registry}.

(** [add_node] on a well-formed store where the name is free. *)
Lemma add_node_run (self : Module) (node_type : string) (role : option string)
    (object_id : option nat) (description parent : option string)
    (s : Store) (base sd : option string) (b : Node) (owned : list NodeId)
    (par : option NodeId) :
  let nm := added_name base sd node_type role object_id description in
  wf s -> find_node (node_name self) s = Some b ->
  attr_str "name" b = Some base -> attr_str "side" b = Some sd ->
  attr_ids "owned_nodes" b = Some owned ->
  find_node nm s = None ->
  parent_id (creation_parent node_type parent) s = Some par ->
  exists s',
    add_node self node_type role object_id description parent s = Ok nm s'
    /\ find_node nm s' = Some (added_node s nm node_type par (n_id b))
    /\ find_node (node_name self) s'
       = Some (set_attr_val "owned_nodes" (AMessageList (owned ++ [next_id s])%list) b)
    /\ agree_except [node_name self; nm] s s'
    /\ wf s' /\ next_id s' = S (next_id s)
    /\ length (nodes s') = S (length (nodes s)).
Proof.
  intros nm Hwf Hb Hname Hside How Hfree Hpar.
  assert (Hex : cmds.objExists nm s = false) by (unfold cmds.objExists; now rewrite Hfree).
  pose proof (add_node_creates self node_type role object_id description parent s base sd
                b owned par
                (attr_str_get self name s b base Hb Hname)
                (attr_str_get self side s b sd Hb Hside)
                Hex Hb How Hpar (proj2 Hwf)) as Hrun.
  fold nm in Hrun.
  set (new := added_node s nm node_type par (n_id b)) in *.
  set (F := set_attr_val "owned_nodes" (AMessageList (owned ++ [n_id new])%list)) in *.
  assert (KF : keeps_name F) by apply set_attr_val_keeps.
  destruct (step_update s _ b F Hwf Hb KF) as (Hb1 & Hag1 & Hwf1).
  assert (Hfree1 : find_node (n_name new) (update_node (n_id b) F s) = None).
  { change (n_name new) with nm.
    rewrite find_node_update_node by assumption. now rewrite Hfree. }
  destruct (step_append (update_node (n_id b) F s) new Hwf1 Hfree1 eq_refl)
    as (Hnew & Hag2 & Hwf2).
  exists (store_with_added s new (n_id b) owned).
  split; [exact Hrun|]. split; [exact Hnew|].
  split.
  { transitivity (find_node (node_name self) (update_node (n_id b) F s)); [|exact Hb1].
    apply Hag2.
    intros [E|[]]. change (n_name new) with nm in E. rewrite E in Hfree. congruence. }
  split.
  { intros y Hy. rewrite <- (Hag1 y) by (simpl in *; tauto).
    apply Hag2. simpl in *; tauto. }
  split; [exact Hwf2|]. split; [reflexivity|].
  unfold store_with_added. simpl. rewrite length_app, length_map. simpl. lia.
Qed.

End Forward.

Lemma agree_find l s s' y r :
  agree_except l s s' -> ~ In y l -> find_node y s = r -> find_node y s' = r.
Proof. intros H Hy <-. now apply H. Qed.

Lemma set_attr_val_comm a a' v v' n :
  a <> a' ->
  set_attr_val a v (set_attr_val a' v' n) = set_attr_val a' v' (set_attr_val a v n).
Proof.
  intros Hne. unfold set_attr_val, with_attrs. simpl. f_equal.
  rewrite !map_map. apply map_ext. intros x.
  destruct (a_name x =? a') eqn:E'; destruct (a_name x =? a) eqn:E; simpl;
    rewrite ?E, ?E'; auto.
  apply String.eqb_eq in E, E'. congruence.
Qed.

Lemma set_attr_val_twice a v v' n :
  set_attr_val a v (set_attr_val a v' n) = set_attr_val a v n.
Proof.
  unfold set_attr_val, with_attrs. simpl. f_equal.
  rewrite map_map. apply map_ext. intros x.
  destruct (a_name x =? a) eqn:E; simpl; rewrite E; reflexivity.
Qed.

Ltac attr_other :=
  rewrite ?attr_str_set_other, ?attr_msg_set_other, ?attr_ids_set_other,
    ?attr_bool_set_other by discriminate.

Ltac not_in := simpl; intuition congruence.

Ltac carry A H := apply (agree_find _ _ _ _ _ A); [not_in | exact H].

Section Initialize.

Context {codec : Codec} {host : Host} {registry : Registry}.

(** [initialize] on a fresh module: the stores it goes through. *)
Lemma initialize_run (self : Module) (s : Store) (b : Node) (base sd : option string)
    (owned : list NodeId) (op oc oe : option NodeId) :
  let grp := group_name base sd in
  let k := next_id s in
  wf s -> find_node (node_name self) s = Some b ->
  attr_str "name" b = Some base -> attr_str "side" b = Some sd ->
  attr_ids "owned_nodes" b = Some owned ->
  attr_msg "placement_group" b = Some op ->
  attr_msg "controls_group" b = Some oc ->
  attr_msg "extras_group" b = Some oe ->
  find_node (grp "placement") s = None ->
  find_node (grp "controls") s = None ->
  find_node (grp "extras") s = None ->
  grp "placement" <> grp "controls" -> grp "placement" <> grp "extras" ->
  grp "controls" <> grp "extras" ->
  exists s',
    initialize self s = Ok tt s'
    /\ find_node (node_name self) s' = Some (initialized_backing owned k b)
    /\ find_node (grp "placement") s'
       = Some (group_node k (grp "placement") (n_id b) true false)
    /\ find_node (grp "controls") s'
       = Some (group_node (S k) (grp "controls") (n_id b) true true)
    /\ find_node (grp "extras") s'
       = Some (group_node (S (S k)) (grp "extras") (n_id b) false true)
    /\ agree_except [node_name self; grp "placement"; grp "controls"; grp "extras"] s s'
    /\ wf s' /\ next_id s' = S (S (S k))
    /\ length (nodes s') = S (S (S (length (nodes s)))).
Proof.
  intros grp k Hwf Hb Hname Hside How Hop Hoc Hoe Fp Fc Fe Npc Npe Nce.
  assert (Sp : grp "placement" <> node_name self) by (intros E; rewrite E, Hb in Fp; discriminate).
  assert (Sc : grp "controls" <> node_name self) by (intros E; rewrite E, Hb in Fc; discriminate).
  assert (Se : grp "extras" <> node_name self) by (intros E; rewrite E, Hb in Fe; discriminate).
  unfold initialize.
  (* the placement group *)
  destruct (add_node_run self "transform" (Some "grp") None (Some "placement")
              (Some (node_name self)) s base sd b owned (Some (n_id b))
              Hwf Hb Hname Hside How Fp)
    as (s1 & R1 & G1 & B1 & A1 & W1 & K1 & L1).
  { simpl. now rewrite Hb. }
  rewrite (bind_step _ _ _ _ _ R1).
  change (added_name base sd "transform" (Some "grp") None (Some "placement"))
    with (grp "placement") in *.
  fold k in B1, G1.
  set (b1 := set_attr_val "owned_nodes" (AMessageList (owned ++ [k])%list) b) in *.
  set (g1 := added_node s (grp "placement") "transform" (Some (n_id b)) (n_id b)) in *.
  assert (Hop1 : attr_msg "placement_group" b1 = Some op) by (unfold b1; attr_other; exact Hop).
  rewrite (bind_step _ _ _ _ _
             (set_object_run self placement_group (grp "placement") s1 b1 g1 op
                eq_refl B1 Hop1 G1)).
  set (P := set_attr_val (f_name placement_group) (AMessage (Some (n_id g1)))).
  destruct (step_update s1 (node_name self) b1 P W1 B1 (set_attr_val_keeps _ _))
    as (B2 & A2 & W2).
  set (s2 := update_node (n_id b1) P s1) in *.
  assert (G2 : find_node (grp "placement") s2 = Some g1) by carry A2 G1.
  assert (Hpg : fields.get_string self placement_group s2 = Ok (Some (grp "placement")) s2).
  { apply (get_object_run self placement_group s2 (P b1) k g1 (proj1 W2) B2).
    - unfold P. eapply attr_msg_set_same. exact Hop1.
    - eapply find_node_In; eauto.
    - reflexivity. }
  rewrite (bind_step _ _ _ _ _ Hpg). simpl of_option. rewrite bind_ret.
  rewrite (bind_step _ _ _ _ _
             (setAttr_bool_run (grp "placement") "inheritsTransform" false s2 g1 true
                G2 eq_refl)).
  set (I := set_attr_val "inheritsTransform" (ABool false)).
  destruct (step_update s2 (grp "placement") g1 I W2 G2 (set_attr_val_keeps _ _))
    as (G3 & A3 & W3).
  set (s3 := update_node (n_id g1) I s2) in *.
  assert (B3 : find_node (node_name self) s3 = Some (P b1)) by carry A3 B2.
  (* the controls group *)
  assert (Fc3 : find_node (grp "controls") s3 = None).
  { apply (agree_find _ _ _ _ _ A3); [not_in|].
    apply (agree_find _ _ _ _ _ A2); [not_in|].
    apply (agree_find _ _ _ _ _ A1); [not_in|]. exact Fc. }
  assert (K3 : next_id s3 = S k) by exact K1.
  destruct (add_node_run self "transform" (Some "grp") None (Some "controls")
              (Some (node_name self)) s3 base sd (P b1) (owned ++ [k])%list (Some (n_id b))
              W3 B3)
    as (s4 & R4 & G4 & B4 & A4 & W4 & K4 & L4).
  { unfold P, b1. attr_other. exact Hname. }
  { unfold P, b1. attr_other. exact Hside. }
  { unfold P. attr_other. unfold b1. eapply attr_ids_set_same; eauto. }
  { exact Fc3. }
  { simpl. now rewrite B3. }
  rewrite (bind_step _ _ _ _ _ R4).
  change (added_name base sd "transform" (Some "grp") None (Some "controls"))
    with (grp "controls") in *.
  change (n_id (P b1)) with (n_id b) in *.
  set (b4 := set_attr_val "owned_nodes" (AMessageList ((owned ++ [k]) ++ [next_id s3])%list)
               (P b1)) in *.
  set (g4 := added_node s3 (grp "controls") "transform" (Some (n_id b)) (n_id b)) in *.
  assert (Hoc4 : attr_msg "controls_group" b4 = Some oc)
    by (unfold b4, P, b1; attr_other; exact Hoc).
  rewrite (bind_step _ _ _ _ _
             (set_object_run self controls_group (grp "controls") s4 b4 g4 oc
                eq_refl B4 Hoc4 G4)).
  set (C := set_attr_val (f_name controls_group) (AMessage (Some (n_id g4)))).
  destruct (step_update s4 (node_name self) b4 C W4 B4 (set_attr_val_keeps _ _))
    as (B5 & A5 & W5).
  set (s5 := update_node (n_id b4) C s4) in *.
  (* the extras group *)
  assert (Fe5 : find_node (grp "extras") s5 = None).
  { apply (agree_find _ _ _ _ _ A5); [not_in|].
    apply (agree_find _ _ _ _ _ A4); [not_in|].
    apply (agree_find _ _ _ _ _ A3); [not_in|].
    apply (agree_find _ _ _ _ _ A2); [not_in|].
    apply (agree_find _ _ _ _ _ A1); [not_in|]. exact Fe. }
  assert (K5 : next_id s5 = S (S k)) by (rewrite <- K3; exact K4).
  destruct (add_node_run self "transform" (Some "grp") None (Some "extras")
              (Some (node_name self)) s5 base sd (C b4) ((owned ++ [k]) ++ [next_id s3])%list
              (Some (n_id b)) W5 B5)
    as (s6 & R6 & G6 & B6 & A6 & W6 & K6 & L6).
  { unfold C, b4, P, b1. attr_other. exact Hname. }
  { unfold C, b4, P, b1. attr_other. exact Hside. }
  { unfold C. attr_other. unfold b4. eapply attr_ids_set_same.
    unfold P. attr_other. unfold b1. eapply attr_ids_set_same; eauto. }
  { exact Fe5. }
  { simpl. now rewrite B5. }
  rewrite (bind_step _ _ _ _ _ R6).
  change (added_name base sd "transform" (Some "grp") None (Some "extras"))
    with (grp "extras") in *.
  change (n_id (C b4)) with (n_id b) in *.
  set (b6 := set_attr_val "owned_nodes"
               (AMessageList (((owned ++ [k]) ++ [next_id s3]) ++ [next_id s5])%list)
               (C b4)) in *.
  set (g6 := added_node s5 (grp "extras") "transform" (Some (n_id b)) (n_id b)) in *.
  assert (Hoe6 : attr_msg "extras_group" b6 = Some oe)
    by (unfold b6, C, b4, P, b1; attr_other; exact Hoe).
  rewrite (bind_step _ _ _ _ _
             (set_object_run self extras_group (grp "extras") s6 b6 g6 oe
                eq_refl B6 Hoe6 G6)).
  set (E := set_attr_val (f_name extras_group) (AMessage (Some (n_id g6)))).
  destruct (step_update s6 (node_name self) b6 E W6 B6 (set_attr_val_keeps _ _))
    as (B7 & A7 & W7).
  set (s7 := update_node (n_id b6) E s6) in *.
  assert (G7 : find_node (grp "extras") s7 = Some g6) by carry A7 G6.
  assert (Heg : fields.get_string self extras_group s7 = Ok (Some (grp "extras")) s7).
  { apply (get_object_run self extras_group s7 (E b6) (n_id g6) g6 (proj1 W7) B7).
    - unfold E. eapply attr_msg_set_same. exact Hoe6.
    - eapply find_node_In; eauto.
    - reflexivity. }
  rewrite (bind_step _ _ _ _ _ Heg). simpl of_option. rewrite bind_ret.
  rewrite (setAttr_bool_run (grp "extras") "visibility" false s7 g6 true G7 eq_refl).
  set (V := set_attr_val "visibility" (ABool false)).
  destruct (step_update s7 (grp "extras") g6 V W7 G7 (set_attr_val_keeps _ _))
    as (G8 & A8 & W8).
  set (s8 := update_node (n_id g6) V s7) in *.
  exists s8. split; [reflexivity|].
  split.
  { assert (B8 : find_node (node_name self) s8 = Some (E b6)) by carry A8 B7.
    rewrite B8. f_equal.
    unfold E, b6, C, b4, P, b1, initialized_backing. simpl f_name.
    change (n_id g6) with (next_id s5). change (n_id g4) with (next_id s3).
    change (n_id g1) with k. rewrite K5, K3.
    rewrite (set_attr_val_comm "controls_group" "owned_nodes") by discriminate.
    rewrite set_attr_val_twice.
    rewrite (set_attr_val_comm "placement_group" "owned_nodes") by discriminate.
    rewrite (set_attr_val_comm "controls_group" "owned_nodes") by discriminate.
    rewrite set_attr_val_twice.
    rewrite (set_attr_val_comm "owned_nodes" "controls_group") by discriminate.
    rewrite (set_attr_val_comm "owned_nodes" "placement_group") by discriminate.
    rewrite <- !app_assoc. reflexivity. }
  split.
  { assert (H : find_node (grp "placement") s8 = Some (I g1)).
    { apply (agree_find _ _ _ _ _ A8); [not_in|].
      apply (agree_find _ _ _ _ _ A7); [not_in|].
      apply (agree_find _ _ _ _ _ A6); [not_in|].
      apply (agree_find _ _ _ _ _ A5); [not_in|].
      apply (agree_find _ _ _ _ _ A4); [not_in|]. exact G3. }
    rewrite H. reflexivity. }
  split.
  { assert (H : find_node (grp "controls") s8 = Some g4).
    { apply (agree_find _ _ _ _ _ A8); [not_in|].
      apply (agree_find _ _ _ _ _ A7); [not_in|].
      apply (agree_find _ _ _ _ _ A6); [not_in|].
      apply (agree_find _ _ _ _ _ A5); [not_in|]. exact G4. }
    rewrite H. unfold g4, added_node, group_node. now rewrite K3. }
  split.
  { rewrite G8. unfold V, g6, added_node, group_node. now rewrite K5. }
  split.
  { intros y Hy.
    rewrite (A8 y), (A7 y), (A6 y), (A5 y), (A4 y), (A3 y), (A2 y), (A1 y);
      auto; simpl in *; tauto. }
  split; [exact W8|]. split.
  { change (next_id s8) with (next_id s6). now rewrite K6, K5. }
  unfold s8, s7. rewrite !length_update_node, L6.
  unfold s5. rewrite length_update_node, L4.
  unfold s3, s2. rewrite !length_update_node. now rewrite L1.
Qed.

(** X13. [initialize] creates the three groups of the module, of type
    [transform], under its backing node and with the back reference to it;
    the placement group does not inherit the transform of the module and the
    extras group is hidden; each group is recorded in its field and in
    [owned_nodes]; three nodes are added to the scene and no other node is
    touched.  The store is well formed, the backing node has the fields of
    the class, and the three names are free and distinct. *)
Theorem initialize_creates_groups (self : Module) (s : Store) (b : Node)
    (base sd : option string) (owned : list NodeId) (op oc oe : option NodeId) :
  let grp := group_name base sd in
  wf s -> find_node (node_name self) s = Some b ->
  attr_str "name" b = Some base -> attr_str "side" b = Some sd ->
  attr_ids "owned_nodes" b = Some owned ->
  attr_msg "placement_group" b = Some op ->
  attr_msg "controls_group" b = Some oc ->
  attr_msg "extras_group" b = Some oe ->
  find_node (grp "placement") s = None ->
  find_node (grp "controls") s = None ->
  find_node (grp "extras") s = None ->
  grp "placement" <> grp "controls" -> grp "placement" <> grp "extras" ->
  grp "controls" <> grp "extras" ->
  exists s' b' gp gc ge,
    initialize self s = Ok tt s'
    /\ find_node (grp "placement") s' = Some gp
    /\ find_node (grp "controls") s' = Some gc
    /\ find_node (grp "extras") s' = Some ge
    /\ (forall g, In g [gp; gc; ge] ->
          n_type g = "transform" /\ n_parent g = Some (n_id b)
          /\ attr_msg "module" g = Some (Some (n_id b)))
    /\ attr_bool "inheritsTransform" gp = Some false
    /\ attr_bool "visibility" gp = Some true
    /\ attr_bool "visibility" gc = Some true
    /\ attr_bool "visibility" ge = Some false
    /\ find_node (node_name self) s' = Some b'
    /\ attr_msg "placement_group" b' = Some (Some (n_id gp))
    /\ attr_msg "controls_group" b' = Some (Some (n_id gc))
    /\ attr_msg "extras_group" b' = Some (Some (n_id ge))
    /\ attr_ids "owned_nodes" b' = Some (owned ++ [n_id gp; n_id gc; n_id ge])%list
    /\ length (nodes s') = 3 + length (nodes s)
    /\ agree_except [node_name self; grp "placement"; grp "controls"; grp "extras"] s s'.
Proof.
  intros grp Hwf Hb Hname Hside How Hop Hoc Hoe Fp Fc Fe Npc Npe Nce.
  destruct (initialize_run self s b base sd owned op oc oe Hwf Hb Hname Hside How
              Hop Hoc Hoe Fp Fc Fe Npc Npe Nce)
    as (s' & Hrun & Hb' & Hp & Hc & He & Hag & _ & _ & Hlen).
  exists s', (initialized_backing owned (next_id s) b),
    (group_node (next_id s) (grp "placement") (n_id b) true false),
    (group_node (S (next_id s)) (grp "controls") (n_id b) true true),
    (group_node (S (S (next_id s))) (grp "extras") (n_id b) false true).
  split; [exact Hrun|]. split; [exact Hp|]. split; [exact Hc|]. split; [exact He|].
  split. { intros g [<-|[<-|[<-|[]]]]; repeat split. }
  split; [reflexivity|]. split; [reflexivity|]. split; [reflexivity|].
  split; [reflexivity|]. split; [exact Hb'|].
  unfold initialized_backing.
  split. { attr_other. eapply attr_msg_set_same. attr_other. exact Hop. }
  split. { attr_other. eapply attr_msg_set_same. attr_other. exact Hoc. }
  split. { eapply attr_msg_set_same. attr_other. exact Hoe. }
  split. { attr_other. eapply attr_ids_set_same. exact How. }
  split; [exact Hlen | exact Hag].
Qed.

(** X14. [initialize] cannot be run twice: the second call finds the placement
    group of the first, raises the [ValueError] of [add_node] and changes
    nothing. *)
Theorem initialize_twice_raises (self : Module) (s : Store) (b : Node)
    (base sd : option string) (owned : list NodeId) (op oc oe : option NodeId) :
  let grp := group_name base sd in
  wf s -> find_node (node_name self) s = Some b ->
  attr_str "name" b = Some base -> attr_str "side" b = Some sd ->
  attr_ids "owned_nodes" b = Some owned ->
  attr_msg "placement_group" b = Some op ->
  attr_msg "controls_group" b = Some oc ->
  attr_msg "extras_group" b = Some oe ->
  find_node (grp "placement") s = None ->
  find_node (grp "controls") s = None ->
  find_node (grp "extras") s = None ->
  grp "placement" <> grp "controls" -> grp "placement" <> grp "extras" ->
  grp "controls" <> grp "extras" ->
  exists s',
    initialize self s = Ok tt s'
    /\ initialize self s'
       = Raise (ValueError ("A node with the name `" ++ grp "placement"
                            ++ "` already exists")) s'.
Proof.
  intros grp Hwf Hb Hname Hside How Hop Hoc Hoe Fp Fc Fe Npc Npe Nce.
  destruct (initialize_run self s b base sd owned op oc oe Hwf Hb Hname Hside How
              Hop Hoc Hoe Fp Fc Fe Npc Npe Nce)
    as (s' & Hrun & Hb' & Hp & _).
  exists s'. split; [exact Hrun|].
  assert (Hn' : fields.get_string self name s' = Ok base s').
  { apply (attr_str_get self name s' _ base Hb').
    unfold initialized_backing. simpl f_name. attr_other. exact Hname. }
  assert (Hs' : fields.get_string self side s' = Ok sd s').
  { apply (attr_str_get self side s' _ sd Hb').
    unfold initialized_backing. simpl f_name. attr_other. exact Hside. }
  unfold initialize.
  pose proof (add_node_raises self "transform" (Some "grp") None (Some "placement")
                (Some (node_name self)) s' base sd Hn' Hs'
                (objExists_true _ _ _ Hp)) as Hraise.
  unfold bind at 1. now rewrite Hraise.
Qed.

End Initialize.

(** ** The wrappers of [add_node] *)

Section WrapperRuns.

Context {codec : Codec} {host : Host} {registry : Registry}.

Lemma with_parent_keeps p : keeps_name (fun x => with_parent x p).
Proof. intros n. split; reflexivity. Qed.

(** The tail of both wrappers on a well-formed store. *)
Lemma wrapper_tail_run (self : Module) (f : Field) (channels : list Channel)
    (nm pn : string) (s : Store) (b new p : Node) (l : list NodeId) :
  wf s -> find_node nm s = Some new -> find_node (node_name self) s = Some b ->
  find_node pn s = Some p -> nm <> node_name self ->
  attr_ids (f_name f) b = Some l ->
  exists s' G,
    (cmds.parent nm (Some pn) ;;; zero_channels nm channels ;;;
     fields.append self f nm ;;; ret nm) s = Ok nm s'
    /\ find_node nm s' = Some (set_xform_by G (with_parent new (Some (n_id p))))
    /\ find_node (node_name self) s'
       = Some (set_attr_val (f_name f) (AMessageList (l ++ [n_id new])%list) b)
    /\ agree_except [node_name self; nm] s s'
    /\ wf s' /\ next_id s' = next_id s
    /\ length (nodes s') = length (nodes s).
Proof.
  intros Hwf Hnew Hb Hp Hne Hl.
  rewrite (bind_step _ _ _ _ _ (parent_ok _ _ _ _ _ Hnew Hp)).
  set (f1 := fun x : Node => with_parent x (Some (n_id p))).
  destruct (step_update s nm new f1 Hwf Hnew (with_parent_keeps _)) as (N1 & A1 & W1).
  set (s1 := update_node (n_id new) f1 s) in *.
  assert (B1 : find_node (node_name self) s1 = Some b) by carry A1 Hb.
  destruct (xform_only_zero_channels nm channels) as [G HG].
  rewrite (bind_step _ _ _ _ _ (HG _ _ N1)).
  destruct (step_update s1 nm (f1 new) (set_xform_by G) W1 N1 (set_xform_by_keeps G))
    as (N2 & A2 & W2).
  set (s2 := update_node (n_id (f1 new)) (set_xform_by G) s1) in *.
  assert (B2 : find_node (node_name self) s2 = Some b) by carry A2 B1.
  rewrite (bind_step _ _ _ _ _ (append_ok _ _ _ _ _ _ _ B2 Hl N2)).
  set (F := set_attr_val (f_name f) (AMessageList (l ++ [n_id new])%list)).
  destruct (step_update s2 (node_name self) b F W2 B2 (set_attr_val_keeps _ _))
    as (B3 & A3 & W3).
  exists (update_node (n_id b) F s2), G.
  split; [reflexivity|].
  split; [carry A3 N2|]. split; [exact B3|].
  split.
  { intros y Hy. rewrite (A3 y), (A2 y), (A1 y); auto; simpl in *; tauto. }
  split; [exact W3|]. split; [reflexivity|].
  unfold s2, s1. now rewrite !length_update_node.
Qed.

Lemma truthy_opt_name x : x <> "" -> truthy_opt (Some x) = true.
Proof.
  intros H. simpl. destruct (x =? "") eqn:E; [apply String.eqb_eq in E; contradiction|].
  reflexivity.
Qed.

Lemma parent_carried (self : Module) (nm pn : string) (s s1 : Store) (b b1 p : Node) :
  agree_except [node_name self; nm] s s1 ->
  find_node (node_name self) s = Some b -> find_node (node_name self) s1 = Some b1 ->
  n_id b1 = n_id b -> find_node nm s = None -> find_node pn s = Some p ->
  exists p', find_node pn s1 = Some p' /\ n_id p' = n_id p.
Proof.
  intros A Hb Hb1 Hid Hfree Hp.
  assert (Hpn : pn <> nm) by (intros ->; congruence).
  destruct (string_dec pn (node_name self)) as [->|Hps].
  - rewrite Hb in Hp. inversion Hp; subst p. eauto.
  - exists p. split; [|reflexivity]. apply (agree_find _ _ _ _ _ A); [not_in | exact Hp].
Qed.

(** [_add_deform_joint] on a well-formed store: the stores it goes
    through. *)
Lemma deform_joint_run (self : Module) (parent : option string) (object_id : option nat)
    (description : option string) (s : Store) (base sd : option string)
    (b p : Node) (owned ids : list NodeId) (pn : string) :
  let nm := name_from_metadata
              (mkMetadata base sd "deform" description
                 (Some (joint_id object_id (cmds.names_of ids s)))) in
  wf s -> find_node (node_name self) s = Some b ->
  attr_str "name" b = Some base -> attr_str "side" b = Some sd ->
  attr_ids "owned_nodes" b = Some owned ->
  attr_ids "deform_joints" b = Some ids ->
  find_node nm s = None ->
  joint_parent_is self parent b s pn -> find_node pn s = Some p ->
  exists s' G,
    _add_deform_joint self parent object_id description s = Ok nm s'
    /\ find_node nm s'
       = Some (set_xform_by G
                 (with_parent (added_node s nm "joint" None (n_id b)) (Some (n_id p))))
    /\ find_node (node_name self) s'
       = Some (set_attr_val "deform_joints" (AMessageList (ids ++ [next_id s])%list)
                 (set_attr_val "owned_nodes" (AMessageList (owned ++ [next_id s])%list) b))
    /\ agree_except [node_name self; nm] s s'
    /\ wf s' /\ next_id s' = S (next_id s)
    /\ length (nodes s') = S (length (nodes s)).
Proof.
  intros nm Hwf Hb Hname Hside How Hids Hfree Hpar Hp.
  assert (Hne : nm <> node_name self) by (intros E; rewrite E, Hb in Hfree; discriminate).
  unfold _add_deform_joint.
  assert (E : match object_id with
              | Some _ => ret object_id
              | None => l <- fields.get_list self deform_joints;; ret (Some (length l))
              end s = Ok (Some (joint_id object_id (cmds.names_of ids s))) s).
  { destruct object_id as [i|]; [reflexivity|].
    now rewrite (bind_step _ _ _ _ _ (get_list_ok self deform_joints s b ids Hb Hids)). }
  rewrite (bind_step _ _ _ _ _ E).
  destruct (add_node_run self "joint" (Some "deform")
              (Some (joint_id object_id (cmds.names_of ids s))) description None
              s base sd b owned None Hwf Hb Hname Hside How Hfree eq_refl)
    as (s1 & R1 & N1 & B1 & A1 & W1 & K1 & L1).
  rewrite (bind_step _ _ _ _ _ R1).
  change (added_name base sd "joint" (Some "deform")
            (Some (joint_id object_id (cmds.names_of ids s))) description) with nm in *.
  set (b1 := set_attr_val "owned_nodes" (AMessageList (owned ++ [next_id s])%list) b) in *.
  set (new := added_node s nm "joint" None (n_id b)) in *.
  destruct (parent_carried self nm pn s s1 b b1 p A1 Hb B1 eq_refl Hfree Hp)
    as (p' & Hp' & Hidp).
  assert (Hrun : (parent0 <- (if truthy_opt parent then ret parent
                              else fields.get_string self parent_joint);;
                  parent1 <- (if truthy_opt parent0 then ret parent0
                              else r <- rig_of self;; ret (skeleton_group r));;
                  cmds.parent nm parent1;;;
                  zero_channels nm [translate; rotate; scale; jointOrient];;;
                  fields.append self deform_joints nm;;; ret nm) s1
                 = (cmds.parent nm (Some pn);;;
                    zero_channels nm [translate; rotate; scale; jointOrient];;;
                    fields.append self deform_joints nm;;; ret nm) s1).
  { destruct Hpar as [[Ht ->]|[(Hf & q & Hq & Hqn & Hq0)|(Hf & Hq & r & Hr & Hsk)]].
    - rewrite Ht, bind_ret, Ht, bind_ret. reflexivity.
    - rewrite Hp in Hqn. inversion Hqn; subst q.
      rewrite Hf.
      assert (G : fields.get_string self parent_joint s1 = Ok (Some pn) s1).
      { rewrite <- (find_node_name _ _ _ Hp') at 1.
        apply (get_object_run self parent_joint s1 b1 (n_id p) p' (proj1 W1) B1).
        - unfold b1. simpl f_name. attr_other. exact Hq.
        - eapply find_node_In; eauto.
        - exact Hidp. }
      rewrite (bind_step _ _ _ _ _ G), (truthy_opt_name pn Hq0), bind_ret. reflexivity.
    - rewrite Hf.
      assert (G : fields.get_string self parent_joint s1 = Ok None s1).
      { apply (get_object_unset self parent_joint s1 b1 B1).
        unfold b1. simpl f_name. attr_other. exact Hq. }
      rewrite (bind_step _ _ _ _ _ G). simpl truthy_opt. cbv iota.
      unfold rig_of. rewrite Hr. simpl of_option.
      unfold bind at 1. unfold bind at 1. unfold ret at 1 2. now rewrite Hsk. }
  rewrite Hrun.
  destruct (wrapper_tail_run self deform_joints [translate; rotate; scale; jointOrient]
              nm pn s1 b1 new p' ids W1 N1 B1 Hp' Hne)
    as (s' & G & R2 & N2 & B2 & A2 & W2 & K2 & L2).
  { unfold b1. simpl f_name. attr_other. exact Hids. }
  exists s', G. split; [exact R2|].
  split; [rewrite N2, Hidp; reflexivity|]. split; [exact B2|].
  split.
  { intros y Hy. rewrite (A2 y), (A1 y); auto. }
  split; [exact W2|]. split; [now rewrite K2|]. now rewrite L2.
Qed.

(** X15. [_add_deform_joint] parents the joint it creates under the argument
    [parent] when it is given, else under the parent joint of the module
    when it has one, else under the skeleton group of the rig; the joint
    carries the id given, or the number of deform joints, is recorded last
    in [deform_joints] and in [owned_nodes], and no other node of the scene
    is touched. *)
Theorem deform_joint_parent_fallback (self : Module) (parent : option string)
    (object_id : option nat) (description : option string) (s : Store)
    (base sd : option string) (b p : Node) (owned ids : list NodeId) (pn : string) :
  let nm := name_from_metadata
              (mkMetadata base sd "deform" description
                 (Some (joint_id object_id (cmds.names_of ids s)))) in
  wf s -> find_node (node_name self) s = Some b ->
  attr_str "name" b = Some base -> attr_str "side" b = Some sd ->
  attr_ids "owned_nodes" b = Some owned ->
  attr_ids "deform_joints" b = Some ids ->
  find_node nm s = None ->
  joint_parent_is self parent b s pn -> find_node pn s = Some p ->
  exists s' new b',
    _add_deform_joint self parent object_id description s = Ok nm s'
    /\ find_node nm s' = Some new
    /\ n_id new = next_id s /\ n_type new = "joint"
    /\ n_parent new = Some (n_id p)
    /\ attr_msg "module" new = Some (Some (n_id b))
    /\ find_node (node_name self) s' = Some b'
    /\ attr_ids "deform_joints" b' = Some (ids ++ [n_id new])%list
    /\ attr_ids "owned_nodes" b' = Some (owned ++ [n_id new])%list
    /\ length (nodes s') = S (length (nodes s))
    /\ agree_except [node_name self; nm] s s'.
Proof.
  intros nm Hwf Hb Hname Hside How Hids Hfree Hpar Hp.
  destruct (deform_joint_run self parent object_id description s base sd b p owned ids pn
              Hwf Hb Hname Hside How Hids Hfree Hpar Hp)
    as (s' & G & Hrun & Hnew & Hb' & Hag & _ & _ & Hlen).
  do 3 eexists. split; [exact Hrun|]. split; [exact Hnew|].
  split; [reflexivity|]. split; [reflexivity|]. split; [reflexivity|].
  split; [reflexivity|]. split; [exact Hb'|].
  split. { eapply attr_ids_set_same. attr_other. exact Hids. }
  split. { attr_other. eapply attr_ids_set_same. exact How. }
  split; [exact Hlen | exact Hag].
Qed.

(** X16. [_add_deform_joint] called without a parent on a module that has no
    parent joint and no rig raises the [AttributeError] of
    [None.skeleton_group] after the joint was created: the joint is left at
    the root of the scene, listed in [owned_nodes] and not in
    [deform_joints]. *)
Theorem deform_joint_without_rig (self : Module) (parent : option string)
    (object_id : option nat) (description : option string) (s : Store)
    (base sd : option string) (b : Node) (owned ids : list NodeId) :
  let nm := name_from_metadata
              (mkMetadata base sd "deform" description
                 (Some (joint_id object_id (cmds.names_of ids s)))) in
  wf s -> find_node (node_name self) s = Some b ->
  attr_str "name" b = Some base -> attr_str "side" b = Some sd ->
  attr_ids "owned_nodes" b = Some owned ->
  attr_ids "deform_joints" b = Some ids ->
  find_node nm s = None ->
  truthy_opt parent = false -> attr_msg "parent_joint" b = Some None ->
  rig self = None ->
  exists s' new b',
    _add_deform_joint self parent object_id description s = Raise AttributeError s'
    /\ find_node nm s' = Some new
    /\ n_type new = "joint" /\ n_parent new = None
    /\ find_node (node_name self) s' = Some b'
    /\ attr_ids "owned_nodes" b' = Some (owned ++ [n_id new])%list
    /\ attr_ids "deform_joints" b' = Some ids
    /\ length (nodes s') = S (length (nodes s)).
Proof.
  intros nm Hwf Hb Hname Hside How Hids Hfree Hf Hq Hr.
  unfold _add_deform_joint.
  assert (E : match object_id with
              | Some _ => ret object_id
              | None => l <- fields.get_list self deform_joints;; ret (Some (length l))
              end s = Ok (Some (joint_id object_id (cmds.names_of ids s))) s).
  { destruct object_id as [i|]; [reflexivity|].
    now rewrite (bind_step _ _ _ _ _ (get_list_ok self deform_joints s b ids Hb Hids)). }
  rewrite (bind_step _ _ _ _ _ E).
  destruct (add_node_run self "joint" (Some "deform")
              (Some (joint_id object_id (cmds.names_of ids s))) description None
              s base sd b owned None Hwf Hb Hname Hside How Hfree eq_refl)
    as (s1 & R1 & N1 & B1 & A1 & W1 & K1 & L1).
  rewrite (bind_step _ _ _ _ _ R1).
  set (b1 := set_attr_val "owned_nodes" (AMessageList (owned ++ [next_id s])%list) b) in *.
  assert (G : fields.get_string self parent_joint s1 = Ok None s1).
  { apply (get_object_unset self parent_joint s1 b1 B1).
    unfold b1. simpl f_name. attr_other. exact Hq. }
  exists s1. do 2 eexists.
  split.
  { rewrite Hf, (bind_step _ _ _ _ _ G). simpl truthy_opt. cbv iota.
    unfold rig_of. rewrite Hr. reflexivity. }
  split; [exact N1|]. split; [reflexivity|]. split; [reflexivity|].
  split; [exact B1|].
  split. { unfold b1. eapply attr_ids_set_same. exact How. }
  split. { unfold b1. attr_other. exact Hids. }
  exact L1.
Qed.

(** [_add_placement_locator] on a well-formed store: the stores it goes
    through. *)
Lemma placement_locator_run (self : Module) (description : option string)
    (object_id : option nat) (parent : option string) (s : Store)
    (base sd : option string) (b p : Node) (owned lids : list NodeId) (pn : string) :
  let nm := name_from_metadata (mkMetadata base sd "placement" description object_id) in
  wf s -> find_node (node_name self) s = Some b ->
  attr_str "name" b = Some base -> attr_str "side" b = Some sd ->
  attr_ids "owned_nodes" b = Some owned ->
  attr_ids "placement_locators" b = Some lids ->
  find_node nm s = None ->
  locator_parent_is self parent b s pn -> find_node pn s = Some p ->
  exists s' G,
    _add_placement_locator self description object_id parent s = Ok nm s'
    /\ find_node nm s'
       = Some (set_xform_by G
                 (with_parent (added_node s nm "locator" None (n_id b)) (Some (n_id p))))
    /\ find_node (node_name self) s'
       = Some (set_attr_val "placement_locators" (AMessageList (lids ++ [next_id s])%list)
                 (set_attr_val "owned_nodes" (AMessageList (owned ++ [next_id s])%list) b))
    /\ agree_except [node_name self; nm] s s'
    /\ wf s' /\ next_id s' = S (next_id s)
    /\ length (nodes s') = S (length (nodes s)).
Proof.
  intros nm Hwf Hb Hname Hside How Hids Hfree Hpar Hp.
  assert (Hne : nm <> node_name self) by (intros E; rewrite E, Hb in Hfree; discriminate).
  unfold _add_placement_locator.
  destruct (add_node_run self "locator" (Some "placement") object_id description None
              s base sd b owned None Hwf Hb Hname Hside How Hfree eq_refl)
    as (s1 & R1 & N1 & B1 & A1 & W1 & K1 & L1).
  rewrite (bind_step _ _ _ _ _ R1).
  change (added_name base sd "locator" (Some "placement") object_id description)
    with nm in *.
  set (b1 := set_attr_val "owned_nodes" (AMessageList (owned ++ [next_id s])%list) b) in *.
  set (new := added_node s nm "locator" None (n_id b)) in *.
  destruct (parent_carried self nm pn s s1 b b1 p A1 Hb B1 eq_refl Hfree Hp)
    as (p' & Hp' & Hidp).
  assert (Hrun : (parent0 <- (if truthy_opt parent then ret parent
                              else fields.get_string self placement_group);;
                  cmds.parent nm parent0;;;
                  zero_channels nm [translate; rotate; scale];;;
                  fields.append self placement_locators nm;;; ret nm) s1
                 = (cmds.parent nm (Some pn);;;
                    zero_channels nm [translate; rotate; scale];;;
                    fields.append self placement_locators nm;;; ret nm) s1).
  { destruct Hpar as [[Ht ->]|(Hf & q & Hq & Hqn & Hq0)].
    - rewrite Ht, bind_ret. reflexivity.
    - rewrite Hp in Hqn. inversion Hqn; subst q.
      rewrite Hf.
      assert (G : fields.get_string self placement_group s1 = Ok (Some pn) s1).
      { rewrite <- (find_node_name _ _ _ Hp') at 1.
        apply (get_object_run self placement_group s1 b1 (n_id p) p' (proj1 W1) B1).
        - unfold b1. simpl f_name. attr_other. exact Hq.
        - eapply find_node_In; eauto.
        - exact Hidp. }
      now rewrite (bind_step _ _ _ _ _ G). }
  rewrite Hrun.
  destruct (wrapper_tail_run self placement_locators [translate; rotate; scale]
              nm pn s1 b1 new p' lids W1 N1 B1 Hp' Hne)
    as (s' & G & R2 & N2 & B2 & A2 & W2 & K2 & L2).
  { unfold b1. simpl f_name. attr_other. exact Hids. }
  exists s', G. split; [exact R2|].
  split; [rewrite N2, Hidp; reflexivity|]. split; [exact B2|].
  split.
  { intros y Hy. rewrite (A2 y), (A1 y); auto. }
  split; [exact W2|]. split; [now rewrite K2|]. now rewrite L2.
Qed.

(** X17. Two placement locators of a module cannot have the same description and
    id: after a first [_add_placement_locator], a second call with the same
    description and id (in particular with neither of them) raises the
    [ValueError] of [add_node], whatever its parent, and changes nothing. *)
Theorem placement_locator_twice_raises (self : Module) (description : option string)
    (object_id : option nat) (parent : option string) (s : Store)
    (base sd : option string) (b p : Node) (owned lids : list NodeId) (pn : string) :
  let nm := name_from_metadata (mkMetadata base sd "placement" description object_id) in
  wf s -> find_node (node_name self) s = Some b ->
  attr_str "name" b = Some base -> attr_str "side" b = Some sd ->
  attr_ids "owned_nodes" b = Some owned ->
  attr_ids "placement_locators" b = Some lids ->
  find_node nm s = None ->
  locator_parent_is self parent b s pn -> find_node pn s = Some p ->
  exists s',
    _add_placement_locator self description object_id parent s = Ok nm s'
    /\ forall parent',
         _add_placement_locator self description object_id parent' s'
         = Raise (ValueError ("A node with the name `" ++ nm ++ "` already exists")) s'.
Proof.
  intros nm Hwf Hb Hname Hside How Hids Hfree Hpar Hp.
  destruct (placement_locator_run self description object_id parent s base sd b p owned
              lids pn Hwf Hb Hname Hside How Hids Hfree Hpar Hp)
    as (s' & G & Hrun & Hnew & Hb' & _).
  exists s'. split; [exact Hrun|]. intros parent'.
  assert (Hn' : fields.get_string self name s' = Ok base s').
  { apply (attr_str_get self name s' _ base Hb'). simpl f_name. attr_other. exact Hname. }
  assert (Hs' : fields.get_string self side s' = Ok sd s').
  { apply (attr_str_get self side s' _ sd Hb'). simpl f_name. attr_other. exact Hside. }
  unfold _add_placement_locator.
  pose proof (add_node_raises self "locator" (Some "placement") object_id description None
                s' base sd Hn' Hs' (objExists_true _ _ _ Hnew)) as Hraise.
  unfold bind at 1. now rewrite Hraise.
Qed.

End WrapperRuns.

(** ** Default placement *)

Section Placement.

Context {codec : Codec} {host : Host} {registry : Registry}.

Lemma place_loop (g : nat -> option Mat4) (l : list string) :
  forall (i : nat) (s : Store),
    wf s -> NoDup l -> (forall x, In x l -> find_node x s <> None) ->
    exists s',
      for_each_from i l
        (fun k joint => match g k with
                        | None => ret tt
                        | Some matrix => xform_matrix_ws joint matrix
                        end) s = Ok tt s'
      /\ (forall k x n, nth_error l k = Some x -> find_node x s = Some n ->
            find_node x s' = Some (placed (g (i + k)) n))
      /\ agree_except l s s' /\ wf s'
      /\ length (nodes s') = length (nodes s).
Proof.
  induction l as [|x l IH]; intros i s Hwf Hnd Hex.
  - exists s. split; [reflexivity|]. split; [intros [|k] y n H; discriminate|].
    split; [apply agree_except_refl|]. auto.
  - inversion Hnd as [|? ? Hx Hnd']; subst.
    destruct (find_node x s) as [n|] eqn:En; [|exfalso; apply (Hex x); simpl; auto].
    assert (Hstep : exists s1,
               match g i with
               | None => ret tt
               | Some matrix => xform_matrix_ws x matrix
               end s = Ok tt s1
               /\ find_node x s1 = Some (placed (g i) n)
               /\ agree_except [x] s s1 /\ wf s1
               /\ length (nodes s1) = length (nodes s)).
    { destruct (g i) as [m|].
      - exists (update_node (n_id n) (set_xform_by (tf_of_matrix m)) s).
        destruct (step_update s x n (set_xform_by (tf_of_matrix m)) Hwf En
                    (set_xform_by_keeps _)) as (H1 & H2 & H3).
        split; [unfold xform_matrix_ws; apply set_xform_ok; exact En|].
        split; [exact H1|]. split; [exact H2|]. split; [exact H3|].
        apply length_update_node.
      - exists s. split; [reflexivity|]. split; [exact En|].
        split; [apply agree_except_refl|]. auto. }
    destruct Hstep as (s1 & R1 & N1 & A1 & W1 & L1).
    destruct (IH (S i) s1 W1 Hnd') as (s' & R2 & P2 & A2 & W2 & L2).
    { intros y Hy. rewrite (A1 y).
      - apply Hex. now right.
      - simpl. intros [->|[]]. contradiction. }
    exists s'. split; [simpl; now rewrite (bind_step _ _ _ _ _ R1)|].
    split.
    { intros [|k] y m Hk Hy; simpl in Hk.
      - inversion Hk; subst y. rewrite En in Hy. inversion Hy; subst m.
        rewrite Nat.add_0_r. rewrite (A2 x Hx). exact N1.
      - rewrite Nat.add_succ_r. apply (P2 k y m Hk).
        rewrite (A1 y); [exact Hy|].
        simpl. intros [->|[]]. apply Hx. eapply nth_error_In; eauto. }
    split.
    { intros y Hy. rewrite (A2 y), (A1 y); auto; simpl in *; tauto. }
    split; [exact W2|]. now rewrite L2.
Qed.

(** X18. Each half of [place_placement_nodes] gives the node at position [i] of
    the list the matrix at position [i] of the configuration; the nodes
    beyond the end of the configured list, those of a class or a list that
    is not configured, and every node outside the list are left as they
    were. *)
Theorem place_nodes_by_index (self : Module) (f : Field) (key : string)
    (l : list string) (s : Store) :
  wf s -> fields.get_list self f s = Ok l s -> NoDup l ->
  exists s',
    place_nodes self f key s = Ok tt s'
    /\ (forall i x n, nth_error l i = Some x -> find_node x s = Some n ->
          find_node x s' = Some (placed (placement_matrix (class_name self) key i) n))
    /\ agree_except l s s'
    /\ length (nodes s') = length (nodes s).
Proof.
  intros Hwf Hl Hnd.
  destruct (place_loop (placement_matrix (class_name self) key) l 0 s Hwf Hnd)
    as (s' & Hrun & Hpost & Hag & _ & Hlen).
  { intros x Hx. eapply get_list_exist; eauto. }
  exists s'. split; [|split; [exact Hpost|split; [exact Hag | exact Hlen]]].
  unfold place_nodes. rewrite (bind_step _ _ _ _ _ Hl). exact Hrun.
Qed.

Lemma for_each_from_idle {A} (l : list A) (body : nat -> A -> M unit) (s : Store) :
  (forall i x, body i x s = Ok tt s) -> forall i, for_each_from i l body s = Ok tt s.
Proof.
  intros Hb. induction l as [|x l IH]; intros i; simpl; [reflexivity|].
  now rewrite (bind_step _ _ _ _ _ (Hb i x)).
Qed.

(** X19. For a class without default placement, [place_placement_nodes] moves
    nothing: every lookup of a matrix fails, which is logged and not
    raised. *)
Theorem place_without_config (self : Module) (joints locators : list string) (s : Store) :
  default_module_placement (class_name self) "deform_joints" = None ->
  default_module_placement (class_name self) "placement_locators" = None ->
  fields.get_list self deform_joints s = Ok joints s ->
  fields.get_list self placement_locators s = Ok locators s ->
  place_placement_nodes self s = Ok tt s.
Proof.
  intros Hj Hl Gj Gl. unfold place_placement_nodes, place_nodes.
  rewrite Hj, Hl.
  assert (E1 : (nodes0 <- fields.get_list self deform_joints;;
                for_each_from 0 nodes0
                  (fun (i : nat) (joint : string) =>
                     match @None Mat4 with
                     | Some matrix => xform_matrix_ws joint matrix
                     | None => ret tt
                     end)) s = Ok tt s).
  { rewrite (bind_step _ _ _ _ _ Gj). now apply for_each_from_idle. }
  rewrite (bind_step _ _ _ _ _ E1).
  rewrite (bind_step _ _ _ _ _ Gl). now apply for_each_from_idle.
Qed.

End Placement.

(** ** The first construction of a module *)

Lemma setAttr_str_run nm a t s n o :
  find_node nm s = Some n -> attr_str a n = Some o ->
  cmds.setAttr nm a (PStr t) s
  = Ok tt (update_node (n_id n) (set_attr_val a (AString (Some t))) s).
Proof.
  intros Hn Hv. unfold cmds.setAttr. unfold attr_str in Hv.
  destruct (find_attr a n) as [x|] eqn:Ex; [|discriminate].
  rewrite (bind_step _ _ _ _ _ (attr_ok _ _ _ _ _ Hn Ex)).
  destruct (a_val x); try discriminate.
  now rewrite (modify_ok _ _ _ _ Hn).
Qed.

Section FirstConstruction.

Context {codec : Codec} {host : Host} {registry : Registry}.

Lemma MopNode_init_run (nm : string) (s : Store) :
  wf s -> find_node nm s = None ->
  exists s',
    fields.MopNode_init RigModule nm s = Ok tt s'
    /\ find_node nm s' = Some (fresh_backing (next_id s) nm)
    /\ agree_except [nm] s s' /\ wf s' /\ next_id s' = S (next_id s)
    /\ length (nodes s') = S (length (nodes s)).
Proof.
  intros Hwf Hfree.
  set (n0 := mkNode (next_id s) nm "transform" None cmds.default_attrs []
                    cmds.default_xform []).
  destruct (step_append s n0 Hwf Hfree eq_refl) as (Ha & Aa & Wa).
  set (sa := mkStore (nodes s ++ [n0]) (S (next_id s))) in *.
  set (F := fun x => with_attrs x (n_attrs x ++ map fields.new_attr RigModule_fields)).
  assert (KF : keeps_name F) by (intros x; split; reflexivity).
  destruct (step_update sa nm n0 F Wa Ha KF) as (Hb & Ab & Wb).
  exists (update_node (n_id n0) F sa).
  split; [|split; [exact Hb|split; [|split; [exact Wb|split; [reflexivity|]]]]].
  - unfold fields.MopNode_init.
    rewrite (bind_step _ _ _ s s (eq_refl : get_store s = Ok s s)).
    unfold cmds.objExists. rewrite Hfree.
    assert (C : cmds.createNode "transform" (Some nm) None s = Ok nm sa).
    { unfold cmds.createNode, cmds.new_node.
      rewrite (bind_step _ _ _ None s (eq_refl : ret None s = Ok None s)).
      unfold cmds.unique_name, cmds.objExists. now rewrite Hfree. }
    rewrite (bind_step _ _ _ _ _ C).
    now rewrite (modify_ok _ _ _ _ Ha).
  - eapply agree_except_trans; [exact Aa | exact Ab | |]; intros x Hx; exact Hx.
  - rewrite length_update_node. unfold sa. simpl. rewrite length_app. simpl. lia.
Qed.

Lemma get_string_run self f s b o :
  find_node (node_name self) s = Some b -> attr_str (f_name f) b = Some o ->
  fields.get_string self f s = Ok o s.
Proof.
  intros Hb Hv. unfold attr_str in Hv.
  destruct (find_attr (f_name f) b) as [x|] eqn:Ex; [|discriminate].
  destruct (a_val x) as [|o'| |] eqn:Ev; try discriminate. inversion Hv; subst o'.
  unfold fields.get_string, fields.get.
  rewrite (bind_step _ _ _ _ _ (getAttr_ok _ _ _ _ _ Hb Ex)). rewrite Ev.
  now destruct o.
Qed.

(** X21. Constructing a module of class [RigModule] under a name the scene does
    not hold, with a rig and without a parent joint, on a side among the
    choices and with a codec that decodes the name it encodes: the
    constructor returns the instance on the node named by the codec with the
    role [mod].  It leaves that node under the modules group of the rig, with
    the name, the side and the class written on it, initialized and not
    built, without joints, locators or controllers, owning the three groups
    it is the parent of.  Four nodes are added and no other node of the scene
    is changed. *)
Theorem init_creates_module (nm sd mg : string) (rg : Rig) (g : Node) (md : Metadata) (s : Store) :
  let backing := name_from_metadata (mkMetadata (Some nm) (Some sd) "mod" None None) in
  let grp := group_name (Some nm) (Some sd) in
  wf s ->
  find_node nm s = None -> find_node backing s = None ->
  In sd ["M"; "L"; "R"] ->
  modules_group rg = Some mg -> find_node mg s = Some g ->
  metadata_from_name backing = Some md ->
  md_base_name md = Some nm -> md_side md = Some sd ->
  find_node (grp "placement") s = None ->
  find_node (grp "controls") s = None ->
  find_node (grp "extras") s = None ->
  NoDup [backing; grp "placement"; grp "controls"; grp "extras"] ->
  exists s' b gp gc ge,
    init RigModule nm sd None (Some rg) s = Ok (mkModule backing (Some rg) "RigModule") s'
    /\ find_node backing s' = Some b
    /\ n_type b = "transform" /\ n_parent b = Some (n_id g)
    /\ attr_str "name" b = Some (Some nm)
    /\ attr_str "side" b = Some (Some sd)
    /\ attr_str "module_type" b = Some (Some "RigModule")
    /\ attr_bool "is_initialized" b = Some true
    /\ attr_bool "is_built" b = Some false
    /\ attr_msg "parent_joint" b = Some None
    /\ attr_ids "deform_joints" b = Some []
    /\ attr_ids "placement_locators" b = Some []
    /\ attr_ids "controllers" b = Some []
    /\ find_node (grp "placement") s' = Some gp
    /\ find_node (grp "controls") s' = Some gc
    /\ find_node (grp "extras") s' = Some ge
    /\ (forall x, In x [gp; gc; ge] -> n_parent x = Some (n_id b))
    /\ attr_msg "placement_group" b = Some (Some (n_id gp))
    /\ attr_msg "controls_group" b = Some (Some (n_id gc))
    /\ attr_msg "extras_group" b = Some (Some (n_id ge))
    /\ attr_ids "owned_nodes" b = Some [n_id gp; n_id gc; n_id ge]
    /\ length (nodes s') = 4 + length (nodes s)
    /\ agree_except [backing; grp "placement"; grp "controls"; grp "extras"] s s'.
Proof.
  intros backing grp Hwf Fnm Fb Hsd Hmg Hg Hmd Hmn Hms Fp Fc Fe Hnd.
  assert (Nmg : mg <> backing) by (intros E; rewrite E, Fb in Hg; discriminate).
  assert (Hch : existsb (String.eqb sd) ["M"; "L"; "R"] = true).
  { simpl in Hsd. destruct Hsd as [<-|[<-|[<-|[]]]]; reflexivity. }
  assert (E0 : cmds.objExists nm s = false) by (unfold cmds.objExists; now rewrite Fnm).
  set (self := mkModule backing (Some rg) "RigModule").
  (* the backing node *)
  destruct (MopNode_init_run backing s Hwf Fb) as (s1 & R1 & B1 & A1 & W1 & K1 & L1).
  set (k := next_id s) in *.
  set (b1 := fresh_backing k backing) in *.
  assert (Gi : fields.get self fields.is_initialized s1 = Ok (PBool false) s1).
  { exact (getAttr_ok backing "is_initialized" s1 b1
             (mkAttr "is_initialized" None (ABool false)) B1 eq_refl). }
  (* name, side and module type *)
  set (F2 := set_attr_val "name" (AString (Some nm))).
  assert (R2 : fields.set self name (PStr nm) s1 = Ok tt (update_node k F2 s1)).
  { exact (setAttr_str_run backing "name" nm s1 b1 None B1 eq_refl). }
  destruct (step_update s1 backing b1 F2 W1 B1 (set_attr_val_keeps _ _)) as (B2 & A2 & W2).
  change (n_id b1) with k in *.
  set (s2 := update_node k F2 s1) in *.
  set (F3 := set_attr_val "side" (AString (Some sd))).
  assert (R3 : fields.set self side (PStr sd) s2 = Ok tt (update_node k F3 s2)).
  { unfold fields.set. cbn [f_kind side]. rewrite Hch.
    exact (setAttr_str_run backing "side" sd s2 (F2 b1) (Some "M") B2 eq_refl). }
  destruct (step_update s2 backing (F2 b1) F3 W2 B2 (set_attr_val_keeps _ _))
    as (B3 & A3 & W3).
  change (n_id (F2 b1)) with k in *.
  set (s3 := update_node k F3 s2) in *.
  set (F4 := set_attr_val "module_type" (AString (Some "RigModule"))).
  assert (R4 : fields.set self module_type (PStr "RigModule") s3
               = Ok tt (update_node k F4 s3)).
  { exact (setAttr_str_run backing "module_type" "RigModule" s3 (F3 (F2 b1)) None
             B3 eq_refl). }
  destruct (step_update s3 backing (F3 (F2 b1)) F4 W3 B3 (set_attr_val_keeps _ _))
    as (B4 & A4 & W4).
  change (n_id (F3 (F2 b1))) with k in *.
  set (s4 := update_node k F4 s3) in *.
  set (b4 := F4 (F3 (F2 b1))) in *.
  (* under the modules group of the rig *)
  assert (R5 : cmds.listRelatives_parent backing s4 = Ok None s4).
  { unfold cmds.listRelatives_parent.
    now rewrite (bind_step _ _ _ _ _ (node_ok _ _ _ B4)). }
  assert (G4 : find_node mg s4 = Some g).
  { apply (agree_find _ _ _ _ _ A4); [not_in|].
    apply (agree_find _ _ _ _ _ A3); [not_in|].
    apply (agree_find _ _ _ _ _ A2); [not_in|].
    apply (agree_find _ _ _ _ _ A1); [not_in|]. exact Hg. }
  set (F5 := fun x => with_parent x (Some (n_id g))).
  assert (R7 : cmds.parent backing (modules_group rg) s4 = Ok tt (update_node k F5 s4)).
  { rewrite Hmg. exact (parent_ok backing mg s4 b4 g B4 G4). }
  destruct (step_update s4 backing b4 F5 W4 B4 (with_parent_keeps _)) as (B5 & A5 & W5).
  change (n_id b4) with k in *.
  set (s5 := update_node k F5 s4) in *.
  set (b5 := F5 b4) in *.
  assert (A05 : agree_except [backing] s s5).
  { intros y Hy. rewrite (A5 y Hy), (A4 y Hy), (A3 y Hy), (A2 y Hy). exact (A1 y Hy). }
  (* the groups *)
  assert (Dn : backing <> grp "placement" /\ backing <> grp "controls"
               /\ backing <> grp "extras" /\ grp "placement" <> grp "controls"
               /\ grp "placement" <> grp "extras" /\ grp "controls" <> grp "extras").
  { inversion Hnd as [|? ? N1 Hnd1]; subst. inversion Hnd1 as [|? ? N2 Hnd2]; subst.
    inversion Hnd2 as [|? ? N3 _]; subst. simpl in N1, N2, N3. intuition. }
  destruct Dn as (Dbp & Dbc & Dbe & Dpc & Dpe & Dce).
  destruct (initialize_run self s5 b5 (Some nm) (Some sd) [] None None None
              W5 B5 eq_refl eq_refl eq_refl eq_refl eq_refl eq_refl)
    as (s6 & R6 & B6 & Gp & Gc & Ge & A6 & W6 & K6 & L6); try assumption.
  { rewrite (A05 _); [exact Fp | not_in]. }
  { rewrite (A05 _); [exact Fc | not_in]. }
  { rewrite (A05 _); [exact Fe | not_in]. }
  fold grp in Gp, Gc, Ge, A6.
  change (node_name self) with backing in *.
  change (n_id b5) with k in *.
  set (k5 := next_id s5) in *.
  set (b6 := initialized_backing [] k5 b5) in *.
  (* nothing to place, nothing to rename *)
  assert (R8 : place_placement_nodes self s6 = Ok tt s6).
  { unfold place_placement_nodes, place_nodes.
    assert (P1 : forall f key, attr_ids (f_name f) b6 = Some [] ->
              (l <- fields.get_list self f ;;
               for_each_from 0 l (fun i joint =>
                 match match default_module_placement (class_name self) key with
                       | Some l => nth_error l i
                       | None => None
                       end with
                 | None => ret tt
                 | Some matrix => xform_matrix_ws joint matrix
                 end)) s6 = Ok tt s6).
    { intros f key Hf.
      now rewrite (bind_step _ _ _ _ _ (get_list_ok self f s6 b6 [] B6 Hf)). }
    rewrite (bind_step _ _ _ _ _ (P1 deform_joints "deform_joints" eq_refl)).
    exact (P1 placement_locators "placement_locators" eq_refl). }
  assert (R9 : update self s6 = Ok self s6).
  { assert (U1 : fields.get self fields.is_built s6 = Ok (PBool false) s6).
    { exact (getAttr_ok backing "is_built" s6 b6
               (mkAttr "is_built" None (ABool false)) B6 eq_refl). }
    assert (U2 : update_parent_joint self s6 = Ok tt s6).
    { apply update_parent_joint_idle.
      - unfold cmds.listConnections_source.
        now rewrite (bind_step _ _ _ _ _ (node_ok _ _ _ B6)).
      - exact (get_object_unset self parent_joint s6 b6 B6 eq_refl). }
    unfold update.
    rewrite (bind_step _ _ _ _ _ U1). cbn [truthy].
    rewrite (bind_step _ _ _ _ _ U2).
    change (node_name self) with backing. rewrite Hmd. simpl of_option. rewrite bind_ret.
    rewrite (bind_step _ _ _ _ _ (get_string_run self name s6 b6 (Some nm) B6 eq_refl)).
    rewrite (bind_step _ _ _ _ _ (get_string_run self side s6 b6 (Some sd) B6 eq_refl)).
    rewrite Hmn, Hms. unfold opt_eqb. rewrite !String.eqb_refl. reflexivity. }
  set (F7 := set_attr_val "is_initialized" (ABool true)).
  assert (R10 : fields.set self fields.is_initialized (PBool true) s6
                = Ok tt (update_node k F7 s6)).
  { exact (setAttr_bool_run backing "is_initialized" true s6 b6 false B6 eq_refl). }
  destruct (step_update s6 backing b6 F7 W6 B6 (set_attr_val_keeps _ _)) as (B7 & A7 & W7).
  change (n_id b6) with k in *.
  set (s7 := update_node k F7 s6) in *.
  exists s7, (F7 b6), (group_node k5 (grp "placement") k true false),
    (group_node (S k5) (grp "controls") k true true),
    (group_node (S (S k5)) (grp "extras") k false true).
  split.
  { unfold init.
    rewrite (bind_step _ _ _ s s (eq_refl : get_store s = Ok s s)).
    rewrite E0. fold backing. change (c_name RigModule) with "RigModule". fold self.
    rewrite (bind_step _ _ _ _ _ R1), (bind_step _ _ _ _ _ Gi). cbn [truthy].
    rewrite (bind_step _ _ _ _ _ R2), (bind_step _ _ _ _ _ R3), (bind_step _ _ _ _ _ R4).
    rewrite (bind_step _ _ _ _ _ R5).
    rewrite (bind_step _ _ _ rg s4 (eq_refl : rig_of self s4 = Ok rg s4)).
    rewrite (bind_step _ _ _ _ _ R7).
    rewrite (bind_step _ _ _ tt s5 (eq_refl : ret tt s5 = Ok tt s5)).
    change (c_initialize RigModule self) with (initialize self).
    rewrite (bind_step _ _ _ _ _ R6), (bind_step _ _ _ _ _ R8).
    rewrite (bind_step _ _ _ _ _ R9).
    now rewrite (bind_step _ _ _ _ _ R10). }
  split; [exact B7|].
  repeat (split; [reflexivity|]).
  split; [carry A7 Gp|]. split; [carry A7 Gc|]. split; [carry A7 Ge|].
  split.
  { intros x [<-|[<-|[<-|[]]]]; reflexivity. }
  repeat (split; [reflexivity|]).
  split.
  { unfold s7. rewrite length_update_node, L6. unfold s5, s4, s3, s2.
    rewrite !length_update_node, L1. reflexivity. }
  intros y Hy. rewrite (A7 y), (A6 y), (A05 y); [reflexivity| | |]; revert Hy; not_in.
Qed.

End FirstConstruction.

(** ** [update_mirror] as a whole *)

(** *** Reading a store in which one attribute of one node was set *)







Section WholeUpdateMirror.

Context {codec : Codec} {host : Host} {registry : Registry}.

(** *** The mirror module and the rest position *)





(** *** The field loop *)




(** *** The two phases together *)




End WholeUpdateMirror.

(** * The statements on concrete scenes *)

Module examples.

Import std scenes.

Lemma update_noop_when_built_witness :
  fields.get scenes.arm fields.is_built scenes.built_scene
  = Ok (PBool true) scenes.built_scene
  /\ @update std.codec scenes.arm scenes.built_scene = Ok scenes.arm scenes.built_scene.
Proof.
  assert (H : fields.get scenes.arm fields.is_built scenes.built_scene
              = Ok (PBool true) scenes.built_scene) by (vm_compute; reflexivity).
  split; [exact H | exact (@update_noop_when_built std.codec scenes.arm scenes.built_scene H)].
Defined.

Lemma publish_idempotent_witness :
  publish scenes.arm scenes.built_scene
  = Ok tt (state_of (publish scenes.arm scenes.built_scene))
  /\ state_of (publish scenes.arm (state_of (publish scenes.arm scenes.built_scene)))
     = state_of (publish scenes.arm scenes.built_scene).
Proof.
  split; [vm_compute; reflexivity|].
  exact (proj1 (publish_idempotent scenes.arm scenes.built_scene)).
Defined.

Lemma init_reattaches_initialized_witness :
  init RigModule "arm_L_mod" "M" None (Some the_rig) scenes.arm_scene
  = Ok scenes.arm scenes.arm_scene.
Proof.
  apply (init_reattaches_initialized RigModule "arm_L_mod" "M" None (Some the_rig)
           scenes.arm_scene); vm_compute; reflexivity.
Defined.

(** C8 as stated fails: the node "arm_L_mod" exists, left uninitialized by a
    construction that raised, and constructing a module by that name writes
    its [name] field and creates the three groups. *)
Lemma init_existing_uninitialized_counterexample :
  cmds.objExists "arm_L_mod" scenes.aborted_scene = true
  /\ fields.get_string scenes.arm name scenes.aborted_scene
     = Ok (Some "arm") scenes.aborted_scene
  /\ length (nodes scenes.aborted_scene) = 4
  /\ let s' := state_of (init RigModule "arm_L_mod" "M" None (Some the_rig)
                           scenes.aborted_scene) in
     length (nodes s') = 7
     /\ cmds.objExists "arm_L_mod_M_placement_grp" s' = true
     /\ option_map (find_attr "name") (node_by_id 3 s')
        = Some (Some (mkAttr "name" None (AString (Some "arm_L_mod")))).
Proof. vm_compute. repeat split. Qed.

Lemma sync_field_skips_falsy_witness :
  sync_field scenes.armR mirror_type
    (state_of (cmds.modify "arm_L_mod" (set_attr_val "mirror_type" (AString None))
                 scenes.mirror_scene))
  = Ok tt (state_of (cmds.modify "arm_L_mod" (set_attr_val "mirror_type" (AString None))
                 scenes.mirror_scene)).
Proof.
  refine (proj1 (sync_field_skips_falsy scenes.armR mirror_type _ _ PNone _ _ _ _)).
  - simpl. intros [H|[H|[]]]; discriminate.
  - reflexivity.
  - vm_compute. reflexivity.
  - reflexivity.
Defined.

Lemma distinct_ids_mirror_scene : distinct_ids scenes.mirror_scene.
Proof.
  unfold distinct_ids. vm_compute.
  repeat (constructor; [simpl; intuition discriminate|]). constructor.
Qed.

Ltac in_cases H := repeat (destruct H as [<-|H]; [|]); try destruct H.

Ltac nodup_strings := repeat (constructor; [simpl; intuition discriminate|]); constructor.

Lemma update_renames_witness :
  exists s' b',
    update arm renaming_scene = Ok (with_node_name arm "leg_L_mod") s'
    /\ find_node "leg_L_mod" s' = Some b'
    /\ option_map n_id (find_node "leg_L_0_deform" s') = Some 6
    /\ option_map a_val (find_attr "leg_L_0_ctl__parent_space_data" b') = Some (AString None).
Proof.
  destruct (find_node "arm_L_mod" renaming_scene) as [b|] eqn:Eb;
    [|exfalso; revert Eb; vm_compute; discriminate].
  assert (Hattrs : persistent_attrs b
                   = ["arm_L_0_ctl__shape_data"; "arm_L_0_ctl__attributes_state";
                      "arm_L_0_ctl__parent_space_data"]).
  { revert Eb. vm_compute. intros [= <-]. reflexivity. }
  destruct (update_renames arm renaming_scene renaming_scene b
              (mkMetadata (Some "arm") (Some "L") "mod" None None)
              (Some "leg") (Some "L") [3; 4; 5; 6; 7])
    as (s' & b' & Hrun & Hb' & _ & Hown & Hattr).
  - vm_compute. reflexivity.
  - vm_compute. reflexivity.
  - unfold distinct_ids. vm_compute.
    repeat (constructor; [simpl; intuition discriminate|]). constructor.
  - exact Eb.
  - revert Eb. vm_compute. intros [= <-]. reflexivity.
  - revert Eb. vm_compute. intros [= <-]. reflexivity.
  - reflexivity.
  - left. discriminate.
  - revert Eb. vm_compute. intros [= <-]. reflexivity.
  - vm_compute. nodup_strings.
  - vm_compute. intuition discriminate.
  - intros x Hx. vm_compute in Hx.
    repeat (destruct Hx as [<-|Hx]; [vm_compute; discriminate|]). destruct Hx.
  - vm_compute. nodup_strings.
  - intros x Hx. vm_compute in Hx.
    repeat (destruct Hx as [<-|Hx]; [vm_compute; reflexivity|]). destruct Hx.
  - rewrite Hattrs. nodup_strings.
  - rewrite Hattrs. intros a Ha. simpl in Ha.
    repeat (destruct Ha as [<-|Ha];
            [do 3 eexists; split; vm_compute; reflexivity|]). destruct Ha.
  - rewrite Hattrs. vm_compute. nodup_strings.
  - rewrite Hattrs. intros a Ha. simpl in Ha. revert Eb. vm_compute. intros [= <-].
    repeat (destruct Ha as [<-|Ha]; [vm_compute; reflexivity|]). destruct Ha.
  - exists s', b'. split; [exact Hrun|]. split; [exact Hb'|]. split.
    + destruct (find_node "arm_L_0_deform" renaming_scene) as [n|] eqn:En;
        [|exfalso; revert En; vm_compute; discriminate].
      assert (Hid : n_id n = 6) by (revert En; vm_compute; intros [= <-]; reflexivity).
      assert (H : find_node "leg_L_0_deform" s' = Some (with_name n "leg_L_0_deform")).
      { apply (Hown "arm_L_0_deform" n
                 (mkMetadata (Some "arm") (Some "L") "deform" None (Some 0))).
        - vm_compute. tauto.
        - exact En.
        - vm_compute. reflexivity. }
      rewrite H. simpl. now rewrite Hid.
    + destruct (find_attr "arm_L_0_ctl__parent_space_data" b) as [x|] eqn:Ex;
        [|exfalso; revert Ex Eb; vm_compute; intros Ex [= <-]; discriminate].
      assert (Hv : a_val x = AString None).
      { revert Ex Eb. vm_compute. intros Ex [= <-]. revert Ex. vm_compute.
        intros [= <-]. reflexivity. }
      assert (H : find_attr "leg_L_0_ctl__parent_space_data" b'
                  = Some (mkAttr "leg_L_0_ctl__parent_space_data" (a_category x) (a_val x))).
      { apply (Hattr "arm_L_0_ctl__parent_space_data" x "arm_L_0_ctl" "parent_space_data"
                 (mkMetadata (Some "arm") (Some "L") "ctl" None (Some 0))).
        - rewrite Hattrs. simpl. tauto.
        - exact Ex.
        - vm_compute. reflexivity.
        - vm_compute. reflexivity. }
      rewrite H. simpl. now rewrite Hv.
Defined.

Lemma owning_rig_scene : owning rig_scene.
Proof.
  split; [|split].
  - unfold distinct_ids. simpl. repeat (constructor; [simpl; intuition discriminate|]).
    constructor.
  - intros n [<-|[<-|[]]]; simpl; lia.
  - intros n [<-|[<-|[]]] f l [->| ->] Hl; discriminate.
Qed.

(** C4 as stated fails: after [add_control], the controller is listed in
    [controllers] and not in [owned_nodes]. *)
Lemma add_control_not_owned_counterexample :
  fields.get_list arm controllers placed_scene = Ok [] placed_scene
  /\ fields.get_list arm controllers controlled_scene = Ok ["arm_L_0_ctl"] controlled_scene
  /\ fields.get_list arm owned_nodes controlled_scene
     = Ok ["arm_L_placement_grp"; "arm_L_controls_grp"; "arm_L_extras_grp";
           "arm_L_0_deform"; "arm_L_pv_placement"] controlled_scene
  /\ ~ In "arm_L_0_ctl" ["arm_L_placement_grp"; "arm_L_controls_grp"; "arm_L_extras_grp";
                         "arm_L_0_deform"; "arm_L_pv_placement"].
Proof.
  split; [vm_compute; reflexivity|]. split; [vm_compute; reflexivity|].
  split; [vm_compute; reflexivity|]. simpl. intuition discriminate.
Qed.

(** C7 as stated fails: the first locator of a module, created without
    [object_id], has no id in its name. *)
Lemma locator_id_not_defaulted_counterexample :
  fields.get_list arm placement_locators arm_scene = Ok [] arm_scene
  /\ exists s',
       _add_placement_locator arm None None None arm_scene = Ok "arm_L_placement" s'
       /\ option_map md_id (metadata_from_name "arm_L_placement") = Some None
       /\ "arm_L_placement"
          <> name_from_metadata (mkMetadata (Some "arm") (Some "L") "placement" None (Some 0)).
Proof.
  split; [vm_compute; reflexivity|].
  eexists. split; [vm_compute; reflexivity|].
  split; [vm_compute; reflexivity|]. vm_compute. discriminate.
Qed.

Lemma ids_below_arm_scene : ids_below arm_scene.
Proof.
  intros n Hn. vm_compute in Hn.
  repeat (destruct Hn as [<-|Hn]; [vm_compute; lia|]). destruct Hn.
Qed.

Lemma add_node_duplicate_or_create_witness :
  add_node arm "transform" (Some "grp") None (Some "placement") None arm_scene
  = Raise (ValueError "A node with the name `arm_L_placement_grp` already exists") arm_scene
  /\ exists s', add_node arm "joint" (Some "deform") (Some 0) None None arm_scene
                = Ok "arm_L_0_deform" s'
                /\ length (nodes s') = S (length (nodes arm_scene)).
Proof.
  split.
  - apply (proj1 (add_node_duplicate_or_create arm "transform" (Some "grp") None
                    (Some "placement") None arm_scene (Some "arm") (Some "L")
                    ltac:(vm_compute; reflexivity) ltac:(vm_compute; reflexivity))).
    vm_compute. reflexivity.
  - destruct (find_node "arm_L_mod" arm_scene) as [b|] eqn:Eb;
      [|exfalso; revert Eb; vm_compute; discriminate].
    destruct (proj2 (add_node_duplicate_or_create arm "joint" (Some "deform") (Some 0)
                       None None arm_scene (Some "arm") (Some "L")
                       ltac:(vm_compute; reflexivity) ltac:(vm_compute; reflexivity))
                ltac:(vm_compute; reflexivity) b [3; 4; 5] None Eb)
      as (Hrun & Hlen & _).
    + revert Eb. vm_compute. intros [= <-]. reflexivity.
    + reflexivity.
    + exact ids_below_arm_scene.
    + eexists. split; [exact Hrun | exact Hlen].
Defined.

Lemma wrappers_object_id_witness :
  exists s' new,
    _add_deform_joint arm (Some "skeleton") None None arm_scene = Ok "arm_L_0_deform" s'
    /\ find_node "arm_L_0_deform" s' = Some new /\ n_type new = "joint".
Proof.
  destruct (find_node "arm_L_mod" arm_scene) as [b|] eqn:Eb;
    [|exfalso; revert Eb; vm_compute; discriminate].
  destruct (find_node "skeleton" arm_scene) as [p|] eqn:Ep;
    [|exfalso; revert Ep; vm_compute; discriminate].
  destruct (wrappers_object_id arm (Some "skeleton") None arm_scene [] (Some "arm") (Some "L")
              ltac:(vm_compute; reflexivity) ltac:(vm_compute; reflexivity)
              ltac:(vm_compute; reflexivity))
    as (_ & _ & H).
  destruct (H "skeleton" p b [3; 4; 5] eq_refl ltac:(discriminate) Ep Eb) as [Hj _].
  - revert Eb. vm_compute. intros [= <-]. reflexivity.
  - exact ids_below_arm_scene.
  - apply Hj. vm_compute. reflexivity.
Defined.

Ltac wf_scene :=
  split;
  [ unfold distinct_ids; vm_compute;
    repeat (constructor; [simpl; intuition discriminate|]); constructor
  | intros n Hn; vm_compute in Hn;
    repeat (destruct Hn as [<-|Hn]; [vm_compute; lia|]); destruct Hn ].

Ltac node_of nm s b Eb :=
  destruct (find_node nm s) as [b|] eqn:Eb;
  [|exfalso; revert Eb; vm_compute; discriminate].

Ltac by_node Eb := revert Eb; vm_compute; intros [= <-]; reflexivity.

Ltac facts Eb :=
  solve [ by_node Eb | vm_compute; reflexivity | vm_compute; intros H; discriminate H ].

Lemma wf_arm_scene : wf arm_scene.
Proof. wf_scene. Qed.

Lemma wf_bare_scene : wf bare_scene.
Proof. wf_scene. Qed.

Lemma wf_placed_scene : wf placed_scene.
Proof. wf_scene. Qed.

Lemma update_mirror_reflects_positions_witness :
  exists s' nt',
    mirror_nodes armR mirror_scene = Ok tt s'
    /\ find_node "arm_R_0_deform" s' = Some nt'
    /\ position (t_matrix (n_xform nt')) = reflect_x (5, 0, 0)%R.
Proof.
  destruct (update_mirror_reflects_positions armR (RigModule, armL)
              ["arm_L_0_deform"] [] ["arm_R_0_deform"] [] "Behavior" mirror_scene)
    as (s' & Hrun & Hpost); try (vm_compute; reflexivity).
  - left. reflexivity.
  - exact distinct_ids_mirror_scene.
  - simpl. repeat constructor. simpl. tauto.
  - simpl. intros p q [<-|[]] [<-|[]]. discriminate.
  - node_of "arm_L_0_deform" mirror_scene ns Es.
    node_of "arm_R_0_deform" mirror_scene nt Et.
    destruct (Hpost 0 "arm_L_0_deform" "arm_R_0_deform" ns nt eq_refl eq_refl Es Et)
      as (nt' & Hnt' & Hpos & _).
    exists s', nt'. split; [exact Hrun|]. split; [exact Hnt'|].
    rewrite Hpos. f_equal. by_node Es.
Defined.

Lemma update_mirror_leaves_unpaired_witness :
  exists s' n,
    mirror_nodes armR uneven_scene = Ok tt s'
    /\ find_node "arm_R_1_deform" uneven_scene = Some n
    /\ find_node "arm_R_1_deform" s' = Some n.
Proof.
  destruct (update_mirror_leaves_unpaired armR (RigModule, armL)
              ["arm_L_0_deform"] [] ["arm_R_0_deform"; "arm_R_1_deform"] [] "Behavior"
              uneven_scene)
    as (s' & Hrun & Hframe); try (vm_compute; reflexivity).
  - left. reflexivity.
  - unfold distinct_ids. vm_compute.
    repeat (constructor; [simpl; intuition discriminate|]). constructor.
  - simpl. repeat constructor. simpl. tauto.
  - simpl. intros p q [<-|[]] [<-|[]]. discriminate.
  - node_of "arm_R_1_deform" uneven_scene n En.
    exists s', n. split; [exact Hrun|]. split; [reflexivity|].
    apply Hframe; [|exact En]. simpl. intros [H|[]]. discriminate.
Defined.

Lemma update_mirror_without_mirror_witness :
  update_mirror arm arm_scene = Raise AttributeError arm_scene.
Proof.
  apply (proj1 (update_mirror_without_mirror arm arm_scene ltac:(vm_compute; reflexivity))).
Defined.

Lemma build_freezes_update_witness :
  exists s', _build Leaf arm arm_scene = Ok tt s' /\ update arm s' = Ok arm s'.
Proof.
  eexists. split; [vm_compute; reflexivity|].
  apply (proj2 (build_freezes_update Leaf arm arm_scene)). vm_compute. reflexivity.
Defined.

Lemma update_steady_state_witness : update arm arm_scene = Ok arm arm_scene.
Proof.
  apply (update_steady_state arm arm_scene (PBool false)
           (mkMetadata (Some "arm") (Some "L") "mod" None None));
    vm_compute; reflexivity.
Defined.

Lemma init_twice_witness :
  init RigModule "arm" "L" None (Some the_rig) rig_scene = Ok arm arm_scene
  /\ init RigModule "arm" "L" (Some "skeleton") (Some the_rig) arm_scene = Ok arm arm_scene.
Proof.
  assert (H : init RigModule "arm" "L" None (Some the_rig) rig_scene = Ok arm arm_scene)
    by (vm_compute; reflexivity).
  split; [exact H|].
  apply (init_twice RigModule "arm" "L" None (Some "skeleton") (Some the_rig)
           rig_scene arm_scene arm H).
  vm_compute. reflexivity.
Defined.

Lemma find_non_mirrored_parents_walk_witness :
  find_non_mirrored_parents 3 hand None limb_scene = Ok [(RigModule, arm)] limb_scene.
Proof.
  apply (find_non_mirrored_parents_walk [(RigModule, arm)] 3 hand None limb_scene).
  - split; [vm_compute; reflexivity|]. split.
    + split; [vm_compute; reflexivity|].
      exists (Some "L"). split; [vm_compute; reflexivity | discriminate].
    + exists (RigModule, spine). split; [vm_compute; reflexivity|].
      right. split; vm_compute; reflexivity.
  - simpl. lia.
Defined.

Lemma find_non_mirrored_parents_of_root_witness :
  find_non_mirrored_parents 3 hand None orphan_scene = Raise AttributeError orphan_scene.
Proof.
  apply (find_non_mirrored_parents_of_root [(RigModule, arm)] 3 hand None orphan_scene).
  - split; [vm_compute; reflexivity|]. split.
    + split; [vm_compute; reflexivity|].
      exists (Some "L"). split; [vm_compute; reflexivity | discriminate].
    + vm_compute. reflexivity.
  - simpl. lia.
Defined.

Lemma parent_module_follows_back_reference_witness :
  exists s1 s2,
    add_node armL "joint" (Some "deform") (Some 1) None None pair_scene
    = Ok "arm_L_1_deform" s1
    /\ fields.set armR parent_joint (PStr "arm_L_1_deform") s1 = Ok tt s2
    /\ parent_module armR s2 = Ok (Some (RigModule, armL)) s2.
Proof.
  do 2 eexists. split; [vm_compute; reflexivity|]. split; [vm_compute; reflexivity|].
  eapply (parent_module_follows_back_reference armL armR "joint" (Some "deform") (Some 1)
            None None pair_scene _ _ "arm_L_1_deform" "RigModule" RigModule (PBool true));
    try (vm_compute; reflexivity).
  - discriminate.
  - unfold distinct_ids. vm_compute.
    repeat (constructor; [simpl; intuition discriminate|]). constructor.
Defined.

Lemma module_mirror_round_trip_witness :
  exists s',
    set_module_mirror armR (PStr "arm_L_mod") pair_scene = Ok tt s'
    /\ module_mirror armR s' = Ok (Some (RigModule, armL)) s'
    /\ is_mirrored armR s' = Ok true s'.
Proof.
  eexists. split; [vm_compute; reflexivity|].
  apply (module_mirror_round_trip armR "arm_L_mod" "RigModule" pair_scene _ RigModule
           (PBool true)); try (vm_compute; reflexivity).
  - discriminate.
  - unfold distinct_ids. vm_compute.
    repeat (constructor; [simpl; intuition discriminate|]). constructor.
Defined.

Lemma initialize_creates_groups_witness :
  exists s' gp,
    initialize arm bare_scene = Ok tt s'
    /\ find_node "arm_L_placement_grp" s' = Some gp
    /\ n_parent gp = Some 2
    /\ attr_bool "inheritsTransform" gp = Some false
    /\ length (nodes s') = 6.
Proof.
  node_of "arm_L_mod" bare_scene b Eb.
  assert (Hid : n_id b = 2) by by_node Eb.
  destruct (initialize_creates_groups arm bare_scene b (Some "arm") (Some "L") []
              None None None wf_bare_scene Eb)
    as (s' & b' & gp & gc & ge & Hrun & Hp & _ & _ & Hg & Hinh & _ & _ & _ & _ & _ & _ & _
        & _ & Hlen & _); [facts Eb .. |].
  exists s', gp. split; [exact Hrun|]. split; [exact Hp|].
  split; [rewrite <- Hid; apply (Hg gp); simpl; auto|].
  split; [exact Hinh | exact Hlen].
Defined.

Lemma initialize_twice_raises_witness :
  exists s',
    initialize arm bare_scene = Ok tt s'
    /\ initialize arm s'
       = Raise (ValueError "A node with the name `arm_L_placement_grp` already exists") s'.
Proof.
  node_of "arm_L_mod" bare_scene b Eb.
  destruct (initialize_twice_raises arm bare_scene b (Some "arm") (Some "L") []
              None None None wf_bare_scene Eb) as (s' & Hrun & Hraise); [facts Eb .. |].
  exists s'. split; [exact Hrun | exact Hraise].
Defined.

Lemma deform_joint_parent_fallback_witness :
  exists s' new,
    _add_deform_joint arm None None None arm_scene = Ok "arm_L_0_deform" s'
    /\ find_node "arm_L_0_deform" s' = Some new
    /\ find_node "skeleton" arm_scene = Some (group 1 "skeleton")
    /\ n_parent new = Some 1.
Proof.
  node_of "arm_L_mod" arm_scene b Eb.
  destruct (deform_joint_parent_fallback arm None None None arm_scene (Some "arm") (Some "L")
              b (group 1 "skeleton") [3; 4; 5] [] "skeleton" wf_arm_scene Eb)
    as (s' & new & b' & Hrun & Hnew & _ & _ & Hpar & _);
    [facts Eb | facts Eb | facts Eb | facts Eb | facts Eb | | facts Eb |].
  - right. right. split; [reflexivity|]. split; [by_node Eb|].
    exists the_rig. split; reflexivity.
  - exists s', new. split; [exact Hrun|]. split; [exact Hnew|].
    split; [vm_compute; reflexivity | exact Hpar].
Defined.

Lemma deform_joint_without_rig_witness :
  exists s' new,
    _add_deform_joint stray_arm None None None arm_scene = Raise AttributeError s'
    /\ find_node "arm_L_0_deform" s' = Some new
    /\ fields.get_list stray_arm deform_joints s' = Ok [] s'.
Proof.
  node_of "arm_L_mod" arm_scene b Eb.
  destruct (deform_joint_without_rig stray_arm None None None arm_scene (Some "arm")
              (Some "L") b [3; 4; 5] [] wf_arm_scene Eb)
    as (s' & new & b' & Hrun & Hnew & _ & _ & Hb' & _ & Hdj & _); [facts Eb .. |].
  exists s', new. split; [exact Hrun|]. split; [exact Hnew|].
  exact (get_list_ok stray_arm deform_joints s' b' [] Hb' Hdj).
Defined.

Lemma placement_locator_twice_raises_witness :
  exists s',
    _add_placement_locator arm None None None arm_scene = Ok "arm_L_placement" s'
    /\ _add_placement_locator arm None None None s'
       = Raise (ValueError "A node with the name `arm_L_placement` already exists") s'.
Proof.
  node_of "arm_L_mod" arm_scene b Eb.
  node_of "arm_L_placement_grp" arm_scene p Ep.
  destruct (placement_locator_twice_raises arm None None None arm_scene (Some "arm")
              (Some "L") b p [3; 4; 5] [] "arm_L_placement_grp" wf_arm_scene Eb)
    as (s' & Hrun & Hraise);
    [facts Eb | facts Eb | facts Eb | facts Eb | facts Eb | | exact Ep |].
  - right. split; [reflexivity|]. exists p. split; [|split; [exact Ep | discriminate]].
    revert Ep Eb. vm_compute. intros [= <-] [= <-]. reflexivity.
  - exists s'. split; [exact Hrun | exact (Hraise None)].
Defined.

Lemma place_nodes_by_index_witness :
  exists s' n',
    @place_nodes placing_host arm deform_joints "deform_joints" placed_scene = Ok tt s'
    /\ find_node "arm_L_0_deform" s' = Some n'
    /\ t_matrix (n_xform n') = raised_mat.
Proof.
  node_of "arm_L_0_deform" placed_scene n En.
  destruct (@place_nodes_by_index placing_host arm deform_joints "deform_joints"
              ["arm_L_0_deform"] placed_scene wf_placed_scene)
    as (s' & Hrun & Hpost & _).
  - vm_compute. reflexivity.
  - repeat constructor. simpl. tauto.
  - exists s'. eexists. split; [exact Hrun|].
    split; [exact (Hpost 0 "arm_L_0_deform" n eq_refl En)|]. reflexivity.
Defined.

Lemma place_without_config_witness :
  place_placement_nodes arm placed_scene = Ok tt placed_scene.
Proof.
  apply (place_without_config arm ["arm_L_0_deform"] ["arm_L_pv_placement"] placed_scene);
    vm_compute; reflexivity.
Defined.

Lemma wf_rig_scene : wf rig_scene.
Proof. wf_scene. Qed.

Lemma init_creates_module_witness :
  exists s' b,
    init RigModule "arm" "L" None (Some the_rig) rig_scene = Ok arm s'
    /\ find_node "arm_L_mod" s' = Some b
    /\ attr_bool "is_initialized" b = Some true
    /\ attr_ids "deform_joints" b = Some []
    /\ length (nodes s') = 6.
Proof.
  node_of "modules" rig_scene g Eg.
  destruct (init_creates_module "arm" "L" "modules" the_rig g
              (mkMetadata (Some "arm") (Some "L") "mod" None None) rig_scene)
    as (s' & b & gp & gc & ge & Hrun & Hb & _ & _ & _ & _ & _ & Hi & _ & _ & Hj & _ & _
        & _ & _ & _ & _ & _ & _ & _ & _ & Hl & _).
  - exact wf_rig_scene.
  - vm_compute; reflexivity.
  - vm_compute; reflexivity.
  - simpl; tauto.
  - reflexivity.
  - exact Eg.
  - vm_compute; reflexivity.
  - reflexivity.
  - reflexivity.
  - vm_compute; reflexivity.
  - vm_compute; reflexivity.
  - vm_compute; reflexivity.
  - vm_compute. repeat (constructor; [simpl; intuition discriminate|]). constructor.
  - exists s', b. split; [exact Hrun|]. split; [exact Hb|]. split; [exact Hi|].
    split; [exact Hj | exact Hl].
Defined.

Ltac owning_scene :=
  split;
  [ unfold distinct_ids; vm_compute;
    repeat (constructor; [simpl; intuition discriminate|]); constructor |];
  split;
  [ intros n Hn; vm_compute in Hn;
    repeat (destruct Hn as [<-|Hn]; [vm_compute; lia|]); destruct Hn |];
  intros n Hn; vm_compute in Hn;
  repeat (destruct Hn as [<-|Hn];
          [ intros f l [-> | ->] Hl; vm_compute in Hl;
            first [ discriminate Hl
                  | injection Hl as <-; eexists; split;
                    [ vm_compute; reflexivity | intros z Hz; simpl in Hz |- *; tauto ] ] |]);
  destruct Hn.

Lemma owning_placed_scene : owning placed_scene.
Proof. owning_scene. Qed.

Lemma owning_renaming_scene : owning renaming_scene.
Proof. owning_scene. Qed.

Lemma owning_mirror_scene : owning mirror_scene.
Proof. owning_scene. Qed.

Lemma registry_of_RigModule_std : registry_of_RigModule.
Proof.
  intros t C H. simpl in H. destruct (t =? "RigModule"); now inversion H.
Qed.

Lemma placement_nodes_stay_owned_witness :
  fields.get_list arm deform_joints placed_scene = Ok ["arm_L_0_deform"] placed_scene
  /\ fields.get_list arm placement_locators placed_scene
     = Ok ["arm_L_pv_placement"] placed_scene
  /\ fields.get_list arm deform_joints
       (state_of (_add_deform_joint arm None None None placed_scene))
     = Ok ["arm_L_0_deform"; "arm_L_1_deform"]
          (state_of (_add_deform_joint arm None None None placed_scene))
  /\ owning (state_of (_add_deform_joint arm None None None placed_scene))
  /\ owning (state_of (_add_placement_locator arm (Some "pv") None None placed_scene))
  /\ owning (state_of (add_control arm "arm_L_0_deform" None None "circle" placed_scene))
  /\ owning (state_of (update arm renaming_scene))
  /\ owning (state_of (update_mirror armR mirror_scene)).
Proof.
  assert (K : forall A (c : M A) s, preserves c -> owning s -> owning (state_of (c s))).
  { intros A c s Hc Hs. specialize (Hc s Hs). unfold state_of.
    destruct (c s); exact Hc. }
  destruct (placement_nodes_stay_owned arm)
    as (_ & _ & _ & _ & Hupd & _ & _ & _ & Hjoint & Hloc & Hctl & _).
  destruct (placement_nodes_stay_owned armR)
    as (_ & _ & _ & _ & _ & _ & _ & _ & _ & _ & _ & Hmir).
  split; [vm_compute; reflexivity|].
  split; [vm_compute; reflexivity|].
  split; [vm_compute; reflexivity|].
  split; [apply K; [apply Hjoint | exact owning_placed_scene]|].
  split; [apply K; [apply Hloc | exact owning_placed_scene]|].
  split; [apply K; [apply Hctl | exact owning_placed_scene]|].
  split; [apply K; [apply Hupd | exact owning_renaming_scene]|].
  apply K; [exact (Hmir registry_of_RigModule_std) | exact owning_mirror_scene].
Defined.






End examples.
